(** * colcon-sanitizer-reports: the sanitizer log parser

    A shallow embedding of [colcon_sanitizer_reports]:
    - [_sanitizer_section_part_stack_trace.py] (key of one stack trace),
    - [_sanitizer_section_part.py] (relevant stack traces of one section part),
    - [_sanitizer_section.py] (error name and parts of one section),
    - [sanitizer_log_parser.py] (the streaming parser and its csv report),
    - [event_handlers/sanitizer_report.py] (the handler of a build's events),
    together with the fragment of Python's [re] module those files use.

    Strings are lists of characters; a character is an 8-bit code point
    (the Latin-1 range of Python's [str]), with [\s] and [\d] as Python
    classifies those code points. *)

From Stdlib Require Import String Ascii Bool Arith Lia List.
From Stdlib Require Import DecimalString.
Import ListNotations.

Set Implicit Arguments.

Local Open Scope list_scope.

(** ** Text *)

Definition str := list ascii.

Notation "$ s" := (list_ascii_of_string s) (at level 1, s at level 0, format "$ s").

Definition str_eq_dec : forall a b : str, {a = b} + {a <> b} :=
  list_eq_dec ascii_dec.

Definition code (c : ascii) : nat := nat_of_ascii c.

(** [str.isspace] on one code point, also what [\s] matches: tab, line feed,
    vertical tab, form feed, carriage return, the four separators 0x1c-0x1f,
    space, NEL (0x85) and the no-break space (0xa0). *)
Definition is_space (c : ascii) : bool :=
  let n := code c in
  ((9 <=? n) && (n <=? 13)) || ((28 <=? n) && (n <=? 32)) || (n =? 133) || (n =? 160).

(** [\d]: a decimal digit. *)
Definition is_digit (c : ascii) : bool :=
  let n := code c in (48 <=? n) && (n <=? 57).

(** [[\da-f]]: a decimal digit or a lower-case letter a-f. *)
Definition is_hex (c : ascii) : bool :=
  let n := code c in is_digit c || ((97 <=? n) && (n <=? 102)).

Definition newline : ascii := ascii_of_nat 10.

(** [.] without DOTALL: anything but a line feed. *)
Definition is_dot (c : ascii) : bool := negb (code c =? 10).

Fixpoint dropwhile (p : ascii -> bool) (s : str) : str :=
  match s with
  | c :: s' => if p c then dropwhile p s' else s
  | [] => []
  end.

Fixpoint takewhile (p : ascii -> bool) (s : str) : str :=
  match s with
  | c :: s' => if p c then c :: takewhile p s' else []
  | [] => []
  end.

(** [s.rstrip()] *)
Definition rstrip (s : str) : str := rev (dropwhile is_space (rev s)).

(** [s] without the leading [l], when [s] starts with [l]. *)
Fixpoint strip_prefix (l s : str) : option str :=
  match l, s with
  | [], _ => Some s
  | a :: l', b :: s' => if ascii_dec a b then strip_prefix l' s' else None
  | _ :: _, [] => None
  end.

(** ** The fragment of [re] the parser uses

    Every repetition in the source's patterns is over a single character
    class, so the abstract syntax has repetition of classes only. *)

Inductive cclass : Type :=
| CDot        (* .        *)
| CDigit      (* \d       *)
| CSpace      (* \s       *)
| CNonSpace   (* \S       *)
| CHex.       (* [\da-f]  *)

Definition cmatch (k : cclass) (c : ascii) : bool :=
  match k with
  | CDot => is_dot c
  | CDigit => is_digit c
  | CSpace => is_space c
  | CNonSpace => negb (is_space c)
  | CHex => is_hex c
  end.

Inductive regex : Type :=
| Eps                                   (* the empty pattern            *)
| Lit (l : str)                         (* literal text                 *)
| Cls (k : cclass)                      (* one character of a class     *)
| Star (k : cclass)                     (* k*   greedy                  *)
| Plus (k : cclass)                     (* k+   greedy                  *)
| StarLazy (k : cclass)                 (* k*?                          *)
| PlusLazy (k : cclass)                 (* k+?                          *)
| Seq (r1 r2 : regex)                   (* r1 r2                        *)
| Alt (r1 r2 : regex)                   (* r1|r2                        *)
| Group (name : option string) (r : regex)  (* (r) and (?P<name>r)      *)
| Bol                                   (* ^                            *)
| Eol.                                  (* $                            *)

Declare Scope regex_scope.
Delimit Scope regex_scope with re.
Bind Scope regex_scope with regex.
Infix "+>" := Seq (at level 61, right associativity) : regex_scope.
Infix "<|>" := Alt (at level 62, right associativity) : regex_scope.

Lemma cclass_eq_dec : forall a b : cclass, {a = b} + {a <> b}.
Proof. decide equality. Defined.

Lemma regex_eq_dec : forall a b : regex, {a = b} + {a <> b}.
Proof.
  decide equality; try apply cclass_eq_dec; try apply str_eq_dec.
  decide equality. apply string_dec.
Defined.

(** The groups of a match, most recent binding first. *)
Definition groups := list (string * str).

Fixpoint groupdict (g : groups) (name : string) : str :=
  match g with
  | (n, v) :: g' => if string_dec n name then v else groupdict g' name
  | [] => []
  end.

Definition bind_group (name : option string) (v : str) (g : groups) : groups :=
  match name with
  | Some n => (n, v) :: g
  | None => g
  end.

(** The text between position [s] and the later position [s'] of one subject. *)
Definition between (s s' : str) : str := firstn (length s - length s') s.

Section Matcher.

(** What a successful match hands back. *)
Variable R : Type.

(** [k*] greedy, then [k]: the longest run first, giving back one character
    at a time while the rest of the pattern fails. *)
Fixpoint star_greedy (p : ascii -> bool) (k : str -> option R) (s : str) : option R :=
  match s with
  | c :: s' =>
      if p c then
        match star_greedy p k s' with
        | Some r => Some r
        | None => k s
        end
      else k s
  | [] => k []
  end.

(** [k*?]: the shortest run first. *)
Fixpoint star_lazy (p : ascii -> bool) (k : str -> option R) (s : str) : option R :=
  match k s with
  | Some r => Some r
  | None =>
      match s with
      | c :: s' => if p c then star_lazy p k s' else None
      | [] => None
      end
  end.

(** The backtracking matcher, in continuation-passing style: [run w r k s g]
    matches [r] at the position [s] of the subject [w] with the groups [g]
    bound so far, and hands the position after the match to [k]. *)
Fixpoint run (w : str) (r : regex) (k : str -> groups -> option R)
         (s : str) (g : groups) : option R :=
  match r with
  | Eps => k s g
  | Lit l =>
      match strip_prefix l s with
      | Some s' => k s' g
      | None => None
      end
  | Cls c =>
      match s with
      | a :: s' => if cmatch c a then k s' g else None
      | [] => None
      end
  | Star c => star_greedy (cmatch c) (fun s' => k s' g) s
  | Plus c =>
      match s with
      | a :: s' =>
          if cmatch c a then star_greedy (cmatch c) (fun s' => k s' g) s' else None
      | [] => None
      end
  | StarLazy c => star_lazy (cmatch c) (fun s' => k s' g) s
  | PlusLazy c =>
      match s with
      | a :: s' =>
          if cmatch c a then star_lazy (cmatch c) (fun s' => k s' g) s' else None
      | [] => None
      end
  | Seq r1 r2 => run w r1 (fun s' g' => run w r2 k s' g') s g
  | Alt r1 r2 =>
      match run w r1 k s g with
      | Some x => Some x
      | None => run w r2 k s g
      end
  | Group name r1 =>
      run w r1 (fun s' g' => k s' (bind_group name (between s s') g')) s g
  | Bol => if length s =? length w then k s g else None
  | Eol =>
      match s with
      | [] => k s g
      | [c] => if ascii_dec c newline then k s g else None
      | _ => None
      end
  end.

End Matcher.

(** [re.match(r, w)]: a match at the start of [w], as its groups. *)
Definition re_match (r : regex) (w : str) : option groups :=
  run w r (fun _ g => Some g) w [].

Definition matches (r : regex) (w : str) : bool :=
  match re_match r w with Some _ => true | None => false end.

(** Where a match of [r] at the start of [s] ends (the text after it). *)
Definition match_end (r : regex) (s : str) : option str :=
  run s r (fun s' _ => Some s') s [].

(** [re.sub(r, repl, s)] for a pattern that never matches the empty string:
    the leftmost matches, none overlapping, replaced by [repl]. *)
Fixpoint re_sub_from (fuel : nat) (r : regex) (repl s : str) : str :=
  match fuel with
  | 0 => s
  | S fuel' =>
      match s with
      | [] => []
      | c :: s' =>
          match match_end r s with
          | Some rest =>
              if length rest <? length s
              then repl ++ re_sub_from fuel' r repl rest
              else c :: re_sub_from fuel' r repl s'
          | None => c :: re_sub_from fuel' r repl s'
          end
      end
  end.

Definition re_sub (r : regex) (repl s : str) : str :=
  re_sub_from (length s) r repl s.

(** ** Exceptions *)

Inductive exn : Type :=
| AssertionError     (* a failed [assert]                         *)
| AttributeError     (* [.groupdict()] of the [None] of a failed match *)
| IndexError.        (* an index out of range                     *)

Inductive result (A : Type) : Type :=
| Returned (a : A)
| Raised (e : exn).

Arguments Returned {A} a.
Arguments Raised {A} e.

Definition bind {A B : Type} (m : result A) (f : A -> result B) : result B :=
  match m with
  | Returned a => f a
  | Raised e => Raised e
  end.

Notation "x <- m ;; f" := (bind m (fun x => f))
  (at level 63, m at next level, right associativity).

(** ** [_sanitizer_section_part_stack_trace.py] *)

(** "^\s*#\d+ (0x[\da-f]+ in|)\s*(?P<key>.*/ros2.*)\s*$" *)
Definition _FIND_KEY_REGEX : regex :=
  (Bol +> Star CSpace +> Lit $"#" +> Plus CDigit +> Lit $" " +>
   Group None ((Lit $"0x" +> Plus CHex +> Lit $" in") <|> Eps) +>
   Star CSpace +>
   Group (Some "key"%string) (Star CDot +> Lit $"/ros2" +> Star CDot) +>
   Star CSpace +> Eol)%re.

(** "0x[\da-f]+" *)
Definition _FIND_KEY_SUB_REGEX : regex := (Lit $"0x" +> Plus CHex)%re.

Record SanitizerSectionPartStackTrace : Type := { key : str }.

(** The loop of [SanitizerSectionPartStackTrace.__init__]: the masked key of
    the first line that matches, [None] when no line does. *)
Fixpoint find_key (lines : list str) : option str :=
  match lines with
  | [] => None
  | line :: rest =>
      match re_match _FIND_KEY_REGEX line with
      | Some m => Some (re_sub _FIND_KEY_SUB_REGEX $"0xX" (groupdict m "key"))
      | None => find_key rest
      end
  end.

Definition SanitizerSectionPartStackTrace_init (lines : list str)
  : result SanitizerSectionPartStackTrace :=
  match find_key lines with
  | Some k => Returned {| key := k |}
  | None => Raised AssertionError
  end.

(** ** [_sanitizer_section_part.py] *)

(** "^\s+(Read|Write) of size \d+ at 0x[\da-f]+ .*$" *)
Definition data_race_begin_1 : regex :=
  (Bol +> Plus CSpace +> Group None (Lit $"Read" <|> Lit $"Write") +>
   Lit $" of size " +> Plus CDigit +> Lit $" at 0x" +> Plus CHex +> Lit $" " +>
   Star CDot +> Eol)%re.

(** "^\s+Previous (read|write) of size \d+ at 0x[\da-f]+ .*$" *)
Definition data_race_begin_2 : regex :=
  (Bol +> Plus CSpace +> Lit $"Previous " +>
   Group None (Lit $"read" <|> Lit $"write") +>
   Lit $" of size " +> Plus CDigit +> Lit $" at 0x" +> Plus CHex +> Lit $" " +>
   Star CDot +> Eol)%re.

(** "^Direct leak of \d+ byte\(s\) in \d+ object\(s\) allocated from:$" *)
Definition direct_leak_begin : regex :=
  (Bol +> Lit $"Direct leak of " +> Plus CDigit +> Lit $" byte(s) in " +>
   Plus CDigit +> Lit $" object(s) allocated from:" +> Eol)%re.

(** "^\s+Mutex M\d+ acquired here while holding mutex M\d+ in .*$" *)
Definition lock_order_begin : regex :=
  (Bol +> Plus CSpace +> Lit $"Mutex M" +> Plus CDigit +>
   Lit $" acquired here while holding mutex M" +> Plus CDigit +> Lit $" in " +>
   Star CDot +> Eol)%re.

(** "^.*$", the pattern of the [defaultdict] behind the table. *)
Definition any_line : regex := (Bol +> Star CDot +> Eol)%re.

(** The [ChainMap]: the table first, the default for every other name. *)
Definition _FIND_RELEVANT_STACK_TRACE_BEGIN_REGEXES_BY_ERROR_NAME
           (error_name : str) : list regex :=
  if str_eq_dec error_name $"data race" then
    [data_race_begin_1; data_race_begin_2]
  else if str_eq_dec error_name $"detected memory leaks" then
    [direct_leak_begin]
  else if str_eq_dec error_name $"lock-order-inversion" then
    [lock_order_begin; lock_order_begin]
  else [any_line].

(** "^\s*#\d+\s+.*$" *)
Definition _FIND_STACK_TRACE_LINE_REGEX : regex :=
  (Bol +> Star CSpace +> Lit $"#" +> Plus CDigit +> Plus CSpace +>
   Star CDot +> Eol)%re.

Section PartLoop.

(** The loop of [SanitizerSectionPart.__init__] over the constructor [mk] it
    hands each closed group of stack trace lines to. *)
Variable T : Type.
Variable mk : list str -> result T.

Variable regexes : list regex.

(** The loop state is [relevant_stack_traces] and
    [relevant_stack_trace_lines]; the result is the state the loop is left
    with, by exhaustion or by [break]. *)
Fixpoint part_loop (lines : list str) (traces : list T)
         (cur : option (list str)) : result (list T * option (list str)) :=
  match lines with
  | [] => Returned (traces, cur)
  | line :: rest =>
      let begin_check (traces' : list T) :=
        match nth_error regexes (length traces') with
        | None => Raised IndexError
        | Some r =>
            if matches r line
            then part_loop rest traces' (Some [])
            else part_loop rest traces' None
        end in
      match cur with
      | Some trace_lines =>
          if matches _FIND_STACK_TRACE_LINE_REGEX line
          then part_loop rest traces (Some (trace_lines ++ [line]))
          else
            t <- mk trace_lines ;;
            let traces' := traces ++ [t] in
            if length traces' =? length regexes
            then Returned (traces', None)
            else begin_check traces'
      | None => begin_check traces
      end
  end.

(** After the loop: a group still open and not empty is closed too. *)
Definition part_traces (lines : list str) : result (list T) :=
  st <- part_loop lines [] None ;;
  match st with
  | (traces, Some (l :: trace_lines)) =>
      t <- mk (l :: trace_lines) ;; Returned (traces ++ [t])
  | (traces, _) => Returned traces
  end.

End PartLoop.

Record SanitizerSectionPart : Type :=
  { relevant_stack_traces : list SanitizerSectionPartStackTrace }.

Definition SanitizerSectionPart_init (error_name : str) (lines : list str)
  : result SanitizerSectionPart :=
  ts <- part_traces SanitizerSectionPartStackTrace_init
          (_FIND_RELEVANT_STACK_TRACE_BEGIN_REGEXES_BY_ERROR_NAME error_name)
          lines ;;
  Returned {| relevant_stack_traces := ts |}.

(** The groups of lines the part segmenter closes, in the order it hands them
    to the stack trace constructor (were every one of them accepted). *)
Definition closed_groups (error_name : str) (lines : list str)
  : result (list (list str)) :=
  part_traces (fun l => Returned l)
    (_FIND_RELEVANT_STACK_TRACE_BEGIN_REGEXES_BY_ERROR_NAME error_name) lines.

(** ** [_sanitizer_section.py] *)

(** "^.*Sanitizer: (?P<error_name>.+?)( \(| 0x[\da-f]+|\s*$)" *)
Definition _FIND_ERROR_NAME_REGEX : regex :=
  (Bol +> Star CDot +> Lit $"Sanitizer: " +>
   Group (Some "error_name"%string) (PlusLazy CDot) +>
   Group None (Lit $" (" <|> (Lit $" 0x" +> Plus CHex) <|> (Star CSpace +> Eol)))%re.

(** "^\S.*$" *)
Definition _FIND_SECTION_PART_BEGIN_REGEX : regex :=
  (Bol +> Cls CNonSpace +> Star CDot +> Eol)%re.

Record SanitizerSection : Type :=
  { error_name : str; parts : list SanitizerSectionPart }.

(** [re.match(_FIND_ERROR_NAME_REGEX, lines[0]).groupdict()['error_name']] *)
Definition find_error_name (lines : list str) : result str :=
  match lines with
  | [] => Raised IndexError
  | header :: _ =>
      match re_match _FIND_ERROR_NAME_REGEX header with
      | Some m => Returned (groupdict m "error_name")
      | None => Raised AttributeError
      end
  end.

(** The [for ... else] of [SanitizerSection.__init__] over [part_lines] and
    [sub_sections]. *)
Fixpoint section_loop (name : str) (lines part_lines : list str)
         (sub_sections : list SanitizerSectionPart)
  : result (list SanitizerSectionPart) :=
  match lines with
  | [] =>
      p <- SanitizerSectionPart_init name part_lines ;;
      Returned (sub_sections ++ [p])
  | line :: rest =>
      if matches _FIND_SECTION_PART_BEGIN_REGEX line
         && negb (length part_lines =? 0)
      then
        p <- SanitizerSectionPart_init name part_lines ;;
        section_loop name rest [line] (sub_sections ++ [p])
      else section_loop name rest (part_lines ++ [line]) sub_sections
  end.

Definition SanitizerSection_init (lines : list str) : result SanitizerSection :=
  name <- find_error_name lines ;;
  ps <- section_loop name lines [] [] ;;
  Returned {| error_name := name; parts := ps |}.

(** ** [sanitizer_log_parser.py] *)

(** "^(?P<prefix>.*?)(==\d+==|)(WARNING|ERROR):.*Sanitizer:.*$" *)
Definition _FIND_SECTION_START_LINE_REGEX : regex :=
  (Bol +> Group (Some "prefix"%string) (StarLazy CDot) +>
   Group None ((Lit $"==" +> Plus CDigit +> Lit $"==") <|> Eps) +>
   Group None (Lit $"WARNING" <|> Lit $"ERROR") +> Lit $":" +>
   Star CDot +> Lit $"Sanitizer:" +> Star CDot +> Eol)%re.

(** "^(?P<prefix>.*?)(SUMMARY: .*Sanitizer: .*)$" *)
Definition _FIND_SECTION_END_LINE_REGEX : regex :=
  (Bol +> Group (Some "prefix"%string) (StarLazy CDot) +>
   Group None (Lit $"SUMMARY: " +> Star CDot +> Lit $"Sanitizer: " +> Star CDot) +>
   Eol)%re.

(** "^{prefix}(?P<line>.*)$" with [re.escape(prefix)] for the prefix: the
    escaped prefix matches the prefix itself, character by character. *)
Definition find_line_regex_of (prefix : str) : regex :=
  (Bol +> Lit prefix +> Group (Some "line"%string) (Star CDot) +> Eol)%re.

(** [SanitizerLogParserOutputPrimaryKey]: package, error_name, stack_trace_key. *)
Definition OutputKey : Type := (option str * str * str)%type.

Definition OutputKey_eq_dec : forall a b : OutputKey, {a = b} + {a <> b}.
Proof.
  intros [[p1 e1] k1] [[p2 e2] k2].
  destruct (str_eq_dec e1 e2); [| right; congruence].
  destruct (str_eq_dec k1 k2); [| right; congruence].
  destruct p1 as [p1|], p2 as [p2|]; try (right; congruence).
  - destruct (str_eq_dec p1 p2); [left | right]; congruence.
  - left; congruence.
Defined.

(** *** Dictionaries

    A Python [dict] keeps its keys distinct and in insertion order. The keys
    of [_lines_by_find_line_regex] are compiled patterns, which are equal
    when their pattern strings are: here, patterns of the same prefix. *)

Section Dict.

Variables K V : Type.
Variable K_eq_dec : forall a b : K, {a = b} + {a <> b}.

Definition dict := list (K * V).

Fixpoint dict_get (d : dict) (k : K) : option V :=
  match d with
  | (k', v) :: d' => if K_eq_dec k' k then Some v else dict_get d' k
  | [] => None
  end.

(** [d[k] = v]: in place for a key already there, at the end for a new one. *)
Fixpoint dict_set (d : dict) (k : K) (v : V) : dict :=
  match d with
  | (k', v') :: d' =>
      if K_eq_dec k' k then (k', v) :: d' else (k', v') :: dict_set d' k v
  | [] => [(k, v)]
  end.

Definition dict_keys (d : dict) : list K := map fst d.

End Dict.

(** [defaultdict(int)] keyed by the output primary key. *)
Definition counter := dict OutputKey nat.

(** [d[k]] of a [defaultdict(int)]: a missing key is inserted with 0. *)
Definition counter_getitem (d : counter) (k : OutputKey) : nat * counter :=
  match dict_get OutputKey_eq_dec d k with
  | Some v => (v, d)
  | None => (0, dict_set OutputKey_eq_dec d k 0)
  end.

(** [d.items()]: reads, and inserts nothing. *)
Definition counter_items (d : counter) : list (OutputKey * nat) * counter :=
  (d, d).

(** [d[k] += 1] *)
Definition counter_incr (d : counter) (k : OutputKey) : counter :=
  let (v, d') := counter_getitem d k in
  dict_set OutputKey_eq_dec d' k (v + 1).

(** The count a report shows for [k]: the stored one, 0 for no row. *)
Definition count_of (d : counter) (k : OutputKey) : nat :=
  match dict_get OutputKey_eq_dec d k with
  | Some v => v
  | None => 0
  end.

(** *** The parser *)

Record SanitizerLogParser : Type :=
  { _count_by_output_primary_key : counter;
    _package : option str;
    _lines_by_find_line_regex : dict regex (list str) }.

(** [SanitizerLogParser()] *)
Definition SanitizerLogParser_init : SanitizerLogParser :=
  {| _count_by_output_primary_key := [];
     _package := None;
     _lines_by_find_line_regex := [] |}.

Definition set_package (self : SanitizerLogParser) (package : option str)
  : SanitizerLogParser :=
  {| _count_by_output_primary_key := _count_by_output_primary_key self;
     _package := package;
     _lines_by_find_line_regex := _lines_by_find_line_regex self |}.

(** What a call of [add_line] leaves: the parser after a normal return, or
    the exception that left the call and the parser as it was mutated until
    then. *)
Inductive outcome : Type :=
| Done (self : SanitizerLogParser)
| Failed (e : exn) (self : SanitizerLogParser).

(** The keys of a section, in the order of the two nested loops over its parts
    and their relevant stack traces. *)
Definition section_keys (package : option str) (section : SanitizerSection)
  : list OutputKey :=
  flat_map
    (fun part =>
       map (fun t => (package, error_name section, key t))
           (relevant_stack_traces part))
    (parts section).

(** The first half of [add_line]: a section start line registers (or resets)
    the lines gathered under the pattern of its prefix. *)
Definition register_start (self : SanitizerLogParser) (line : str)
  : SanitizerLogParser :=
  match re_match _FIND_SECTION_START_LINE_REGEX line with
  | Some m =>
      let find_line_regex := find_line_regex_of (groupdict m "prefix") in
      {| _count_by_output_primary_key := _count_by_output_primary_key self;
         _package := _package self;
         _lines_by_find_line_regex :=
           dict_set regex_eq_dec (_lines_by_find_line_regex self)
                    find_line_regex [] |}
  | None => self
  end.

(** The [for] loop of [add_line] over the items of
    [_lines_by_find_line_regex]: [seen] are the items already passed over,
    [items] those still to come. The first pattern that matches takes the
    line, and the loop breaks. *)
Fixpoint route (self : SanitizerLogParser) (line : str)
         (seen items : dict regex (list str)) : outcome :=
  match items with
  | [] => Done self
  | (find_line_regex, lines) :: rest =>
      match re_match find_line_regex line with
      | Some m =>
          let lines' := lines ++ [groupdict m "line"] in
          if matches _FIND_SECTION_END_LINE_REGEX line then
            match SanitizerSection_init lines' with
            | Returned section =>
                Done
                  {| _count_by_output_primary_key :=
                       fold_left counter_incr
                         (section_keys (_package self) section)
                         (_count_by_output_primary_key self);
                     _package := _package self;
                     _lines_by_find_line_regex := seen ++ rest |}
            | Raised e =>
                Failed e
                  {| _count_by_output_primary_key :=
                       _count_by_output_primary_key self;
                     _package := _package self;
                     _lines_by_find_line_regex :=
                       seen ++ (find_line_regex, lines') :: rest |}
            end
          else
            Done
              {| _count_by_output_primary_key := _count_by_output_primary_key self;
                 _package := _package self;
                 _lines_by_find_line_regex :=
                   seen ++ (find_line_regex, lines') :: rest |}
      | None => route self line (seen ++ [(find_line_regex, lines)]) rest
      end
  end.

Definition add_line (self : SanitizerLogParser) (line : str) : outcome :=
  let line := rstrip line in
  let self := register_start self line in
  route self line [] (_lines_by_find_line_regex self).

(** Lines fed one after the other, up to the first exception. *)
Fixpoint add_lines (self : SanitizerLogParser) (lines : list str) : outcome :=
  match lines with
  | [] => Done self
  | line :: rest =>
      match add_line self line with
      | Done self' => add_lines self' rest
      | Failed e self' => Failed e self'
      end
  end.

(** *** The csv report *)

Definition comma : ascii := ascii_of_nat 44.
Definition dquote : ascii := ascii_of_nat 34.
Definition cr : ascii := ascii_of_nat 13.

(** [str(n)] *)
Definition str_of_nat (n : nat) : str :=
  list_ascii_of_string (NilEmpty.string_of_uint (Nat.to_uint n)).

(** One field as the [excel] dialect writes it: quoted when it holds the
    delimiter, the quote character or a character of the line terminator,
    with every quote character doubled. *)
Definition csv_field (f : str) : str :=
  let special c :=
    if ascii_dec c comma then true
    else if ascii_dec c dquote then true
    else if ascii_dec c cr then true
    else if ascii_dec c newline then true
    else false in
  if existsb special f
  then dquote :: flat_map (fun c => if ascii_dec c dquote then [c; c] else [c]) f
              ++ [dquote]
  else f.

Fixpoint join_fields (fields : list str) : str :=
  match fields with
  | [] => []
  | [f] => csv_field f
  | f :: rest => csv_field f ++ comma :: join_fields rest
  end.

(** [writer.writerow(fields)] *)
Definition writerow (fields : list str) : str :=
  join_fields fields ++ [cr; newline].

(** The fields of one data row; [None] is written as the empty field. *)
Definition row_fields (item : OutputKey * nat) : list str :=
  let '((package, name, trace_key), count) := item in
  [match package with Some p => p | None => [] end; name; trace_key;
   str_of_nat count].

(** The [csv] property: the text of the report, and the parser after the
    read. *)
Definition csv (self : SanitizerLogParser) : str * SanitizerLogParser :=
  let header := writerow [$"package"; $"error_name"; $"stack_trace_key"; $"count"] in
  let (items, d) := counter_items (_count_by_output_primary_key self) in
  (header ++ flat_map (fun item => writerow (row_fields item)) items,
   {| _count_by_output_primary_key := d;
      _package := _package self;
      _lines_by_find_line_regex := _lines_by_find_line_regex self |}).

(** The data rows of the report. *)
Definition report_rows (self : SanitizerLogParser) : list (OutputKey * nat) :=
  fst (counter_items (_count_by_output_primary_key self)).
(** ** [event_handlers/sanitizer_report.py]

    The handler is called with the events of a build. What it reads and
    writes of the world is explicit here: whether [get_log_path()] gives a
    directory, for the job of a package the lines that iterating over its
    log yields and how the reading ends, what opening and writing
    "sanitizer_report.csv" does, and the contents of that file ([None]
    while it has not been written). The messages the handler logs are left
    out. *)

Inductive event : Type :=
| JobEnded (identifier : str)   (* [event[0]] is a [JobEnded], [event[1].identifier] *)
| OtherEvent.                   (* any other [event[0]] *)

(** How the reading of a log ends, after the lines it has yielded. *)
Inductive read_end : Type :=
| EndOfFile
| ReadIOError              (* [open] or a read raises [IOError] (that is
                              [OSError]); without any line when the file
                              cannot be opened *)
| ReadUnicodeDecodeError.  (* the bytes read next are no text *)

Record log : Type :=
  { yielded : list str;
    ending : read_end }.

(** What [open('sanitizer_report.csv', 'w')] and [write] do. *)
Inductive report_access : Type :=
| ReportWritten
| ReportOpenFails                 (* [open] raises [OSError] *)
| ReportWriteFails (held : str).  (* [write] raises [OSError]; [held] is what
                                     the file holds then *)

Record files : Type :=
  { log_path : bool;              (* [get_log_path()] is not [None] *)
    log_of : str -> log;
    report_access_of : report_access;
    sanitizer_report_csv : option str }.

Record SanitizerReportEventHandler : Type :=
  { enabled : bool;
    _log_parser : SanitizerLogParser }.

(** [SanitizerReportEventHandler()] *)
Definition SanitizerReportEventHandler_init : SanitizerReportEventHandler :=
  {| enabled := false;
     _log_parser := SanitizerLogParser_init |}.

(** The exceptions that leave a call of the handler. *)
Inductive handler_exn : Type :=
| ParserError (e : exn)     (* raised by [add_line] *)
| TypeError                 (* [None / job.identifier] *)
| UnicodeDecodeError        (* raised by the iteration over the log *)
| OSError.                  (* raised for "sanitizer_report.csv" *)

(** What a call of the handler leaves: the handler and the files after a
    normal return, or the exception that left the call, with the handler and
    the files as they were by then. *)
Inductive handled : Type :=
| Handled (self : SanitizerReportEventHandler) (fs : files)
| HandlerRaised (e : handler_exn) (self : SanitizerReportEventHandler) (fs : files).

(** The [with open('sanitizer_report.csv', 'w')] at the end of [_handle];
    the parser's [csv] is read once the file is open. *)
Definition write_report (self : SanitizerReportEventHandler) (fs : files)
  : handled :=
  let report text :=
    {| log_path := log_path fs;
       log_of := log_of fs;
       report_access_of := report_access_of fs;
       sanitizer_report_csv := text |} in
  match report_access_of fs with
  | ReportOpenFails => HandlerRaised OSError self fs
  | ReportWriteFails held =>
      let (_, parser) := csv (_log_parser self) in
      HandlerRaised OSError {| enabled := enabled self; _log_parser := parser |}
                    (report (Some held))
  | ReportWritten =>
      let (text, parser) := csv (_log_parser self) in
      Handled {| enabled := enabled self; _log_parser := parser |}
              (report (Some text))
  end.

Definition _handle (self : SanitizerReportEventHandler) (identifier : str)
           (fs : files) : handled :=
  let parser := set_package (_log_parser self) (Some identifier) in
  let with_parser p := {| enabled := enabled self; _log_parser := p |} in
  if log_path fs then
    match add_lines parser (yielded (log_of fs identifier)) with
    | Failed e parser' => HandlerRaised (ParserError e) (with_parser parser') fs
    | Done parser' =>
        match ending (log_of fs identifier) with
        | ReadUnicodeDecodeError =>
            HandlerRaised UnicodeDecodeError (with_parser parser') fs
        | ReadIOError              (* caught by [except IOError] *)
        | EndOfFile => write_report (with_parser parser') fs
        end
    end
  else HandlerRaised TypeError (with_parser parser) fs.

Definition __call__ (self : SanitizerReportEventHandler) (ev : event)
           (fs : files) : handled :=
  match ev with
  | JobEnded identifier => _handle self identifier fs
  | OtherEvent => Handled self fs
  end.

(** * Notions of the statements *)

(** ** The parser and its loops *)

(** The parser [self] with the counter [d] in place of its own. *)
Definition with_counts (self : SanitizerLogParser) (d : counter) : SanitizerLogParser :=
  {| _count_by_output_primary_key := d;
     _package := _package self;
     _lines_by_find_line_regex := _lines_by_find_line_regex self |}.

(** What the routing loop of [add_line] does with the first item whose
    pattern matches: [seen] and [rest] are the items before and after it. *)
Definition absorb (self : SanitizerLogParser) (line : str)
           (seen : dict regex (list str)) (r : regex) (lines : list str)
           (m : groups) (rest : dict regex (list str)) : outcome :=
  let lines' := lines ++ [groupdict m "line"] in
  let kept :=
    {| _count_by_output_primary_key := _count_by_output_primary_key self;
       _package := _package self;
       _lines_by_find_line_regex := seen ++ (r, lines') :: rest |} in
  if matches _FIND_SECTION_END_LINE_REGEX line then
    match SanitizerSection_init lines' with
    | Returned section =>
        Done
          {| _count_by_output_primary_key :=
               fold_left counter_incr (section_keys (_package self) section)
                         (_count_by_output_primary_key self);
             _package := _package self;
             _lines_by_find_line_regex := seen ++ rest |}
    | Raised e => Failed e kept
    end
  else Done kept.

(** The pattern of a pending section does not match [line]. *)
Definition no_match (line : str) (item : regex * list str) : Prop :=
  re_match (fst item) line = None.

(** [f] over a list, left to right, up to the first exception. *)
Fixpoint mapM {A B : Type} (f : A -> result B) (l : list A) : result (list B) :=
  match l with
  | [] => Returned []
  | a :: l' => b <- f a ;; bs <- mapM f l' ;; Returned (b :: bs)
  end.

(** The groups of lines [SanitizerSection.__init__] makes parts of: the lines
    still to come and the [part_lines] gathered so far. *)
Fixpoint split_parts (lines part_lines : list str) : list (list str) :=
  match lines with
  | [] => [part_lines]
  | line :: rest =>
      if matches _FIND_SECTION_PART_BEGIN_REGEX line
         && negb (length part_lines =? 0)
      then part_lines :: split_parts rest [line]
      else split_parts rest (part_lines ++ [line])
  end.

(** A line of a stack trace. *)
Definition is_frame (line : str) : bool :=
  matches _FIND_STACK_TRACE_LINE_REGEX line.

(** The first line of [lines], if there is one, is no stack trace line. *)
Definition closes_trace (lines : list str) : Prop :=
  match lines with
  | c :: _ => is_frame c = false
  | [] => True
  end.

(** A line that begins no part: it stays in the part of the line before. *)
Definition not_part_begin (l : str) : Prop :=
  matches _FIND_SECTION_PART_BEGIN_REGEX l = false.

(** The begin patterns of a data race. *)
Definition data_race_regexes : list regex :=
  [data_race_begin_1; data_race_begin_2].

(** ** The error name of a header *)

Definition marker : str := $"Sanitizer: ".

(** [s] starts with [l]. *)
Definition starts_with (l s : str) : bool :=
  match strip_prefix l s with Some _ => true | None => false end.

(** What the last group of the error name pattern accepts at the front of
    [s]: a space and an open parenthesis, a space and [0x] with a hex digit,
    or white space up to the end. *)
Definition terminates (s : str) : bool :=
  starts_with $" (" s
  || match strip_prefix $" 0x" s with
     | Some (c :: _) => is_hex c
     | _ => false
     end
  || forallb is_space s.

(** [l] occurs in [s]. *)
Definition occurs (l s : str) : Prop := exists a b, s = a ++ l ++ b.

(** The proper suffixes of [s] that are not empty. *)
Fixpoint proper_suffixes (s : str) : list str :=
  match s with
  | [] => []
  | _ :: s' =>
      match s' with
      | [] => []
      | _ :: _ => s' :: proper_suffixes s'
      end
  end.

(** The error name as the specification words it: the text after the marker
    up to the first open parenthesis, the first [0x] followed by a hex digit,
    or the end of the line. *)
Fixpoint spec_name_end (s : str) : str :=
  match s with
  | [] => []
  | c :: s' =>
      if ascii_dec c "("%char then []
      else match strip_prefix $"0x" s with
           | Some (h :: _) => if is_hex h then [] else c :: spec_name_end s'
           | _ => c :: spec_name_end s'
           end
  end.

Fixpoint after_marker (s : str) : option str :=
  match strip_prefix marker s with
  | Some rest => Some rest
  | None => match s with
            | [] => None
            | _ :: s' => after_marker s'
            end
  end.

Definition spec_error_name (header : str) : option str :=
  match after_marker header with
  | Some rest => Some (spec_name_end rest)
  | None => None
  end.

(** ** The key of a line, read off the key pattern *)

(** The text a [.*] cannot cross: the end, or a line feed. *)
Definition line_end (rest : str) : Prop :=
  rest = [] \/ exists r, rest = newline :: r.

(** "/ros2" occurs in [s]. *)
Fixpoint has_ros2 (s : str) : bool :=
  starts_with $"/ros2" s
  || match s with
     | [] => false
     | _ :: s' => has_ros2 s'
     end.

(** What the key group and the end of the key pattern accept at [v]: the
    text up to the first line feed has "/ros2", and only white space
    follows it. *)
Definition key_group_ok (v : str) : bool :=
  has_ros2 (takewhile is_dot v) && forallb is_space (dropwhile is_dot v).

(** The ["key"] group of the part of the pattern after the optional
    address, matched at [t]. *)
Definition key_tail (t : str) : option str :=
  let u := dropwhile is_space t in
  if key_group_ok u then Some (takewhile is_dot u) else None.

(** The text after a leading address and " in", if [r] starts with them. *)
Definition addr_prefix (r : str) : option str :=
  match strip_prefix $"0x" r with
  | Some (h :: t) =>
      if is_hex h then strip_prefix $" in" (dropwhile is_hex t) else None
  | _ => None
  end.

(** The ["key"] group of a match of the key pattern with [line], before the
    masking. *)
Definition key_of_line (line : str) : option str :=
  match strip_prefix $"#" (dropwhile is_space line) with
  | Some (d :: s1) =>
      if is_digit d then
        match strip_prefix $" " (dropwhile is_digit s1) with
        | Some r =>
            match addr_prefix r with
            | Some r' => key_tail r'
            | None => key_tail r
            end
        | None => None
        end
      else None
  | _ => None
  end.

(** ** Stack traces that differ in addresses and frame numbers *)

(** An address token starts [s]: [0x] and a hex digit. *)
Definition token_start (s : str) : bool :=
  match strip_prefix $"0x" s with
  | Some (h :: _) => is_hex h
  | _ => false
  end.

Definition head_is (p : ascii -> bool) (s : str) : bool :=
  match s with
  | c :: _ => p c
  | [] => false
  end.

(** Two texts, read from the left, are the same but for their address
    tokens: where an address token starts, both have one, [0x] and all the
    hex digits that follow, whatever the digits; elsewhere they have the
    same character. *)
Inductive addr_variant : str -> str -> Prop :=
| av_nil : addr_variant [] []
| av_char (c : ascii) (s1 s2 : str) :
    token_start (c :: s1) = false ->
    token_start (c :: s2) = false ->
    addr_variant s1 s2 ->
    addr_variant (c :: s1) (c :: s2)
| av_addr (h1 h2 s1 s2 : str) :
    h1 <> [] -> h2 <> [] ->
    forallb is_hex h1 = true -> forallb is_hex h2 = true ->
    head_is is_hex s1 = false -> head_is is_hex s2 = false ->
    addr_variant s1 s2 ->
    addr_variant ($"0x" ++ h1 ++ s1) ($"0x" ++ h2 ++ s2).

(** Two lines are the same but for their address tokens and, when they are
    frame lines, for the frame number after the [#]. *)
Inductive line_variant : str -> str -> Prop :=
| lv_frame (ws d1 d2 r1 r2 : str) :
    forallb is_space ws = true ->
    d1 <> [] -> d2 <> [] ->
    forallb is_digit d1 = true -> forallb is_digit d2 = true ->
    head_is is_digit r1 = false -> head_is is_digit r2 = false ->
    addr_variant r1 r2 ->
    line_variant (ws ++ "#"%char :: d1 ++ r1) (ws ++ "#"%char :: d2 ++ r2)
| lv_plain (s1 s2 : str) :
    addr_variant s1 s2 ->
    line_variant s1 s2.

(** Both undefined, or both defined and related. *)
Definition option_rel {A : Type} (P : A -> A -> Prop) (x y : option A) : Prop :=
  match x, y with
  | Some a, Some b => P a b
  | None, None => True
  | _, _ => False
  end.

(** A test that implies [addr_variant], for sample inputs. *)
Fixpoint addr_variantb (fuel : nat) (s1 s2 : str) : bool :=
  match fuel with
  | 0 => false
  | S fuel' =>
      match s1, s2 with
      | [], [] => true
      | c1 :: t1, c2 :: t2 =>
          if token_start s1 then
            if token_start s2 then
              addr_variantb fuel' (dropwhile is_hex (skipn 2 s1))
                            (dropwhile is_hex (skipn 2 s2))
            else false
          else if token_start s2 then false
          else if ascii_dec c1 c2 then addr_variantb fuel' t1 t2
          else false
      | _, _ => false
      end
  end.
(** ** What a pattern matches

    [derive w r s g s' g']: in the subject [w], the pattern [r] matches the
    text between the position [s] and the later position [s'], and binds the
    groups [g'] after the groups [g]. *)

Inductive derive (w : str) : regex -> str -> groups -> str -> groups -> Prop :=
| derive_Eps s g : derive w Eps s g s g
| derive_Lit l s g : derive w (Lit l) (l ++ s) g s g
| derive_Cls c a s g : cmatch c a = true -> derive w (Cls c) (a :: s) g s g
| derive_Star c a s g :
    forallb (cmatch c) a = true -> derive w (Star c) (a ++ s) g s g
| derive_Plus c a s g :
    a <> [] -> forallb (cmatch c) a = true -> derive w (Plus c) (a ++ s) g s g
| derive_StarLazy c a s g :
    forallb (cmatch c) a = true -> derive w (StarLazy c) (a ++ s) g s g
| derive_PlusLazy c a s g :
    a <> [] -> forallb (cmatch c) a = true ->
    derive w (PlusLazy c) (a ++ s) g s g
| derive_Seq r1 r2 s g s1 g1 s2 g2 :
    derive w r1 s g s1 g1 -> derive w r2 s1 g1 s2 g2 ->
    derive w (Seq r1 r2) s g s2 g2
| derive_Alt_l r1 r2 s g s' g' :
    derive w r1 s g s' g' -> derive w (Alt r1 r2) s g s' g'
| derive_Alt_r r1 r2 s g s' g' :
    derive w r2 s g s' g' -> derive w (Alt r1 r2) s g s' g'
| derive_Group name r s g s' g' :
    derive w r s g s' g' ->
    derive w (Group name r) s g s' (bind_group name (between s s') g')
| derive_Bol s g : length s = length w -> derive w Bol s g s g
| derive_Eol s g : s = [] \/ s = [newline] -> derive w Eol s g s g.

Arguments derive_Eps : clear implicits.
Arguments derive_Lit : clear implicits.
Arguments derive_Cls : clear implicits.
Arguments derive_Star : clear implicits.
Arguments derive_Plus : clear implicits.
Arguments derive_StarLazy : clear implicits.
Arguments derive_PlusLazy : clear implicits.
Arguments derive_Seq : clear implicits.
Arguments derive_Alt_l : clear implicits.
Arguments derive_Alt_r : clear implicits.
Arguments derive_Group : clear implicits.
Arguments derive_Bol : clear implicits.
Arguments derive_Eol : clear implicits.

(** ** Address tokens *)

(** An address token occurs in [s]. *)
Fixpoint has_address (s : str) : bool :=
  token_start s
  || match s with
     | [] => false
     | _ :: s' => has_address s'
     end.

(** ** The stack trace lines of a part *)

(** [g] is a run of stack trace lines of [lines]: it follows a line that
    matches the pattern of index [i], and ends where [lines] end or where the
    next line is no stack trace line. *)
Definition frame_run (regexes : list regex) (lines : list str) (i : nat)
           (g : list str) : Prop :=
  Forall (fun l => is_frame l = true) g
  /\ exists (pre : list str) (b : str) (post : list str) (r : regex),
      lines = pre ++ b :: g ++ post
      /\ nth_error regexes i = Some r
      /\ matches r b = true
      /\ closes_trace post.

(** Takes apart every hypothesis that a compound pattern matches. *)
Ltac invert_derive :=
  repeat match goal with
         | H : derive _ (Seq _ _) _ _ _ _ |- _ => inversion H; clear H; subst
         | H : derive _ (Group _ _) _ _ _ _ |- _ => inversion H; clear H; subst
         | H : derive _ (Alt _ _) _ _ _ _ |- _ => inversion H; clear H; subst
         | H : derive _ (Lit _) _ _ _ _ |- _ => inversion H; clear H; subst
         | H : derive _ (Cls _) _ _ _ _ |- _ => inversion H; clear H; subst
         | H : derive _ (Star _) _ _ _ _ |- _ => inversion H; clear H; subst
         | H : derive _ (Plus _) _ _ _ _ |- _ => inversion H; clear H; subst
         | H : derive _ (StarLazy _) _ _ _ _ |- _ => inversion H; clear H; subst
         | H : derive _ (PlusLazy _) _ _ _ _ |- _ => inversion H; clear H; subst
         | H : derive _ Eps _ _ _ _ |- _ => inversion H; clear H; subst
         | H : derive _ Bol _ _ _ _ |- _ => inversion H; clear H; subst
         | H : derive _ Eol _ _ _ _ |- _ => inversion H; clear H; subst
         end.

(** ** The parts of a section *)

(** A group of lines that begins with a line matching the part-begin
    pattern. *)
Definition begins_part (g : list str) : Prop :=
  exists (l : str) (t : list str),
    g = l :: t /\ matches _FIND_SECTION_PART_BEGIN_REGEX l = true.

(** A group of lines that is not empty, and in which no line after the first
    matches the part-begin pattern. *)
Definition one_part (g : list str) : Prop :=
  exists (l : str) (t : list str), g = l :: t /\ Forall not_part_begin t.

(** ** The states of a parser *)

(** The parsers a fresh parser becomes by calls of its methods; a call of
    [add_line] that raises leaves a parser that can be used further. *)
Inductive reachable : SanitizerLogParser -> Prop :=
| reachable_init : reachable SanitizerLogParser_init
| reachable_set_package self package :
    reachable self -> reachable (set_package self package)
| reachable_csv self :
    reachable self -> reachable (snd (csv self))
| reachable_add_line self line self' :
    reachable self -> add_line self line = Done self' -> reachable self'
| reachable_add_line_raised self line e self' :
    reachable self -> add_line self line = Failed e self' -> reachable self'.

Arguments reachable_set_package : clear implicits.
Arguments reachable_csv : clear implicits.
Arguments reachable_add_line : clear implicits.
Arguments reachable_add_line_raised : clear implicits.

(** The parser a call of [add_line] leaves, returned or raised. *)
Definition parser_after (o : outcome) : SanitizerLogParser :=
  match o with
  | Done self => self
  | Failed _ self => self
  end.

(** What every parser keeps: one row for one key, no row with the count 0,
    one pending section for one pattern, and every pattern that of a
    prefix. *)
Definition well_formed (self : SanitizerLogParser) : Prop :=
  NoDup (dict_keys (_count_by_output_primary_key self))
  /\ Forall (fun row => 1 <= snd row) (report_rows self)
  /\ NoDup (dict_keys (_lines_by_find_line_regex self))
  /\ Forall (fun item => exists prefix : str, fst item = find_line_regex_of prefix)
            (_lines_by_find_line_regex self).

(** ** A section in a log *)

(** No pattern of a pending section of [self] matches [line]. *)
Definition ignores (self : SanitizerLogParser) (line : str) : Prop :=
  Forall (no_match (rstrip line)) (_lines_by_find_line_regex self).

(** The lines of a log between the start line and the end line of the
    section of the prefix [p], and what the section gathers of them:
    [gathers p log body]. A line behind the prefix is gathered without it;
    a line that the pattern of the prefix does not match is passed over. No
    line is a start line; no gathered line is an end line. *)
Inductive gathers (p : str) : list str -> list str -> Prop :=
| gathers_nil : gathers p [] []
| gathers_own line x log body :
    rstrip line = p ++ x ->
    forallb is_dot x = true ->
    matches _FIND_SECTION_START_LINE_REGEX (rstrip line) = false ->
    matches _FIND_SECTION_END_LINE_REGEX (rstrip line) = false ->
    gathers p log body ->
    gathers p (line :: log) (x :: body)
| gathers_other line log body :
    re_match (find_line_regex_of p) (rstrip line) = None ->
    matches _FIND_SECTION_START_LINE_REGEX (rstrip line) = false ->
    gathers p log body ->
    gathers p (line :: log) body.

Arguments gathers_nil : clear implicits.
Arguments gathers_own : clear implicits.
Arguments gathers_other : clear implicits.

(** The parser [self] with the section of the prefix [p] pending behind its
    own, [acc] the lines gathered so far. *)
Definition with_pending (self : SanitizerLogParser) (p : str) (acc : list str)
  : SanitizerLogParser :=
  {| _count_by_output_primary_key := _count_by_output_primary_key self;
     _package := _package self;
     _lines_by_find_line_regex :=
       _lines_by_find_line_regex self ++ [(find_line_regex_of p, acc)] |}.

(** ** The states of the event handler *)

(** [handler_state evs self report]: the handler [self] and the contents
    [report] of "sanitizer_report.csv" after the events [evs] of a build, in
    order, whatever the log directory, the logs of the jobs and the access
    to the report were at each event, and whether or not calls of the
    handler raised. *)
Inductive handler_state
  : list event -> SanitizerReportEventHandler -> option str -> Prop :=
| handler_fresh :
    handler_state [] SanitizerReportEventHandler_init None
| handler_returned evs self report ev fs self' fs' :
    handler_state evs self report ->
    sanitizer_report_csv fs = report ->
    __call__ self ev fs = Handled self' fs' ->
    handler_state (evs ++ [ev]) self' (sanitizer_report_csv fs')
| handler_raised evs self report ev fs e self' fs' :
    handler_state evs self report ->
    sanitizer_report_csv fs = report ->
    __call__ self ev fs = HandlerRaised e self' fs' ->
    handler_state (evs ++ [ev]) self' (sanitizer_report_csv fs').

Arguments handler_returned : clear implicits.
Arguments handler_raised : clear implicits.

(** The handler a call leaves, returned or raised. *)
Definition handler_after (h : handled) : SanitizerReportEventHandler :=
  match h with
  | Handled self _ => self
  | HandlerRaised _ self _ => self
  end.

(** The package of a row is the identifier of a job that ended. *)
Definition package_of_job (evs : list event) (row : OutputKey * nat) : Prop :=
  exists identifier : str,
    In (JobEnded identifier) evs
    /\ fst (fst (fst row)) = Some identifier.

(** ** Sections side by side in a log *)

(** The lines of a log between the start line and the end line of the
    section of the prefix [p], what the section gathers of them, and the
    lines it passes over: [passes self p log body others]. A line behind the
    prefix that is no start line and no end line, and that no section
    pending in [self] takes, is gathered without the prefix; a line that the
    pattern of the prefix does not match is passed over, be it a line of
    another section, its start line or its end line. *)
Inductive passes (self : SanitizerLogParser) (p : str)
  : list str -> list str -> list str -> Prop :=
| passes_nil : passes self p [] [] []
| passes_own line x log body others :
    ignores self line ->
    rstrip line = p ++ x ->
    forallb is_dot x = true ->
    matches _FIND_SECTION_START_LINE_REGEX (rstrip line) = false ->
    matches _FIND_SECTION_END_LINE_REGEX (rstrip line) = false ->
    passes self p log body others ->
    passes self p (line :: log) (x :: body) others
| passes_other line log body others :
    re_match (find_line_regex_of p) (rstrip line) = None ->
    passes self p log body others ->
    passes self p (line :: log) body (line :: others).

Arguments passes_nil : clear implicits.
Arguments passes_own : clear implicits.
Arguments passes_other : clear implicits.

(** [t] is the parser [s] with the section of the prefix [p] pending among
    its sections, [acc] the lines gathered so far; the sections before it
    are of patterns that were pending in [self]. *)
Definition lifted (self : SanitizerLogParser) (p : str) (acc : list str)
           (s t : SanitizerLogParser) : Prop :=
  _count_by_output_primary_key t = _count_by_output_primary_key s
  /\ _package t = _package s
  /\ exists pre post : dict regex (list str),
      _lines_by_find_line_regex s = pre ++ post
      /\ _lines_by_find_line_regex t = pre ++ (find_line_regex_of p, acc) :: post
      /\ incl (dict_keys pre) (dict_keys (_lines_by_find_line_regex self)).

(** Two calls leave parsers of which the second is the first with the
    section of [p] pending, or raise the same exception and leave such
    parsers. *)
Definition lifted_outcome (self : SanitizerLogParser) (p : str) (acc : list str)
           (o1 o2 : outcome) : Prop :=
  match o1, o2 with
  | Done s, Done t => lifted self p acc s t
  | Failed e1 s, Failed e2 t => e1 = e2 /\ lifted self p acc s t
  | _, _ => False
  end.

(** * Sample inputs *)

(** ** A memory leak *)

(** A LeakSanitizer section as the log of a test has it, every line behind
    the prefix of the test runner, with a line of another process between. *)
Definition leak_log : list str :=
  [ $"1: ==5504==ERROR: LeakSanitizer: detected memory leaks";
    $"1: ";
    $"1: Direct leak of 64 byte(s) in 1 object(s) allocated from:";
    $"1:     #0 0x7f2a in operator new(unsigned long) (/usr/lib/libasan.so+0x12)";
    $"1:     #1 0x7e1b in rclcpp::NodeOptions::get_rcl_node_options() const (/ros2/rclcpp/lib/librclcpp.so+0x99)";
    $"1:     #2 0x55aa in main (/ros2/test_communication/test_publisher_subscriber_cpp+0x1)";
    $"1: ";
    $"2: unrelated output";
    $"1: Indirect leak of 8 byte(s) in 1 object(s) allocated from:";
    $"1:     #0 0x7f2a in operator new(unsigned long) (/usr/lib/libasan.so+0x12)";
    $"1:     #1 0x7e1c in rcl_init (/ros2/rcl/lib/librcl.so+0x77)";
    $"1: ";
    $"1: SUMMARY: AddressSanitizer: 72 byte(s) leaked in 2 allocation(s)." ].

Definition leak_key : OutputKey :=
  (Some $"test_communication", $"detected memory leaks",
   $"rclcpp::NodeOptions::get_rcl_node_options() const (/ros2/rclcpp/lib/librclcpp.so+0xX)").

(** The parser after one pass over [leak_log]. *)
Definition leak_parser : SanitizerLogParser :=
  {| _count_by_output_primary_key := [ (leak_key, 1) ];
     _package := Some $"test_communication";
     _lines_by_find_line_regex := [] |}.

(** The parser that has read all of [leak_log] but its last line. *)
Definition leak_pending : SanitizerLogParser :=
  match add_lines SanitizerLogParser_init (removelast leak_log) with
  | Done self => self
  | Failed _ self => self
  end.

(** The lines of [leak_log] that belong to its section, without the prefix. *)
Definition leak_frames : list str :=
  [ $"    #0 0x7f2a in operator new(unsigned long) (/usr/lib/libasan.so+0x12)";
    $"    #1 0x7e1b in rclcpp::NodeOptions::get_rcl_node_options() const (/ros2/rclcpp/lib/librclcpp.so+0x99)";
    $"    #2 0x55aa in main (/ros2/test_communication/test_publisher_subscriber_cpp+0x1)" ].

Definition leak_indirect_rest : list str :=
  [ $"    #0 0x7f2a in operator new(unsigned long) (/usr/lib/libasan.so+0x12)";
    $"    #1 0x7e1c in rcl_init (/ros2/rcl/lib/librcl.so+0x77)";
    $"";
    $"SUMMARY: AddressSanitizer: 72 byte(s) leaked in 2 allocation(s)." ].

(** A memory leak section whose direct leak has no frame under /ros2. *)
Definition foreign_leak_section : list str :=
  [ $"==5504==ERROR: LeakSanitizer: detected memory leaks";
    $"";
    $"Direct leak of 64 byte(s) in 1 object(s) allocated from:";
    $"    #0 0x7f2a in malloc (/usr/lib/libasan.so+0x12)";
    $"    #1 0x7e1b in g_malloc (/usr/lib/libglib-2.0.so+0x99)";
    $"";
    $"Indirect leak of 8 byte(s) in 1 object(s) allocated from:";
    $"    #0 0x7f2a in malloc (/usr/lib/libasan.so+0x12)";
    $"    #1 0x7e1c in rcl_init (/ros2/rcl/lib/librcl.so+0x77)";
    $"";
    $"SUMMARY: AddressSanitizer: 72 byte(s) leaked in 2 allocation(s)." ].

(** ** A data race *)

(** A ThreadSanitizer data race whose second stack trace has no frame under
    /ros2. *)
Definition race_log_body : list str :=
  [ $"WARNING: ThreadSanitizer: data race (pid=7)";
    $"  Write of size 8 at 0x7b04 by thread T1:";
    $"    #0 0x1a in foo() (/ros2/lib/libfoo.so+0x2)";
    $"";
    $"  Previous read of size 8 at 0x7b04 by thread T2:";
    $"    #0 0x3c in memcpy (/usr/lib/libc.so+0x4)";
    $"" ].

Definition race_log_summary : str :=
  $"SUMMARY: ThreadSanitizer: data race (/ros2/lib/libfoo.so+0x2) in foo()".

Definition race_log : list str := race_log_body ++ [race_log_summary].

(** The parser that has read [race_log_body] for the package "demo". *)
Definition race_parser : SanitizerLogParser :=
  {| _count_by_output_primary_key := [];
     _package := Some $"demo";
     _lines_by_find_line_regex := [(find_line_regex_of [], race_log_body)] |}.

(** A data race part both of whose stack traces have a frame under /ros2. *)
Definition race_part_header : list str :=
  [ $"WARNING: ThreadSanitizer: data race (pid=7)" ].

Definition race_write_line : str := $"  Write of size 8 at 0x7b04 by thread T1:".

Definition race_write_trace : list str :=
  [ $"    #0 0x1a in foo() (/ros2/lib/libfoo.so+0x2)";
    $"    #1 0x2b in main (/ros2/bin/demo+0x9)" ].

Definition race_read_line : str := $"  Previous read of size 8 at 0x7b04 by thread T2:".

Definition race_read_trace : list str :=
  [ $"    #0 0x3c in memcpy (/usr/lib/libc.so+0x4)";
    $"    #1 0x4d in bar() (/ros2/lib/libbar.so+0x6)" ].

(** ** Other reports *)

(** The first part of a ThreadSanitizer thread leak warning. *)
Definition thread_leak_part : list str :=
  [ $"WARNING: ThreadSanitizer: thread leak (pid=8256)";
    $"  Thread T1 (tid=8258, finished) created by main thread at:";
    $"    #0 pthread_create <null> (libtsan.so.0+0x2bcee)";
    $"    #1 main /ros2/src/demo/main.cpp:12 (demo+0x1234)";
    $"" ].

Definition thread_leak_log : list str :=
  thread_leak_part
  ++ [ $"SUMMARY: ThreadSanitizer: thread leak /ros2/src/demo/main.cpp:12 in main" ].

(** The header of an AddressSanitizer report of a bad [free]. *)
Definition bad_free_header : str :=
  $"==5054==ERROR: AddressSanitizer: attempting free on address which was not malloc()-ed: 0x602000000010 in thread T0".


(** Two stack traces of one defect, from two runs. *)
Definition trace_run_1 : list str :=
  [ $"    #0 0x7f2a in operator new(unsigned long) (/usr/lib/libasan.so+0x12)";
    $"    #1 0x7e1b in rcl_init (/ros2/rcl/lib/librcl.so+0x77)" ].

Definition trace_run_2 : list str :=
  [ $"    #3 0x55d1e0 in operator new(unsigned long) (/usr/lib/libasan.so+0xabc)";
    $"    #14 0x7fffe1b in rcl_init (/ros2/rcl/lib/librcl.so+0x1f77)" ].

(** The first part of a ThreadSanitizer lock-order-inversion warning. *)
Definition lock_order_part : list str :=
  [ $"WARNING: ThreadSanitizer: lock-order-inversion (potential deadlock) (pid=26542)";
    $"  Cycle in lock order graph: M1 (0x7b0c) => M2 (0x7b10) => M1";
    [];
    $"  Mutex M2 acquired here while holding mutex M1 in thread T5:";
    $"    #0 pthread_mutex_lock <null> (libtsan.so.0+0x3faeb)";
    $"    #1 rmw_take (/ros2/rmw/lib/librmw.so+0x1a)";
    [];
    $"  Mutex M1 acquired here while holding mutex M2 in thread T5:";
    $"    #0 pthread_mutex_lock <null> (libtsan.so.0+0x3faeb)";
    $"    #1 rmw_publish (/ros2/rmw/lib/librmw.so+0x2b)";
    [];
    $"  Thread T5 (tid=26553, running) created by main thread at:";
    $"    #0 pthread_create <null> (libtsan.so.0+0x2bcee)";
    [] ].

(** The second part of an AddressSanitizer SEGV report. *)
Definition segv_part : list str :=
  [ $"==5054==The signal is caused by a READ memory access.";
    $"    #0 0x7f2a in memcpy (/lib/x86_64-linux-gnu/libc.so.6+0x18e5a0)";
    $"    #1 0x7e1b in rcl_take (/ros2/rcl/lib/librcl.so+0x77)";
    [];
    $"    #2 0x55aa in main (/ros2/demo/main+0x1)" ].

(** A memory leak section whose direct leak has a frame under /ros2. *)
Definition small_leak_section : list str :=
  [ $"==5504==ERROR: LeakSanitizer: detected memory leaks";
    [];
    $"Direct leak of 64 byte(s) in 1 object(s) allocated from:";
    $"    #0 0x7f2a in malloc (/usr/lib/libasan.so+0x12)";
    $"    #1 0x7e1c in rcl_init (/ros2/rcl/lib/librcl.so+0x77)";
    [];
    $"SUMMARY: AddressSanitizer: 64 byte(s) leaked in 1 allocation(s)." ].

(** ** A log without sanitizer reports *)

Definition quiet_log : list str :=
  [ $"1: [==========] Running 2 tests from 1 test case.";
    $"1: [ RUN      ] TestNode.construction";
    $"1: SUMMARY: AddressSanitizer: 64 byte(s) leaked in 1 allocation(s).";
    $"1: [  PASSED  ] 2 tests." ].

(** ** A section without error name *)

(** The parser that has read a start line without the space and the name
    after "Sanitizer:". *)
Definition nameless_pending : SanitizerLogParser :=
  {| _count_by_output_primary_key := [];
     _package := Some $"demo";
     _lines_by_find_line_regex :=
       [ (find_line_regex_of [], [ $"WARNING: ThreadSanitizer:" ]) ] |}.

(** ** The section of [leak_log] *)

(** The lines of [leak_log] between its start line and its end line that
    belong to its section, without the prefix. *)
Definition leak_body : list str :=
  $"Direct leak of 64 byte(s) in 1 object(s) allocated from:"
  :: leak_frames
  ++ [ $"Indirect leak of 8 byte(s) in 1 object(s) allocated from:";
       $"    #0 0x7f2a in operator new(unsigned long) (/usr/lib/libasan.so+0x12)";
       $"    #1 0x7e1c in rcl_init (/ros2/rcl/lib/librcl.so+0x77)" ].

(** ** Two sections side by side *)

(** A data race reported by the test of the prefix "1: ", and between its
    lines a memory leak reported by the test of the prefix "2: ". *)
Definition interleaved_log : list str :=
  [ $"1: WARNING: ThreadSanitizer: data race (pid=7)";
    $"1:   Write of size 8 at 0x7b04 by thread T1:";
    $"2: ==5504==ERROR: LeakSanitizer: detected memory leaks";
    $"1:     #0 0x1a in foo() (/ros2/lib/libfoo.so+0x2)";
    $"2: Direct leak of 64 byte(s) in 1 object(s) allocated from:";
    $"2:     #0 0x7e1c in rcl_init (/ros2/rcl/lib/librcl.so+0x77)";
    $"1: ";
    $"1:   Previous read of size 8 at 0x7b04 by thread T2:";
    $"1:     #0 0x4d in bar() (/ros2/lib/libbar.so+0x6)";
    $"2: ";
    $"2: SUMMARY: AddressSanitizer: 64 byte(s) leaked in 1 allocation(s).";
    $"1: ";
    $"1: SUMMARY: ThreadSanitizer: data race (/ros2/lib/libfoo.so+0x2) in foo()" ].

(** The lines of [interleaved_log] the data race gathers, without the
    prefix, and the lines it passes over. *)
Definition interleaved_race_body : list str :=
  [ $"  Write of size 8 at 0x7b04 by thread T1:";
    $"    #0 0x1a in foo() (/ros2/lib/libfoo.so+0x2)";
    $"  Previous read of size 8 at 0x7b04 by thread T2:";
    $"    #0 0x4d in bar() (/ros2/lib/libbar.so+0x6)" ].

Definition interleaved_others : list str :=
  [ $"2: ==5504==ERROR: LeakSanitizer: detected memory leaks";
    $"2: Direct leak of 64 byte(s) in 1 object(s) allocated from:";
    $"2:     #0 0x7e1c in rcl_init (/ros2/rcl/lib/librcl.so+0x77)";
    $"1: ";
    $"2: ";
    $"2: SUMMARY: AddressSanitizer: 64 byte(s) leaked in 1 allocation(s).";
    $"1: " ].

(** The parser after [interleaved_log], for the package "demo". *)
Definition interleaved_parser : SanitizerLogParser :=
  {| _count_by_output_primary_key :=
       [ ((Some $"demo", $"detected memory leaks",
           $"rcl_init (/ros2/rcl/lib/librcl.so+0xX)"), 1);
         ((Some $"demo", $"data race", $"foo() (/ros2/lib/libfoo.so+0xX)"), 1);
         ((Some $"demo", $"data race", $"bar() (/ros2/lib/libbar.so+0xX)"), 1) ];
     _package := Some $"demo";
     _lines_by_find_line_regex := [] |}.

(** * Properties *)

Unset Implicit Arguments.

(** ** Text *)

Lemma strip_prefix_app l s : strip_prefix l (l ++ s) = Some s.
Proof.
  induction l as [| a l IH]; simpl; auto.
  destruct (ascii_dec a a); [exact IH | congruence].
Qed.

Lemma strip_prefix_Some l : forall s s',
  strip_prefix l s = Some s' -> s = l ++ s'.
Proof.
  induction l as [| a l IH]; intros s s'; simpl.
  - intros H; injection H as <-. reflexivity.
  - destruct s as [| b s]; [discriminate |].
    destruct (ascii_dec a b) as [<- |]; [| discriminate].
    intros H. rewrite (IH _ _ H). reflexivity.
Qed.

Lemma takewhile_dropwhile p s : takewhile p s ++ dropwhile p s = s.
Proof.
  induction s as [| c s IH]; simpl; auto.
  destruct (p c); simpl; [rewrite IH |]; reflexivity.
Qed.

Lemma takewhile_all p s : forallb p (takewhile p s) = true.
Proof.
  induction s as [| c s IH]; simpl; auto.
  destruct (p c) eqn:E; simpl; [rewrite E |]; auto.
Qed.

Lemma dropwhile_app_all p a s :
  forallb p a = true -> dropwhile p (a ++ s) = dropwhile p s.
Proof.
  induction a as [| c a IH]; simpl; auto.
  destruct (p c); simpl; [exact IH | discriminate].
Qed.

Lemma takewhile_app_all p a s :
  forallb p a = true -> takewhile p (a ++ s) = a ++ takewhile p s.
Proof.
  induction a as [| c a IH]; simpl; auto.
  destruct (p c); simpl; [| discriminate].
  intros H. rewrite IH; auto.
Qed.

(** The head of what [dropwhile] leaves is outside the class. *)
Lemma dropwhile_head p s c s' :
  dropwhile p s = c :: s' -> p c = false.
Proof.
  induction s as [| a s IH]; simpl; [discriminate |].
  destruct (p a) eqn:E; [exact IH |].
  intros H; injection H as -> _. exact E.
Qed.

Lemma dropwhile_head_is p s : head_is p s = false -> dropwhile p s = s.
Proof. destruct s as [| c s]; simpl; auto. intros ->. reflexivity. Qed.

Lemma between_app (a b : str) : between (a ++ b) b = a.
Proof.
  unfold between. rewrite length_app.
  replace (length a + length b - length b) with (length a) by lia.
  rewrite firstn_app, Nat.sub_diag, firstn_all. simpl. apply app_nil_r.
Qed.

Lemma forallb_impl (p q : ascii -> bool) (s : str) :
  (forall c, p c = true -> q c = true) ->
  forallb p s = true -> forallb q s = true.
Proof.
  intros H. induction s as [| c s IH]; simpl; auto.
  intros Hs. apply andb_prop in Hs. destruct Hs as [Hc Hs].
  rewrite (H c Hc), (IH Hs). reflexivity.
Qed.

(** A stripped line ends with no white space. *)
Lemma rstrip_last line a c : rstrip line = a ++ [c] -> is_space c = false.
Proof.
  unfold rstrip. intros H. apply (f_equal (@rev ascii)) in H.
  rewrite rev_involutive, rev_app_distr in H. simpl in H.
  apply (dropwhile_head is_space (rev line) c (rev a) H).
Qed.

(** ** Character classes *)

Lemma is_digit_is_hex c : is_digit c = true -> is_hex c = true.
Proof. unfold is_hex. intros ->. reflexivity. Qed.

Lemma is_hex_is_dot c : is_hex c = true -> is_dot c = true.
Proof.
  unfold is_hex, is_digit, is_dot. intros H.
  destruct (code c =? 10) eqn:E; auto. apply Nat.eqb_eq in E. rewrite E in H.
  discriminate.
Qed.

Lemma is_digit_is_dot c : is_digit c = true -> is_dot c = true.
Proof. intros H. apply is_hex_is_dot, is_digit_is_hex, H. Qed.

Lemma code_inj c : ascii_of_nat (code c) = c.
Proof. apply ascii_nat_embedding. Qed.

Lemma not_dot_newline c : is_dot c = false -> c = newline.
Proof.
  unfold is_dot. intros H. apply negb_false_iff, Nat.eqb_eq in H.
  unfold newline. rewrite <- H. symmetry. apply code_inj.
Qed.

Lemma hex_no_slash h : forallb is_hex h = true -> ~ In "/"%char h.
Proof.
  intros H Hin. rewrite forallb_forall in H. specialize (H _ Hin). discriminate.
Qed.

Lemma space_no_slash ws : forallb is_space ws = true -> ~ In "/"%char ws.
Proof.
  intros H Hin. rewrite forallb_forall in H. specialize (H _ Hin). discriminate.
Qed.

Lemma digits_no_S d : forallb is_digit d = true -> ~ In "S"%char d.
Proof.
  intros H Hin. rewrite forallb_forall in H. specialize (H _ Hin). discriminate.
Qed.

(** ** Repetition *)

Section Repetition.

Variable R : Type.
Variable p : ascii -> bool.

(** When the rest of the pattern cannot start with a character of the
    class, only the longest run can be followed by it. *)
Lemma star_greedy_skip (k : str -> option R) s :
  (forall c s', p c = true -> k (c :: s') = None) ->
  star_greedy p k s = k (dropwhile p s).
Proof.
  intros Hk. induction s as [| c s IH]; simpl; auto.
  destruct (p c) eqn:E; auto.
  rewrite IH. destruct (k (dropwhile p s)); auto.
Qed.

(** A success is the success of the rest after some run of the class. *)
Lemma star_greedy_inv (k : str -> option R) s r :
  star_greedy p k s = Some r ->
  exists a b, s = a ++ b /\ forallb p a = true /\ k b = Some r.
Proof.
  induction s as [| c s IH]; simpl.
  - intros H. exists [], []. auto.
  - destruct (p c) eqn:E.
    + destruct (star_greedy p k s) as [r' |] eqn:Es.
      * intros H; injection H as ->.
        destruct (IH eq_refl) as (a & b & -> & Ha & Hb).
        exists (c :: a), b. simpl. rewrite E, Ha. auto.
      * intros H. exists [], (c :: s). auto.
    + intros H. exists [], (c :: s). auto.
Qed.

Lemma star_greedy_None (k : str -> option R) s :
  (forall a b, s = a ++ b -> forallb p a = true -> k b = None) ->
  star_greedy p k s = None.
Proof.
  intros H. destruct (star_greedy p k s) as [r |] eqn:E; auto.
  destruct (star_greedy_inv _ _ _ E) as (a & b & Hs & Ha & Hb).
  rewrite (H a b Hs Ha) in Hb. discriminate.
Qed.

(** What succeeds after the run [a] succeeds before it. *)
Lemma star_greedy_app (k : str -> option R) a b r :
  forallb p a = true ->
  star_greedy p k b = Some r ->
  star_greedy p k (a ++ b) = Some r.
Proof.
  intros Ha Hb. induction a as [| c a IH]; simpl; auto.
  simpl in Ha. apply andb_prop in Ha. destruct Ha as [-> Ha].
  rewrite (IH Ha). reflexivity.
Qed.

(** The last position of a run at which the rest succeeds is taken. *)
Lemma star_greedy_last (k : str -> option R) a b r :
  forallb p a = true ->
  k b = Some r ->
  (forall c b', b = c :: b' -> p c = true -> star_greedy p k b' = None) ->
  star_greedy p k (a ++ b) = Some r.
Proof.
  intros Ha Hb Hlater. apply star_greedy_app; auto.
  destruct b as [| c b']; simpl; auto.
  destruct (p c) eqn:E; auto.
  rewrite (Hlater c b' eq_refl E). exact Hb.
Qed.

Lemma star_lazy_now (k : str -> option R) s r :
  k s = Some r -> star_lazy p k s = Some r.
Proof. intros H. destruct s; simpl; rewrite H; reflexivity. Qed.

(** The first position of a run at which the rest succeeds is taken. *)
Lemma star_lazy_first (k : str -> option R) a : forall b r,
  forallb p a = true ->
  (forall a1 a2, a = a1 ++ a2 -> a2 <> [] -> k (a2 ++ b) = None) ->
  k b = Some r ->
  star_lazy p k (a ++ b) = Some r.
Proof.
  induction a as [| c a IH]; intros b r Ha Hearly Hb; simpl.
  - apply star_lazy_now, Hb.
  - simpl in Ha. apply andb_prop in Ha. destruct Ha as [Hc Ha].
    pose proof (Hearly [] (c :: a) eq_refl) as H0. simpl in H0.
    rewrite H0 by discriminate.
    rewrite Hc. apply IH; auto.
    intros a1 a2 -> Hne. apply (Hearly (c :: a1) a2); auto.
Qed.

End Repetition.

(** When a failure of the rest after the longest run is a failure after
    every shorter one, only the longest run counts. *)
Lemma star_greedy_longest (R : Type) (p : ascii -> bool)
      (k : str -> option R) (s : str) :
  (forall a b, s = a ++ b -> forallb p a = true ->
               k (dropwhile p s) = None -> k b = None) ->
  star_greedy p k s = k (dropwhile p s).
Proof.
  intros H. destruct (k (dropwhile p s)) as [r |] eqn:E.
  - rewrite <- (takewhile_dropwhile p s) at 1.
    apply star_greedy_app; [apply takewhile_all |].
    destruct (dropwhile p s) as [| c d] eqn:Ed; simpl; auto.
    rewrite (dropwhile_head p s c d Ed). exact E.
  - apply star_greedy_None. intros a b Hs Ha. apply (H a b Hs Ha eq_refl).
Qed.

Lemma star_greedy_total (p : ascii -> bool) (g : groups) s :
  star_greedy p (fun _ => Some g) s = Some g.
Proof.
  induction s as [| c s IH]; simpl; auto.
  rewrite IH. destruct (p c); reflexivity.
Qed.

Lemma star_greedy_rest (p : ascii -> bool) (s : str) :
  star_greedy p (fun s' => Some s') s = Some (dropwhile p s).
Proof.
  induction s as [| c s IH]; simpl; auto.
  rewrite IH. destruct (p c); reflexivity.
Qed.

(** ** The matcher, one step at a time *)

Section Steps.

Variable R : Type.
Variable w : str.
Variable k : str -> groups -> option R.

Lemma run_Seq r1 r2 s g :
  run w (r1 +> r2) k s g = run w r1 (fun s' g' => run w r2 k s' g') s g.
Proof. reflexivity. Qed.

Lemma run_Bol_start g : run w Bol k w g = k w g.
Proof. simpl. rewrite Nat.eqb_refl. reflexivity. Qed.

Lemma run_Lit l s g :
  run w (Lit l) k s g
  = match strip_prefix l s with Some s' => k s' g | None => None end.
Proof. reflexivity. Qed.

Lemma run_Lit_app l s g : run w (Lit l) k (l ++ s) g = k s g.
Proof. simpl. rewrite strip_prefix_app. reflexivity. Qed.

Lemma run_Lit_head x l c s g :
  x <> c -> run w (Lit (x :: l)) k (c :: s) g = None.
Proof. intros H. simpl. destruct (ascii_dec x c); [contradiction | reflexivity]. Qed.

Lemma run_Star c s g :
  run w (Star c) k s g = star_greedy (cmatch c) (fun s' => k s' g) s.
Proof. reflexivity. Qed.

Lemma run_Plus c s g :
  run w (Plus c) k s g
  = match s with
    | a :: s' =>
        if cmatch c a then star_greedy (cmatch c) (fun s' => k s' g) s' else None
    | [] => None
    end.
Proof. reflexivity. Qed.

Lemma run_Group name r s g :
  run w (Group name r) k s g
  = run w r (fun s' g' => k s' (bind_group name (between s s') g')) s g.
Proof. reflexivity. Qed.

Lemma run_Alt r1 r2 s g :
  run w (r1 <|> r2) k s g
  = match run w r1 k s g with Some x => Some x | None => run w r2 k s g end.
Proof. reflexivity. Qed.

Lemma run_Eol s g :
  run w Eol k s g
  = match s with
    | [] => k s g
    | [c] => if ascii_dec c newline then k s g else None
    | _ => None
    end.
Proof. reflexivity. Qed.

(** [k*] before a pattern that cannot start with a character of [k]. *)
Lemma run_Star_skip c s g :
  (forall a s', cmatch c a = true -> k (a :: s') g = None) ->
  run w (Star c) k s g = k (dropwhile (cmatch c) s) g.
Proof. intros H. rewrite run_Star. apply star_greedy_skip. exact H. Qed.

Lemma run_Plus_skip c s g :
  (forall a s', cmatch c a = true -> k (a :: s') g = None) ->
  run w (Plus c) k s g
  = match s with
    | a :: s' => if cmatch c a then k (dropwhile (cmatch c) s') g else None
    | [] => None
    end.
Proof.
  intros H. rewrite run_Plus. destruct s as [| a s']; auto.
  destruct (cmatch c a); auto. apply star_greedy_skip. exact H.
Qed.

End Steps.

Lemma run_Eps (R : Type) (w : str) (k : str -> groups -> option R) s g :
  run w Eps k s g = k s g.
Proof. reflexivity. Qed.

(** A pattern that starts with a literal outside a class fails at every
    character of the class. *)
Lemma literal_rejects (R : Type) (w : str) (p : ascii -> bool) (x : ascii)
      (l : str) (r : regex) (k : str -> groups -> option R) (g : groups) :
  p x = false ->
  forall a s, p a = true -> run w (Lit (x :: l) +> r) k (a :: s) g = None.
Proof.
  intros Hx a s Ha. rewrite run_Seq. apply run_Lit_head.
  intros ->. congruence.
Qed.

Lemma literal_rejects_last (R : Type) (w : str) (p : ascii -> bool) (x : ascii)
      (l : str) (k : str -> groups -> option R) (g : groups) :
  p x = false ->
  forall a s, p a = true -> run w (Lit (x :: l)) k (a :: s) g = None.
Proof.
  intros Hx a s Ha. apply run_Lit_head. intros ->. congruence.
Qed.

Lemma spaces_to_end (w s : str) (g : groups) :
  star_greedy is_space (fun s' => run w Eol (fun _ g' => Some g') s' g) s
  = if forallb is_space s then Some g else None.
Proof.
  induction s as [| c s IH]; cbn [star_greedy forallb]; auto.
  destruct (is_space c) eqn:Ec; cbn [andb].
  - rewrite IH. destruct (forallb is_space s) eqn:Es; auto.
    destruct s as [| c' s]; [discriminate | reflexivity].
  - rewrite run_Eol. destruct s as [| c' s]; auto.
    destruct (ascii_dec c newline) as [-> |]; auto. discriminate.
Qed.

(** The end of the key pattern, [\s*$], as a test. *)
Lemma run_spaces_to_end (w s : str) (g : groups) :
  run w (Star CSpace +> Eol) (fun _ g' => Some g') s g
  = if forallb is_space s then Some g else None.
Proof. rewrite run_Seq, run_Star. apply (spaces_to_end w s g). Qed.

(** ** The patterns of a section part *)

Lemma frame_first_nonspace b :
  is_frame b = true -> exists t, dropwhile is_space b = "#"%char :: t.
Proof.
  unfold is_frame, matches, re_match, _FIND_STACK_TRACE_LINE_REGEX.
  rewrite run_Seq, run_Bol_start, run_Seq, run_Star_skip by (apply literal_rejects; reflexivity).
  rewrite run_Seq, run_Lit. change (cmatch CSpace) with is_space.
  destruct (strip_prefix $"#" (dropwhile is_space b)) as [t |] eqn:E; [| discriminate].
  apply strip_prefix_Some in E. intros _. exists t. exact E.
Qed.

Lemma data_race_begin_2_first_nonspace b :
  matches data_race_begin_2 b = true ->
  exists t, dropwhile is_space b = "P"%char :: t.
Proof.
  unfold matches, re_match, data_race_begin_2.
  rewrite run_Seq, run_Bol_start, run_Seq, run_Plus_skip by (apply literal_rejects; reflexivity).
  destruct b as [| c s]; [discriminate |].
  change (cmatch CSpace) with is_space. simpl dropwhile.
  destruct (is_space c); [| discriminate].
  rewrite run_Seq, run_Lit.
  destruct (strip_prefix $"Previous " (dropwhile is_space s)) as [t |] eqn:E;
    [| discriminate].
  apply strip_prefix_Some in E. intros _. eexists. exact E.
Qed.

(** A begin line of the second stack trace of a data race is no stack trace
    line. *)
Lemma data_race_begin_2_not_frame b :
  matches data_race_begin_2 b = true -> is_frame b = false.
Proof.
  intros H. destruct (data_race_begin_2_first_nonspace b H) as [t Ht].
  destruct (is_frame b) eqn:E; auto.
  destruct (frame_first_nonspace b E) as [t' Ht']. congruence.
Qed.

Lemma begin_regexes_nonempty name :
  0 < length (_FIND_RELEVANT_STACK_TRACE_BEGIN_REGEXES_BY_ERROR_NAME name).
Proof.
  unfold _FIND_RELEVANT_STACK_TRACE_BEGIN_REGEXES_BY_ERROR_NAME.
  repeat destruct (str_eq_dec _ _); simpl; lia.
Qed.

Lemma begin_regexes_data_race :
  _FIND_RELEVANT_STACK_TRACE_BEGIN_REGEXES_BY_ERROR_NAME $"data race"
  = data_race_regexes.
Proof. reflexivity. Qed.

Lemma begin_regexes_memory_leaks :
  _FIND_RELEVANT_STACK_TRACE_BEGIN_REGEXES_BY_ERROR_NAME $"detected memory leaks"
  = [direct_leak_begin].
Proof. reflexivity. Qed.

(** What the direct leak pattern matches, spelled out. *)
Lemma direct_leak_form l :
  matches direct_leak_begin l = true ->
  exists d1 d2 e,
    l = $"Direct leak of " ++ d1 ++ $" byte(s) in " ++ d2
        ++ $" object(s) allocated from:" ++ e
    /\ forallb is_digit d1 = true /\ forallb is_digit d2 = true
    /\ (e = [] \/ e = [newline]).
Proof.
  unfold matches, re_match, direct_leak_begin.
  rewrite run_Seq, run_Bol_start, run_Seq, run_Lit.
  destruct (strip_prefix $"Direct leak of " l) as [s1 |] eqn:E1; [| discriminate].
  apply strip_prefix_Some in E1. subst l.
  rewrite run_Seq, run_Plus_skip by (apply literal_rejects; reflexivity).
  destruct s1 as [| a1 s1]; [discriminate |].
  change (cmatch CDigit) with is_digit.
  destruct (is_digit a1) eqn:Ea1; [| discriminate].
  rewrite run_Seq, run_Lit.
  destruct (strip_prefix $" byte(s) in " (dropwhile is_digit s1)) as [s2 |] eqn:E2;
    [| discriminate].
  apply strip_prefix_Some in E2.
  rewrite run_Seq, run_Plus_skip by (apply literal_rejects; reflexivity).
  destruct s2 as [| a2 s2]; [discriminate |].
  change (cmatch CDigit) with is_digit.
  destruct (is_digit a2) eqn:Ea2; [| discriminate].
  rewrite run_Seq, run_Lit.
  destruct (strip_prefix $" object(s) allocated from:" (dropwhile is_digit s2))
    as [s3 |] eqn:E3; [| discriminate].
  apply strip_prefix_Some in E3.
  rewrite run_Eol. intros He.
  exists (a1 :: takewhile is_digit s1), (a2 :: takewhile is_digit s2), s3.
  split; [| split; [| split]].
  - rewrite <- (takewhile_dropwhile is_digit s1) at 1. rewrite E2.
    rewrite <- (takewhile_dropwhile is_digit s2) at 1. rewrite E3.
    reflexivity.
  - simpl. rewrite Ea1, takewhile_all. reflexivity.
  - simpl. rewrite Ea2, takewhile_all. reflexivity.
  - destruct s3 as [| c [| c' s3]]; auto; [| discriminate].
    destruct (ascii_dec c newline); [subst; auto | discriminate].
Qed.

(** A direct leak line begins a part. *)
Lemma direct_leak_begins_part l :
  matches direct_leak_begin l = true ->
  matches _FIND_SECTION_PART_BEGIN_REGEX l = true.
Proof.
  intros H. destruct (direct_leak_form l H) as (d1 & d2 & e & -> & Hd1 & Hd2 & He).
  unfold matches, re_match, _FIND_SECTION_PART_BEGIN_REGEX.
  rewrite run_Seq, run_Bol_start.
  change ($"Direct leak of " ++ d1 ++ $" byte(s) in " ++ d2
          ++ $" object(s) allocated from:" ++ e)
    with ("D"%char :: $"irect leak of " ++ d1 ++ $" byte(s) in " ++ d2
          ++ $" object(s) allocated from:" ++ e).
  rewrite run_Seq. cbn [run]. change (cmatch CNonSpace "D") with true. cbv iota.
  rewrite !app_assoc.
  erewrite star_greedy_app; [reflexivity | |].
  - change (cmatch CDot) with is_dot.
    rewrite !forallb_app, (forallb_impl _ _ _ is_digit_is_dot Hd1),
      (forallb_impl _ _ _ is_digit_is_dot Hd2). reflexivity.
  - destruct He as [-> | ->]; reflexivity.
Qed.

Lemma indirect_leak_not_direct tail :
  matches direct_leak_begin ($"Indirect leak" ++ tail) = false.
Proof.
  unfold matches, re_match, direct_leak_begin.
  rewrite run_Seq, run_Bol_start, run_Seq. reflexivity.
Qed.

(** ** The error name pattern *)

(** The last group of the error name pattern, as a test. *)
Lemma run_name_end (w s : str) (g : groups) :
  run w (Group None (Lit $" (" <|> (Lit $" 0x" +> Plus CHex)
                     <|> (Star CSpace +> Eol)))
      (fun _ g' => Some g') s g
  = if terminates s then Some g else None.
Proof.
  rewrite run_Group, !run_Alt, run_Lit. unfold terminates, starts_with.
  cbn [bind_group].
  destruct (strip_prefix $" (" s) as [s1 |] eqn:E1; auto. cbn [orb].
  rewrite run_Seq, run_Lit.
  destruct (strip_prefix $" 0x" s) as [[| c s2] |] eqn:E2.
  - rewrite run_Plus. cbn [orb]. rewrite run_Seq, run_Star.
    apply (spaces_to_end w s g).
  - rewrite run_Plus. change (cmatch CHex) with is_hex.
    destruct (is_hex c); cbn [orb].
    + rewrite star_greedy_total. reflexivity.
    + rewrite run_Seq, run_Star. apply (spaces_to_end w s g).
  - cbn [orb]. rewrite run_Seq, run_Star. apply (spaces_to_end w s g).
Qed.

(** No marker starts inside the marker. *)
Lemma marker_not_inside a x rest :
  $"anitizer: " ++ rest = a ++ marker ++ x -> occurs marker rest.
Proof.
  intros H. unfold marker in H.
  do 10 (destruct a as [| ? a]; [discriminate H | injection H as _ H]).
  exists a, x. exact H.
Qed.

(** The error name the pattern extracts: the shortest text after the last
    marker that the last group accepts what follows. *)
Lemma error_name_of_header (pre name tail : str) :
  forallb is_dot pre = true ->
  forallb is_dot name = true ->
  name <> [] ->
  terminates tail = true ->
  (forall n1 n2, name = n1 ++ n2 -> n1 <> [] -> n2 <> [] ->
                 terminates (n2 ++ tail) = false) ->
  ~ occurs marker (name ++ tail) ->
  re_match _FIND_ERROR_NAME_REGEX (pre ++ marker ++ name ++ tail)
  = Some [("error_name"%string, name)].
Proof.
  intros Hpre Hname Hne Htail Hmin Hlast.
  unfold re_match, _FIND_ERROR_NAME_REGEX.
  set (w := pre ++ marker ++ name ++ tail).
  rewrite run_Seq, run_Bol_start, run_Seq, run_Star.
  change (cmatch CDot) with is_dot. unfold w at 2.
  apply star_greedy_last; auto.
  - (* at the marker *)
    rewrite run_Seq. fold marker. rewrite run_Lit_app, run_Seq, run_Group.
    destruct name as [| c name']; [contradiction |].
    simpl in Hname. apply andb_prop in Hname. destruct Hname as [Hc Hname'].
    cbn [run app]. change (cmatch CDot c) with (is_dot c). rewrite Hc.
    change (cmatch CDot) with is_dot.
    apply star_lazy_first; auto.
    + intros a1 a2 -> Hne2.
      pose proof (run_name_end w (a2 ++ tail)) as Hend. cbn [run] in Hend.
      rewrite Hend.
      rewrite (Hmin (c :: a1) a2); auto. discriminate.
    + pose proof (run_name_end w tail) as Hend. cbn [run] in Hend.
      rewrite Hend, Htail. cbn [bind_group].
      change (c :: name' ++ tail) with ((c :: name') ++ tail).
      rewrite between_app. reflexivity.
  - (* after it *)
    intros c b' Hb _. unfold marker in Hb. injection Hb as _ <-.
    apply star_greedy_None. intros a b Hab _.
    rewrite run_Seq, run_Lit.
    destruct (strip_prefix $"Sanitizer: " b) as [x |] eqn:E; auto.
    apply strip_prefix_Some in E. subst b. exfalso. apply Hlast.
    apply (marker_not_inside a x). exact Hab.
Qed.

(** The header of a section has the marker of the error name pattern. *)
Lemma error_name_marker hdr m :
  re_match _FIND_ERROR_NAME_REGEX hdr = Some m ->
  exists a b, hdr = a ++ $"Sanitizer: " ++ b.
Proof.
  unfold re_match, _FIND_ERROR_NAME_REGEX.
  rewrite run_Seq, run_Bol_start, run_Seq, run_Star. intros H.
  apply star_greedy_inv in H. destruct H as (a & b & -> & _ & H).
  rewrite run_Seq, run_Lit in H.
  destruct (strip_prefix $"Sanitizer: " b) as [b' |] eqn:E; [| discriminate].
  apply strip_prefix_Some in E. exists a, b'. rewrite E. reflexivity.
Qed.

(** A header with an error name is no direct leak line. *)
Lemma header_not_direct_leak hdr m :
  re_match _FIND_ERROR_NAME_REGEX hdr = Some m ->
  matches direct_leak_begin hdr = false.
Proof.
  intros Hm. destruct (matches direct_leak_begin hdr) eqn:E; auto. exfalso.
  destruct (error_name_marker hdr m Hm) as (a & b & Hhdr).
  destruct (direct_leak_form hdr E) as (d1 & d2 & e & Hform & Hd1 & Hd2 & He).
  assert (HS : In "S"%char hdr).
  { rewrite Hhdr. apply in_or_app. right. left. reflexivity. }
  rewrite Hform in HS.
  repeat (apply in_app_or in HS; destruct HS as [HS | HS]).
  - simpl in HS. repeat (destruct HS as [HS | HS]; [discriminate |]). exact HS.
  - exact (digits_no_S _ Hd1 HS).
  - simpl in HS. repeat (destruct HS as [HS | HS]; [discriminate |]). exact HS.
  - exact (digits_no_S _ Hd2 HS).
  - simpl in HS. repeat (destruct HS as [HS | HS]; [discriminate |]). exact HS.
  - destruct He as [-> | ->]; simpl in HS; [tauto |].
    destruct HS as [HS | []]. discriminate.
Qed.

Lemma proper_suffixes_In (name n1 n2 : str) :
  name = n1 ++ n2 -> n1 <> [] -> n2 <> [] -> In n2 (proper_suffixes name).
Proof.
  revert name. induction n1 as [| c n1 IH]; intros name -> Hn1 Hn2; [contradiction |].
  simpl. destruct (n1 ++ n2) as [| c' s'] eqn:E.
  - destruct n1; [simpl in E; contradiction | discriminate].
  - rewrite <- E. destruct n1 as [| c1 n1].
    + left. reflexivity.
    + right. apply IH; auto. discriminate.
Qed.

Lemma after_marker_eq s :
  after_marker s
  = match strip_prefix marker s with
    | Some rest => Some rest
    | None => match s with [] => None | _ :: s' => after_marker s' end
    end.
Proof. destruct s; reflexivity. Qed.

Lemma after_marker_None s : after_marker s = None -> ~ occurs marker s.
Proof.
  intros H (a & b & ->). induction a as [| c a IH]; rewrite after_marker_eq in H.
  - change ([] ++ marker ++ b) with (marker ++ b) in H.
    rewrite strip_prefix_app in H. discriminate.
  - destruct (strip_prefix marker ((c :: a) ++ marker ++ b)); [discriminate |].
    apply IH, H.
Qed.

(** ** The key pattern *)

Lemma dropwhile_dot_line_end v : line_end (dropwhile is_dot v).
Proof.
  destruct (dropwhile is_dot v) as [| c r] eqn:E; [left; reflexivity |].
  right. exists r. f_equal. apply not_dot_newline.
  apply (dropwhile_head is_dot v c r E).
Qed.

Lemma strip_prefix_line_end l : forall b rest s2,
  forallb is_dot l = true ->
  line_end rest ->
  strip_prefix l (b ++ rest) = Some s2 ->
  exists b2, b = l ++ b2 /\ s2 = b2 ++ rest.
Proof.
  induction l as [| x l IH]; intros b rest s2 Hl Hrest H; simpl in H.
  - injection H as <-. exists b. auto.
  - simpl in Hl. apply andb_prop in Hl. destruct Hl as [Hx Hl].
    destruct b as [| c b]; simpl in H.
    + destruct Hrest as [-> | [r ->]]; [discriminate |].
      destruct (ascii_dec x newline) as [-> |]; [discriminate | discriminate].
    + destruct (ascii_dec x c) as [<- |]; [| discriminate].
      destruct (IH b rest s2 Hl Hrest H) as (b2 & -> & ->).
      exists b2. auto.
Qed.

Lemma starts_with_line_end l b rest :
  forallb is_dot l = true ->
  line_end rest ->
  starts_with l (b ++ rest) = starts_with l b.
Proof.
  intros Hl Hrest. unfold starts_with.
  destruct (strip_prefix l (b ++ rest)) as [s2 |] eqn:E.
  - destruct (strip_prefix_line_end l b rest s2 Hl Hrest E) as (b2 & -> & _).
    rewrite strip_prefix_app. reflexivity.
  - destruct (strip_prefix l b) as [b2 |] eqn:E'; auto.
    apply strip_prefix_Some in E'. subst b.
    rewrite <- app_assoc, strip_prefix_app in E. discriminate.
Qed.

(** A split of [b ++ rest] after dots only splits [b]. *)
Lemma split_before_line_end b : forall rest a' b',
  rest <> [] ->
  line_end rest ->
  b ++ rest = a' ++ b' ->
  forallb is_dot a' = true ->
  exists b2, b' = b2 ++ rest.
Proof.
  induction b as [| c b IH]; intros rest a' b' Hne Hrest Heq Ha.
  - simpl in Heq. destruct a' as [| x a'].
    + exists []. simpl in Heq. auto.
    + destruct Hrest as [-> | [r ->]]; [contradiction |].
      injection Heq as <- _. simpl in Ha. discriminate.
  - destruct a' as [| x a'].
    + exists (c :: b). simpl in Heq. auto.
    + injection Heq as <- Heq. simpl in Ha. apply andb_prop in Ha.
      destruct Ha as [_ Ha]. apply (IH rest a' b' Hne Hrest Heq Ha).
Qed.

Lemma forallb_space_suffix b2 rest :
  forallb is_space rest = false -> forallb is_space (b2 ++ rest) = false.
Proof. intros H. rewrite forallb_app, H. apply andb_false_r. Qed.

Section KeyGroup.

Variable w : str.
Variable g : groups.

(** The second [.*] of the key group and the end of the pattern, started in
    the line [v] at [b2 ++ rest], the line feed of [v] or its end at
    [rest]. *)
Lemma run_key_second_dots (a b2 rest : str) :
  forallb is_dot a = true ->
  forallb is_dot b2 = true ->
  line_end rest ->
  star_greedy is_dot
    (fun s3 =>
       run w (Star CSpace +> Eol) (fun _ g' => Some g') s3
           (bind_group (Some "key"%string) (between (a ++ rest) s3) g))
    (b2 ++ rest)
  = if forallb is_space rest
    then Some (("key"%string, a) :: g)
    else None.
Proof.
  intros Ha Hb2 Hrest. destruct (forallb is_space rest) eqn:Es.
  - apply star_greedy_app; auto.
    assert (Hk : run w (Star CSpace +> Eol) (fun _ g' => Some g') rest
                     (bind_group (Some "key"%string) (between (a ++ rest) rest) g)
                 = Some (("key"%string, a) :: g)).
    { rewrite run_spaces_to_end, Es, between_app. reflexivity. }
    destruct Hrest as [-> | [r ->]]; simpl star_greedy; auto.
  - apply star_greedy_None. intros a' b' Hsplit Ha'.
    rewrite run_spaces_to_end.
    assert (Hne : rest <> []) by (intros ->; discriminate).
    destruct (split_before_line_end b2 rest a' b' Hne Hrest Hsplit Ha')
      as [b3 ->].
    rewrite (forallb_space_suffix b3 rest Es). reflexivity.
Qed.

(** The first [.*] of the key group: some position of the line at which
    "/ros2" starts. *)
Lemma run_key_first_dots (k : str -> option groups) (x : groups) (ok : bool)
      (rest : str) :
  line_end rest ->
  forall a : str,
    forallb is_dot a = true ->
    (forall a1 b, a = a1 ++ b ->
                  k (b ++ rest)
                  = if starts_with $"/ros2" (b ++ rest) && ok then Some x else None) ->
    star_greedy is_dot k (a ++ rest)
    = if has_ros2 a && ok then Some x else None.
Proof.
  intros Hrest. induction a as [| c a IH]; intros Ha Hk.
  - pose proof (Hk [] [] eq_refl) as H0.
    rewrite (starts_with_line_end $"/ros2" [] rest eq_refl Hrest) in H0.
    simpl app in *.
    destruct Hrest as [-> | [r ->]]; simpl star_greedy; rewrite H0; reflexivity.
  - simpl in Ha. apply andb_prop in Ha. destruct Ha as [Hc Ha].
    simpl app. simpl star_greedy. rewrite Hc.
    rewrite IH; auto.
    + pose proof (Hk [] (c :: a) eq_refl) as H0.
      rewrite (starts_with_line_end $"/ros2" (c :: a) rest eq_refl Hrest) in H0.
      simpl app in H0. rewrite H0.
      change (has_ros2 (c :: a)) with (starts_with $"/ros2" (c :: a) || has_ros2 a).
      destruct (has_ros2 a), ok, (starts_with $"/ros2" (c :: a)); reflexivity.
    + intros a1 b ->. apply (Hk (c :: a1) b). reflexivity.
Qed.

(** The key group and the end of the pattern at the line [a], which ends at
    [rest]. *)
Lemma run_key_group_split (a rest : str) :
  forallb is_dot a = true ->
  line_end rest ->
  run w (Group (Some "key"%string) (Star CDot +> Lit $"/ros2" +> Star CDot)
         +> Star CSpace +> Eol)
      (fun _ g' => Some g') (a ++ rest) g
  = if has_ros2 a && forallb is_space rest
    then Some (("key"%string, a) :: g)
    else None.
Proof.
  intros Ha Hrest.
  rewrite run_Seq, run_Group, run_Seq, run_Star.
  change (cmatch CDot) with is_dot.
  apply run_key_first_dots; auto.
  intros a1 b Hab. rewrite run_Seq, run_Lit. unfold starts_with.
  destruct (strip_prefix $"/ros2" (b ++ rest)) as [s2 |] eqn:E; auto.
  destruct (strip_prefix_line_end $"/ros2" b rest s2 eq_refl Hrest E)
    as (b2 & -> & ->).
  rewrite run_Star. change (cmatch CDot) with is_dot. cbn [andb].
  apply (run_key_second_dots a b2 rest); auto.
  rewrite Hab, !forallb_app in Ha.
  apply andb_prop in Ha. destruct Ha as [_ Ha].
  apply andb_prop in Ha. destruct Ha as [_ Ha]. exact Ha.
Qed.

(** The key group and the end of the pattern, as a test of the line. *)
Lemma run_key_group (v : str) :
  run w (Group (Some "key"%string) (Star CDot +> Lit $"/ros2" +> Star CDot)
         +> Star CSpace +> Eol)
      (fun _ g' => Some g') v g
  = if key_group_ok v then Some (("key"%string, takewhile is_dot v) :: g) else None.
Proof.
  unfold key_group_ok.
  rewrite <- (takewhile_dropwhile is_dot v) at 1.
  apply run_key_group_split.
  - apply takewhile_all.
  - apply dropwhile_dot_line_end.
Qed.

End KeyGroup.

Lemma has_ros2_cons c s :
  has_ros2 (c :: s) = starts_with $"/ros2" (c :: s) || has_ros2 s.
Proof. reflexivity. Qed.

Lemma starts_with_head x l c s :
  x <> c -> starts_with (x :: l) (c :: s) = false.
Proof.
  intros H. unfold starts_with. cbn [strip_prefix].
  destruct (ascii_dec x c); [contradiction | reflexivity].
Qed.

(** A character other than the slash starts no "/ros2". *)
Lemma has_ros2_skip c s :
  "/"%char <> c -> has_ros2 (c :: s) = has_ros2 s.
Proof.
  intros Hc. rewrite has_ros2_cons.
  change $"/ros2" with ("/"%char :: $"ros2").
  rewrite (starts_with_head _ _ _ _ Hc). reflexivity.
Qed.

Lemma has_ros2_space c s :
  is_space c = true -> has_ros2 (c :: s) = has_ros2 s.
Proof. intros Hc. apply has_ros2_skip. intros <-. discriminate. Qed.

Lemma has_ros2_drop p s : ~ In "/"%char p -> has_ros2 (p ++ s) = has_ros2 s.
Proof.
  induction p as [| c p IH]; simpl app; auto.
  intros Hp. rewrite has_ros2_skip.
  - apply IH. intros H. apply Hp. right. exact H.
  - intros E. apply Hp. left. auto.
Qed.

(** White space in front of a line never makes the key group accept it. *)
Lemma key_group_ok_strip ws v :
  forallb is_space ws = true ->
  key_group_ok (ws ++ v) = true -> key_group_ok v = true.
Proof.
  induction ws as [| c ws IH]; simpl; auto.
  intros Hws. apply andb_prop in Hws. destruct Hws as [Hc Hws].
  unfold key_group_ok. simpl. destruct (is_dot c).
  - rewrite (has_ros2_space c _ Hc). apply (IH Hws).
  - discriminate.
Qed.

(** Text without slash in front of a line never makes the key group accept
    it. *)
Lemma key_group_ok_drop p v :
  ~ In "/"%char p ->
  key_group_ok (p ++ v) = true -> key_group_ok v = true.
Proof.
  induction p as [| c p IH]; simpl; auto.
  intros Hp. unfold key_group_ok. simpl. destruct (is_dot c).
  - rewrite has_ros2_skip by (intros E; apply Hp; left; auto).
    apply IH. tauto.
  - discriminate.
Qed.

(** The pattern after the optional address, as the function [key_tail]. *)
Lemma run_key_tail (w t : str) (g : groups) :
  run w (Star CSpace
         +> Group (Some "key"%string) (Star CDot +> Lit $"/ros2" +> Star CDot)
         +> Star CSpace +> Eol)
      (fun _ g' => Some g') t g
  = match key_tail t with
    | Some a => Some (("key"%string, a) :: g)
    | None => None
    end.
Proof.
  rewrite run_Seq, run_Star. change (cmatch CSpace) with is_space.
  rewrite star_greedy_longest.
  - rewrite run_key_group. unfold key_tail.
    destruct (key_group_ok (dropwhile is_space t)); reflexivity.
  - intros a b Hs Ha. rewrite !run_key_group.
    destruct (key_group_ok (dropwhile is_space t)) eqn:E; [discriminate |].
    intros _. destruct (key_group_ok b) eqn:Eb; auto. exfalso.
    (* [b] is white space followed by what is left of [t] *)
    assert (Hb : exists ws, forallb is_space ws = true
                            /\ b = ws ++ dropwhile is_space t).
    { subst t. clear E Eb. induction a as [| c a IH]; simpl.
      - exists (takewhile is_space b). split; [apply takewhile_all |].
        symmetry. apply takewhile_dropwhile.
      - simpl in Ha. apply andb_prop in Ha. destruct Ha as [-> Ha].
        apply IH, Ha. }
    destruct Hb as (ws & Hws & Hb). rewrite Hb in Eb.
    rewrite (key_group_ok_strip ws _ Hws Eb) in E. discriminate.
Qed.

(** What [addr_prefix] strips: an address and " in". *)
Lemma addr_prefix_Some r r' :
  addr_prefix r = Some r' ->
  exists h, h <> [] /\ forallb is_hex h = true /\ r = $"0x" ++ h ++ $" in" ++ r'.
Proof.
  unfold addr_prefix.
  destruct (strip_prefix $"0x" r) as [[| h0 t] |] eqn:E; try discriminate.
  apply strip_prefix_Some in E.
  destruct (is_hex h0) eqn:Eh; [| discriminate].
  intros H. apply strip_prefix_Some in H.
  exists (h0 :: takewhile is_hex t). split; [discriminate |]. split.
  - simpl. rewrite Eh. apply takewhile_all.
  - rewrite E. rewrite <- (takewhile_dropwhile is_hex t) at 1. rewrite H.
    reflexivity.
Qed.

(** When the pattern fails after the address, it fails from the address on
    as well: the empty alternative of the address group adds nothing. *)
Lemma key_tail_with_address r r' :
  addr_prefix r = Some r' -> key_tail r' = None -> key_tail r = None.
Proof.
  intros Hr Hk. destruct (addr_prefix_Some r r' Hr) as (h & _ & Hh & ->).
  unfold key_tail in *.
  destruct (key_group_ok (dropwhile is_space r')) eqn:E; [discriminate |].
  destruct (key_group_ok (dropwhile is_space ($"0x" ++ h ++ $" in" ++ r'))) eqn:E';
    auto.
  exfalso. change (dropwhile is_space ($"0x" ++ h ++ $" in" ++ r'))
    with ($"0x" ++ h ++ $" in" ++ r') in E'.
  rewrite <- (takewhile_dropwhile is_space r') in E'.
  rewrite !app_assoc in E'. apply key_group_ok_drop in E'; [congruence |].
  intros Hin. repeat (apply in_app_or in Hin; destruct Hin as [Hin | Hin]).
  - simpl in Hin. repeat (destruct Hin as [Hin | Hin]; [discriminate |]). exact Hin.
  - exact (hex_no_slash h Hh Hin).
  - simpl in Hin. repeat (destruct Hin as [Hin | Hin]; [discriminate |]). exact Hin.
  - exact (space_no_slash _ (takewhile_all is_space r') Hin).
Qed.

(** The key pattern, as the function [key_of_line]. *)
Lemma re_match_key_regex line :
  re_match _FIND_KEY_REGEX line
  = match key_of_line line with
    | Some a => Some [("key"%string, a)]
    | None => None
    end.
Proof.
  unfold re_match, _FIND_KEY_REGEX, key_of_line.
  rewrite run_Seq, run_Bol_start, run_Seq, run_Star_skip
    by (apply literal_rejects; reflexivity).
  change (cmatch CSpace) with is_space.
  rewrite run_Seq, run_Lit.
  destruct (strip_prefix $"#" (dropwhile is_space line)) as [s1 |]; [| reflexivity].
  rewrite run_Seq, run_Plus_skip by (apply literal_rejects; reflexivity).
  destruct s1 as [| d s1]; [reflexivity |].
  change (cmatch CDigit) with is_digit.
  destruct (is_digit d); [| reflexivity].
  rewrite run_Seq, run_Lit.
  destruct (strip_prefix $" " (dropwhile is_digit s1)) as [r |]; [| reflexivity].
  rewrite run_Seq, run_Group, run_Alt. cbn [bind_group].
  rewrite run_Seq, run_Lit. unfold addr_prefix at 1.
  destruct (strip_prefix $"0x" r) as [[| h t] |] eqn:E0.
  - rewrite run_Eps. apply (run_key_tail line r []).
  - rewrite run_Seq, run_Plus_skip by (apply literal_rejects_last; reflexivity).
    change (cmatch CHex) with is_hex.
    destruct (is_hex h) eqn:Eh;
      [| rewrite run_Eps; apply (run_key_tail line r [])].
    rewrite run_Lit.
    destruct (strip_prefix $" in" (dropwhile is_hex t)) as [r' |] eqn:E1;
      [| rewrite run_Eps; apply (run_key_tail line r [])].
    rewrite (run_key_tail line r' []).
    destruct (key_tail r') eqn:Ek; [reflexivity |].
    rewrite run_Eps, (run_key_tail line r []).
    rewrite (key_tail_with_address r r'); auto.
    unfold addr_prefix. rewrite E0, Eh. exact E1.
  - rewrite run_Eps. apply (run_key_tail line r []).
Qed.

(** ** The address pattern *)

(** Where a match of the address pattern ends. *)
Lemma match_end_address s :
  match_end _FIND_KEY_SUB_REGEX s
  = match strip_prefix $"0x" s with
    | Some (h :: t) => if is_hex h then Some (dropwhile is_hex t) else None
    | _ => None
    end.
Proof.
  unfold match_end, _FIND_KEY_SUB_REGEX. rewrite run_Seq, run_Lit.
  destruct (strip_prefix $"0x" s) as [[| h t] |]; auto.
  rewrite run_Plus. change (cmatch CHex) with is_hex.
  destruct (is_hex h); auto. apply star_greedy_rest.
Qed.

(** ** The pattern of a pending section *)


(** ** The counter *)

Lemma dict_get_set_same (d : counter) k v :
  dict_get OutputKey_eq_dec (dict_set OutputKey_eq_dec d k v) k = Some v.
Proof.
  induction d as [| [k' v'] d IH]; simpl.
  - destruct (OutputKey_eq_dec k k); congruence.
  - destruct (OutputKey_eq_dec k' k) as [E | E]; simpl.
    + destruct (OutputKey_eq_dec k' k); congruence.
    + destruct (OutputKey_eq_dec k' k); congruence.
Qed.

Lemma dict_get_set_other (d : counter) k k0 v :
  k <> k0 ->
  dict_get OutputKey_eq_dec (dict_set OutputKey_eq_dec d k v) k0
  = dict_get OutputKey_eq_dec d k0.
Proof.
  intros Hne. induction d as [| [k' v'] d IH]; simpl.
  - destruct (OutputKey_eq_dec k k0); congruence.
  - destruct (OutputKey_eq_dec k' k) as [E | E]; simpl.
    + subst k'. destruct (OutputKey_eq_dec k k0); congruence.
    + destruct (OutputKey_eq_dec k' k0); congruence.
Qed.

Lemma dict_get_in_keys (d : counter) k :
  dict_get OutputKey_eq_dec d k <> None <-> In k (dict_keys d).
Proof.
  induction d as [| [k' v'] d IH]; simpl.
  - split; [congruence | tauto].
  - destruct (OutputKey_eq_dec k' k) as [E | E].
    + split; [auto | congruence].
    + rewrite IH. split; [auto | intros [H | H]; congruence].
Qed.

Lemma dict_keys_set_present (d : counter) k v :
  In k (dict_keys d) ->
  dict_keys (dict_set OutputKey_eq_dec d k v) = dict_keys d.
Proof.
  induction d as [| [k' v'] d IH]; simpl; [tauto |].
  intros H. destruct (OutputKey_eq_dec k' k) as [E | E]; simpl.
  - reflexivity.
  - f_equal. apply IH. destruct H; congruence.
Qed.

Lemma dict_keys_set_absent (d : counter) k v :
  ~ In k (dict_keys d) ->
  dict_keys (dict_set OutputKey_eq_dec d k v) = dict_keys d ++ [k].
Proof.
  induction d as [| [k' v'] d IH]; simpl; [reflexivity |].
  intros H. destruct (OutputKey_eq_dec k' k) as [E | E]; simpl.
  - tauto.
  - f_equal. apply IH. tauto.
Qed.

Lemma dict_get_in (d : counter) k v :
  NoDup (dict_keys d) ->
  (In (k, v) d <-> dict_get OutputKey_eq_dec d k = Some v).
Proof.
  induction d as [| [k' v'] d IH]; simpl; intros Hnd.
  - split; [tauto | congruence].
  - inversion Hnd as [| ? ? Hnotin Hnd']; subst.
    destruct (OutputKey_eq_dec k' k) as [E | E].
    + subst k'. split.
      * intros [H | H]; [congruence |].
        exfalso. apply Hnotin. apply (in_map fst) in H. exact H.
      * intros H; left; congruence.
    + rewrite <- (IH Hnd'). split; [intros [H | H]; [congruence | auto] | auto].
Qed.

(** [d[k] += 1] adds one to the count of [k] and leaves every other count. *)
Lemma count_of_incr d k k0 :
  count_of (counter_incr d k) k0
  = count_of d k0 + (if OutputKey_eq_dec k k0 then 1 else 0).
Proof.
  unfold counter_incr, counter_getitem, count_of.
  destruct (dict_get OutputKey_eq_dec d k) as [v |] eqn:E.
  - destruct (OutputKey_eq_dec k k0) as [<- | Hne].
    + rewrite dict_get_set_same, E. reflexivity.
    + rewrite dict_get_set_other by assumption. lia.
  - destruct (OutputKey_eq_dec k k0) as [<- | Hne].
    + rewrite dict_get_set_same, E. reflexivity.
    + rewrite !dict_get_set_other by assumption. lia.
Qed.

(** [d[k] += 1] makes a row only for a key that has none. *)
Lemma dict_keys_incr d k :
  dict_keys (counter_incr d k)
  = if in_dec OutputKey_eq_dec k (dict_keys d) then dict_keys d
    else dict_keys d ++ [k].
Proof.
  unfold counter_incr, counter_getitem.
  destruct (in_dec OutputKey_eq_dec k (dict_keys d)) as [Hin | Hnin].
  - destruct (dict_get OutputKey_eq_dec d k) eqn:E.
    + apply dict_keys_set_present; assumption.
    + exfalso. apply dict_get_in_keys in Hin. congruence.
  - destruct (dict_get OutputKey_eq_dec d k) eqn:E.
    + exfalso. apply Hnin, dict_get_in_keys. congruence.
    + rewrite dict_keys_set_present.
      * apply dict_keys_set_absent; assumption.
      * rewrite dict_keys_set_absent by assumption.
        apply in_or_app; right; left; reflexivity.
Qed.

Lemma count_of_fold ks : forall d k0,
  count_of (fold_left counter_incr ks d) k0
  = count_of d k0 + count_occ OutputKey_eq_dec ks k0.
Proof.
  induction ks as [| k ks IH]; intros d k0; simpl.
  - lia.
  - rewrite IH, count_of_incr.
    destruct (OutputKey_eq_dec k k0); lia.
Qed.

Lemma NoDup_keys_incr d k :
  NoDup (dict_keys d) -> NoDup (dict_keys (counter_incr d k)).
Proof.
  intros H. rewrite dict_keys_incr.
  destruct (in_dec OutputKey_eq_dec k (dict_keys d)) as [Hin | Hnin]; auto.
  apply NoDup_app; auto.
  - constructor; [simpl; tauto | constructor].
  - intros x Hx [<- | []]. contradiction.
Qed.

Lemma NoDup_keys_fold ks : forall d,
  NoDup (dict_keys d) -> NoDup (dict_keys (fold_left counter_incr ks d)).
Proof.
  induction ks as [| k ks IH]; intros d H; simpl; auto.
  apply IH, NoDup_keys_incr, H.
Qed.

Lemma keys_incl_incr d k : incl (dict_keys d) (dict_keys (counter_incr d k)).
Proof.
  rewrite dict_keys_incr. destruct (in_dec _ _ _); [apply incl_refl |].
  apply incl_appl, incl_refl.
Qed.

Lemma keys_in_incr d k : In k (dict_keys (counter_incr d k)).
Proof.
  rewrite dict_keys_incr. destruct (in_dec _ _ _); auto.
  apply in_or_app; right; left; reflexivity.
Qed.

Lemma keys_incl_fold ks : forall d,
  incl (dict_keys d) (dict_keys (fold_left counter_incr ks d)).
Proof.
  induction ks as [| k ks IH]; intros d; simpl; [apply incl_refl |].
  eapply incl_tran; [apply keys_incl_incr | apply IH].
Qed.

Lemma keys_in_fold ks : forall d k,
  In k ks -> In k (dict_keys (fold_left counter_incr ks d)).
Proof.
  induction ks as [| k' ks IH]; intros d k; simpl; [tauto |].
  intros [<- | H].
  - apply keys_incl_fold, keys_in_incr.
  - apply IH, H.
Qed.

(** Counting keys that all have a row already makes no new row. *)
Lemma dict_keys_fold_present ks : forall d,
  incl ks (dict_keys d) ->
  dict_keys (fold_left counter_incr ks d) = dict_keys d.
Proof.
  induction ks as [| k ks IH]; intros d H; simpl; auto.
  assert (Hk : dict_keys (counter_incr d k) = dict_keys d).
  { rewrite dict_keys_incr. destruct (in_dec _ _ _) as [| Hn]; auto.
    exfalso. apply Hn, H. left; reflexivity. }
  rewrite IH; rewrite Hk; auto.
  intros x Hx. apply H. right; exact Hx.
Qed.

(** ** Exceptions in sequence *)

Lemma mapM_app {A B : Type} (f : A -> result B) (l1 l2 : list A) :
  mapM f (l1 ++ l2)
  = (bs1 <- mapM f l1 ;; bs2 <- mapM f l2 ;; Returned (bs1 ++ bs2)).
Proof.
  induction l1 as [| a l1 IH]; simpl.
  - destruct (mapM f l2); reflexivity.
  - destruct (f a); simpl; auto. rewrite IH.
    destruct (mapM f l1); simpl; auto.
    destruct (mapM f l2); simpl; auto.
Qed.

(** [mapM] raises as soon as one element does: the first such one. *)
Lemma mapM_In_Raised {A B : Type} (f : A -> result B) (l : list A) a e :
  In a l -> f a = Raised e -> exists e', mapM f l = Raised e'.
Proof.
  induction l as [| b l IH]; simpl; [tauto |].
  intros [-> | Hin] Hf.
  - rewrite Hf. eexists; reflexivity.
  - destruct (f b); simpl; [| eexists; reflexivity].
    destruct (IH Hin Hf) as [e' ->]. eexists; reflexivity.
Qed.

Lemma mapM_exn {A B : Type} (f : A -> result B) (P : exn -> Prop) l e :
  (forall a e', f a = Raised e' -> P e') -> mapM f l = Raised e -> P e.
Proof.
  intros Hf. induction l as [| a l IH]; simpl; [discriminate |].
  destruct (f a) eqn:E; simpl.
  - destruct (mapM f l); simpl; [discriminate |].
    intros H; injection H as <-. apply IH. reflexivity.
  - intros H; injection H as <-. eapply Hf, E.
Qed.

(** ** The loop over the lines of a section part *)

Section PartLoopFacts.

Variable T : Type.
Variable mk : list str -> result T.
Variable regexes : list regex.

(** Outside a stack trace, lines that do not match the next begin pattern
    are passed over. *)
Lemma part_loop_skip r pre : forall rest traces,
  nth_error regexes (length traces) = Some r ->
  Forall (fun l => matches r l = false) pre ->
  part_loop mk regexes (pre ++ rest) traces None = part_loop mk regexes rest traces None.
Proof.
  induction pre as [| l pre IH]; intros rest traces Hr Hpre; simpl; auto.
  inversion Hpre as [| ? ? Hl Hpre']; subst.
  rewrite Hr, Hl. apply IH; assumption.
Qed.

(** A line that matches the next begin pattern opens an empty group. *)
Lemma part_loop_begin r b rest traces :
  nth_error regexes (length traces) = Some r ->
  matches r b = true ->
  part_loop mk regexes (b :: rest) traces None = part_loop mk regexes rest traces (Some []).
Proof. intros Hr Hb. simpl. rewrite Hr, Hb. reflexivity. Qed.

(** Inside a stack trace, stack trace lines are gathered. *)
Lemma part_loop_gather t : forall rest traces acc,
  Forall (fun l => is_frame l = true) t ->
  part_loop mk regexes (t ++ rest) traces (Some acc) = part_loop mk regexes rest traces (Some (acc ++ t)).
Proof.
  induction t as [| l t IH]; intros rest traces acc Ht; simpl.
  - rewrite app_nil_r. reflexivity.
  - inversion Ht as [| ? ? Hl Ht']; subst. unfold is_frame in Hl.
    rewrite Hl, IH by assumption. rewrite <- app_assoc. reflexivity.
Qed.

(** The first other line closes the group; the loop breaks when that was
    the last group the patterns ask for. *)
Lemma part_loop_close_last c rest traces acc t :
  is_frame c = false ->
  mk acc = Returned t ->
  length (traces ++ [t]) = length regexes ->
  part_loop mk regexes (c :: rest) traces (Some acc) = Returned (traces ++ [t], None).
Proof.
  intros Hc Hmk Hlen. simpl. unfold is_frame in Hc. rewrite Hc, Hmk. simpl.
  rewrite Hlen, Nat.eqb_refl. reflexivity.
Qed.

(** Otherwise the closing line is itself tried as the begin line of the
    next group. *)
Lemma part_loop_close_more c rest traces acc t :
  is_frame c = false ->
  mk acc = Returned t ->
  length (traces ++ [t]) <> length regexes ->
  part_loop mk regexes (c :: rest) traces (Some acc) = part_loop mk regexes (c :: rest) (traces ++ [t]) None.
Proof.
  intros Hc Hmk Hlen. simpl. unfold is_frame in Hc. rewrite Hc, Hmk. simpl.
  apply Nat.eqb_neq in Hlen. rewrite Hlen. reflexivity.
Qed.

End PartLoopFacts.

(** The loop with the constructor that keeps the group never raises, and
    only adds groups. *)
Lemma groups_loop_total regexes lines : forall gs cur,
  length gs < length regexes ->
  exists gs' cur',
    part_loop (fun l => Returned l) regexes lines gs cur = Returned (gs ++ gs', cur')
    /\ (length (gs ++ gs') < length regexes
        \/ (length (gs ++ gs') = length regexes /\ cur' = None)).
Proof.
  induction lines as [| line lines IH]; intros gs cur Hlen; simpl.
  - exists [], cur. rewrite app_nil_r. auto.
  - assert (Hbegin : forall gs0, length gs0 < length regexes ->
      exists gs' cur',
        match nth_error regexes (length gs0) with
        | Some r =>
            if matches r line
            then part_loop (fun l => Returned l) regexes lines gs0 (Some [])
            else part_loop (fun l => Returned l) regexes lines gs0 None
        | None => Raised IndexError
        end = Returned (gs0 ++ gs', cur')
        /\ (length (gs0 ++ gs') < length regexes
            \/ (length (gs0 ++ gs') = length regexes /\ cur' = None))).
    { intros gs0 H0. destruct (nth_error regexes (length gs0)) as [r |] eqn:E.
      - destruct (matches r line); apply IH; assumption.
      - apply nth_error_None in E. lia. }
    destruct cur as [acc |]; [| apply Hbegin; assumption].
    destruct (matches _FIND_STACK_TRACE_LINE_REGEX line); [apply IH; assumption |].
    simpl. destruct (length (gs ++ [acc]) =? length regexes) eqn:E.
    + apply Nat.eqb_eq in E. exists [acc], None. auto.
    + apply Nat.eqb_neq in E.
      assert (H1 : length (gs ++ [acc]) < length regexes).
      { rewrite length_app in *. simpl in *. lia. }
      destruct (Hbegin _ H1) as (gs' & cur' & Heq & Hl).
      exists ([acc] ++ gs'), cur'. rewrite app_assoc. auto.
Qed.

(** The loop with any constructor is the loop that keeps the groups, followed
    by the constructor over the groups it closed. *)
Lemma part_loop_factor T (mk : list str -> result T) regexes lines :
  forall gs traces cur,
    length gs < length regexes ->
    mapM mk gs = Returned traces ->
    part_loop mk regexes lines traces cur
    = (st <- part_loop (fun l => Returned l) regexes lines gs cur ;;
       ts <- mapM mk (fst st) ;; Returned (ts, snd st)).
Proof.
  induction lines as [| line lines IH]; intros gs traces cur Hlen Hgs; simpl.
  - rewrite Hgs. reflexivity.
  - assert (Hl : length traces = length gs).
    { clear - Hgs. revert traces Hgs.
      induction gs as [| g gs IHg]; simpl; intros traces H.
      - injection H as <-. reflexivity.
      - destruct (mk g); simpl in H; [| discriminate].
        destruct (mapM mk gs); simpl in H; [| discriminate].
        injection H as <-. simpl. f_equal. apply IHg. reflexivity. }
    destruct cur as [acc |].
    + destruct (matches _FIND_STACK_TRACE_LINE_REGEX line); [apply IH; assumption |].
      simpl. destruct (mk acc) as [t | e] eqn:Emk; simpl.
      * assert (Hgs' : mapM mk (gs ++ [acc]) = Returned (traces ++ [t])).
        { rewrite mapM_app, Hgs. simpl. rewrite Emk. reflexivity. }
        rewrite !length_app, Hl. simpl.
        destruct (length gs + 1 =? length regexes) eqn:E.
        -- simpl. rewrite Hgs'. reflexivity.
        -- apply Nat.eqb_neq in E.
           replace (length traces + 1) with (length (traces ++ [t]))
             by (rewrite length_app; simpl; lia).
           replace (length gs + 1) with (length (gs ++ [acc]))
             by (rewrite length_app; simpl; lia).
           destruct (nth_error regexes (length (gs ++ [acc]))); [| reflexivity].
           destruct (matches r line); apply IH; auto;
             rewrite length_app; simpl; lia.
      * (* the constructor raises: so does [mapM] over the groups *)
        assert (Hfail : forall gs', mapM mk ((gs ++ [acc]) ++ gs') = Raised e).
        { intros gs'. rewrite mapM_app, mapM_app, Hgs. simpl. rewrite Emk. reflexivity. }
        rewrite length_app. simpl.
        destruct (length gs + 1 =? length regexes) eqn:E.
        -- simpl. specialize (Hfail []). rewrite app_nil_r in Hfail.
           rewrite Hfail. reflexivity.
        -- apply Nat.eqb_neq in E.
           assert (H1 : length (gs ++ [acc]) < length regexes)
             by (rewrite length_app; simpl; lia).
           replace (length gs + 1) with (length (gs ++ [acc]))
             by (rewrite length_app; simpl; lia).
           destruct (nth_error regexes (length (gs ++ [acc]))) as [r |] eqn:En.
           ++ destruct (matches r line).
              ** destruct (@groups_loop_total regexes lines _ (Some []) H1)
                   as (gs' & cur' & -> & _).
                 simpl. rewrite Hfail. reflexivity.
              ** destruct (@groups_loop_total regexes lines _ None H1)
                   as (gs' & cur' & -> & _).
                 simpl. rewrite Hfail. reflexivity.
           ++ apply nth_error_None in En. lia.
    + rewrite Hl. destruct (nth_error regexes (length gs)); [| reflexivity].
      destruct (matches r line); apply IH; assumption.
Qed.

Lemma part_traces_factor T (mk : list str -> result T) regexes lines :
  0 < length regexes ->
  exists gs,
    part_traces (fun l => Returned l) regexes lines = Returned gs
    /\ part_traces mk regexes lines = mapM mk gs.
Proof.
  intros Hlen. unfold part_traces.
  rewrite (@part_loop_factor T mk regexes lines [] [] None Hlen eq_refl).
  destruct (@groups_loop_total regexes lines [] None Hlen) as (gs & cur & -> & _).
  simpl.
  destruct cur as [[| l tl] |]; simpl.
  - exists gs. split; auto. destruct (mapM mk gs); reflexivity.
  - exists (gs ++ [l :: tl]). split; auto. rewrite mapM_app. simpl.
    destruct (mapM mk gs); simpl; auto.
    destruct (mk (l :: tl)); reflexivity.
  - exists gs. split; auto. destruct (mapM mk gs); reflexivity.
Qed.

(** The groups a part closes are always defined, and the part is the stack
    trace constructor over them, in order. *)
Lemma SanitizerSectionPart_init_groups name lines :
  exists gs,
    closed_groups name lines = Returned gs
    /\ SanitizerSectionPart_init name lines
       = (ts <- mapM SanitizerSectionPartStackTrace_init gs ;;
          Returned {| relevant_stack_traces := ts |}).
Proof.
  unfold closed_groups, SanitizerSectionPart_init.
  destruct (@part_traces_factor _ SanitizerSectionPartStackTrace_init
              _ lines (begin_regexes_nonempty name)) as (gs & Hg & ->).
  exists gs. auto.
Qed.

Lemma SanitizerSectionPartStackTrace_init_exn lines e :
  SanitizerSectionPartStackTrace_init lines = Raised e -> e = AssertionError.
Proof.
  unfold SanitizerSectionPartStackTrace_init.
  destruct (find_key lines); [discriminate | congruence].
Qed.

(** A part raises nothing but the assertion of a stack trace without key. *)
Lemma SanitizerSectionPart_init_exn name lines e :
  SanitizerSectionPart_init name lines = Raised e -> e = AssertionError.
Proof.
  destruct (SanitizerSectionPart_init_groups name lines) as (gs & _ & ->).
  destruct (mapM SanitizerSectionPartStackTrace_init gs) eqn:E; simpl; [discriminate |].
  intros H; injection H as <-.
  eapply (mapM_exn _ (fun e => e = AssertionError)); [| exact E].
  intros a e'. apply SanitizerSectionPartStackTrace_init_exn.
Qed.

(** A closed group without key makes the part raise. *)
Lemma part_with_keyless_group_raises name lines gs g :
  closed_groups name lines = Returned gs ->
  In g gs ->
  find_key g = None ->
  SanitizerSectionPart_init name lines = Raised AssertionError.
Proof.
  intros Hgs Hin Hkey.
  destruct (SanitizerSectionPart_init name lines) as [p | e] eqn:E.
  - exfalso. destruct (SanitizerSectionPart_init_groups name lines) as (gs' & Hg' & Hp).
    rewrite Hgs in Hg'. injection Hg' as <-. rewrite E in Hp.
    destruct (@mapM_In_Raised _ _ SanitizerSectionPartStackTrace_init gs g AssertionError Hin)
      as [e' He'].
    + unfold SanitizerSectionPartStackTrace_init. rewrite Hkey. reflexivity.
    + rewrite He' in Hp. discriminate.
  - f_equal. eapply SanitizerSectionPart_init_exn, E.
Qed.

(** ** The loop over the lines of a section *)

Lemma split_parts_first l rest :
  split_parts (l :: rest) [] = split_parts rest [l].
Proof. simpl. rewrite andb_false_r. reflexivity. Qed.

Lemma split_parts_gather body : forall rest part_lines,
  Forall not_part_begin body ->
  split_parts (body ++ rest) part_lines = split_parts rest (part_lines ++ body).
Proof.
  induction body as [| l body IH]; intros rest pl Hb; simpl.
  - rewrite app_nil_r. reflexivity.
  - inversion Hb as [| ? ? Hl Hb']; subst. unfold not_part_begin in Hl.
    rewrite Hl. simpl. rewrite IH by assumption.
    rewrite <- app_assoc. reflexivity.
Qed.

Lemma split_parts_begin l rest part_lines :
  matches _FIND_SECTION_PART_BEGIN_REGEX l = true ->
  part_lines <> [] ->
  split_parts (l :: rest) part_lines = part_lines :: split_parts rest [l].
Proof.
  intros Hl Hne. simpl. rewrite Hl.
  destruct part_lines; [contradiction | reflexivity].
Qed.

(** The parts of a section are its lines, cut in groups. *)
Lemma split_parts_concat lines : forall part_lines,
  concat (split_parts lines part_lines) = part_lines ++ lines.
Proof.
  induction lines as [| l lines IH]; intros pl; simpl.
  - rewrite !app_nil_r. reflexivity.
  - destruct (matches _FIND_SECTION_PART_BEGIN_REGEX l && negb (length pl =? 0)).
    + simpl. rewrite IH. reflexivity.
    + rewrite IH, <- app_assoc. reflexivity.
Qed.

Lemma split_parts_lines lines part_lines part l :
  In part (split_parts lines part_lines) -> In l part -> In l (part_lines ++ lines).
Proof.
  intros Hp Hl. rewrite <- split_parts_concat. apply in_concat.
  exists part. auto.
Qed.

Lemma section_loop_parts name lines : forall part_lines sub_sections,
  section_loop name lines part_lines sub_sections
  = (ps <- mapM (SanitizerSectionPart_init name) (split_parts lines part_lines) ;;
     Returned (sub_sections ++ ps)).
Proof.
  induction lines as [| line lines IH]; intros part_lines subs; simpl.
  - destruct (SanitizerSectionPart_init name part_lines); reflexivity.
  - destruct (matches _FIND_SECTION_PART_BEGIN_REGEX line
              && negb (length part_lines =? 0)); simpl.
    + destruct (SanitizerSectionPart_init name part_lines); simpl; auto.
      rewrite IH.
      destruct (mapM _ (split_parts lines [line])); simpl; auto.
      rewrite <- app_assoc. reflexivity.
    + apply IH.
Qed.

Lemma SanitizerSection_init_parts lines :
  SanitizerSection_init lines
  = (name <- find_error_name lines ;;
     ps <- mapM (SanitizerSectionPart_init name) (split_parts lines []) ;;
     Returned {| error_name := name; parts := ps |}).
Proof.
  unfold SanitizerSection_init.
  destruct (find_error_name lines) as [name | e]; simpl; auto.
  rewrite section_loop_parts.
  destruct (mapM _ (split_parts lines [])); reflexivity.
Qed.

(** A part that raises makes the section raise the assertion. *)
Lemma section_with_raising_part lines name part e :
  find_error_name lines = Returned name ->
  In part (split_parts lines []) ->
  SanitizerSectionPart_init name part = Raised e ->
  SanitizerSection_init lines = Raised AssertionError.
Proof.
  intros Hname Hin Hpart. rewrite SanitizerSection_init_parts, Hname. simpl.
  destruct (mapM_In_Raised _ _ _ _ Hin Hpart) as [e' He']. rewrite He'. simpl.
  f_equal.
  eapply (mapM_exn _ (fun e => e = AssertionError)); [| exact He'].
  intros a e0. apply SanitizerSectionPart_init_exn.
Qed.

(** ** The parser's state *)

Lemma parser_eta (self : SanitizerLogParser) :
  {| _count_by_output_primary_key := _count_by_output_primary_key self;
     _package := _package self;
     _lines_by_find_line_regex := _lines_by_find_line_regex self |} = self.
Proof. destruct self; reflexivity. Qed.

Lemma register_start_frame self line :
  _count_by_output_primary_key (register_start self line)
  = _count_by_output_primary_key self
  /\ _package (register_start self line) = _package self.
Proof.
  unfold register_start. destruct (re_match _ line); simpl; auto.
Qed.

Lemma register_start_with_counts self line d :
  register_start (with_counts self d) line = with_counts (register_start self line) d.
Proof.
  unfold register_start. destruct (re_match _ line); reflexivity.
Qed.

Lemma route_first_match self line seen0 seen r lines m rest :
  Forall (no_match line) seen ->
  re_match r line = Some m ->
  route self line seen0 (seen ++ (r, lines) :: rest)
  = absorb self line (seen0 ++ seen) r lines m rest.
Proof.
  intros Hseen Hm. revert seen0.
  induction Hseen as [| [r0 l0] seen Hx _ IH]; intros seen0; simpl.
  - rewrite Hm, app_nil_r. reflexivity.
  - unfold no_match in Hx; simpl in Hx. rewrite Hx.
    rewrite IH, <- app_assoc. reflexivity.
Qed.

Lemma route_no_match self line seen0 items :
  Forall (no_match line) items ->
  route self line seen0 items = Done self.
Proof.
  intros H. revert seen0.
  induction H as [| [r0 l0] items Hx _ IH]; intros seen0; simpl; auto.
  unfold no_match in Hx; simpl in Hx. rewrite Hx. apply IH.
Qed.

(** Every item list splits at its first match, if it has one. *)
Lemma first_match_split line (items : dict regex (list str)) :
  Forall (no_match line) items
  \/ exists seen r lines m rest,
      items = seen ++ (r, lines) :: rest
      /\ Forall (no_match line) seen /\ re_match r line = Some m.
Proof.
  induction items as [| [r l] items IH].
  - left; constructor.
  - destruct (re_match r line) as [m|] eqn:E.
    + right. exists [], r, l, m, items. repeat split; auto.
    + destruct IH as [IH | (seen & r' & l' & m & rest & -> & Hs & Hm)].
      * left; constructor; auto.
      * right. exists ((r, l) :: seen), r', l', m, rest.
        repeat split; auto.
Qed.

(** ** One call of [add_line] *)

Lemma add_line_unfold self line :
  add_line self line
  = route (register_start self (rstrip line)) (rstrip line) []
          (_lines_by_find_line_regex (register_start self (rstrip line))).
Proof. reflexivity. Qed.

Lemma section_keys_package package section k :
  In k (section_keys package section) -> fst (fst k) = package.
Proof.
  unfold section_keys. rewrite in_flat_map.
  intros (part & _ & Hk). rewrite in_map_iff in Hk.
  destruct Hk as (t & <- & _). reflexivity.
Qed.

(** A call that returns counts a list of keys of the current package, and
    does the same whatever the counter holds. *)
Lemma add_line_Done_counts self line self' :
  add_line self line = Done self' ->
  exists ks,
    (forall k, In k ks -> fst (fst k) = _package self)
    /\ _package self' = _package self
    /\ _count_by_output_primary_key self'
       = fold_left counter_incr ks (_count_by_output_primary_key self)
    /\ forall d,
        add_line (with_counts self d) line
        = Done (with_counts self' (fold_left counter_incr ks d)).
Proof.
  rewrite add_line_unfold. intros H.
  assert (Hw : forall d,
    add_line (with_counts self d) line
    = route (with_counts (register_start self (rstrip line)) d) (rstrip line) []
            (_lines_by_find_line_regex (register_start self (rstrip line)))).
  { intros d. rewrite add_line_unfold, register_start_with_counts. reflexivity. }
  destruct (register_start_frame self (rstrip line)) as [Hc Hp].
  set (self1 := register_start self (rstrip line)) in *.
  destruct (first_match_split (rstrip line) (_lines_by_find_line_regex self1))
    as [Hno | (seen & r & lines & m & rest & Heq & Hseen & Hm)].
  - rewrite route_no_match in H by assumption. injection H as <-.
    exists []. repeat split; simpl; auto; try tauto.
    intros d. rewrite Hw, route_no_match by assumption. reflexivity.
  - rewrite Heq in H. rewrite (@route_first_match _ _ _ _ _ _ _ _ Hseen Hm) in H.
    assert (Hw' : forall d, add_line (with_counts self d) line
                    = absorb (with_counts self1 d) (rstrip line) ([] ++ seen) r lines m rest).
    { intros d. rewrite Hw, Heq. apply route_first_match; assumption. }
    unfold absorb in H, Hw'. simpl in H, Hw'.
    destruct (matches _FIND_SECTION_END_LINE_REGEX (rstrip line)).
    + destruct (SanitizerSection_init (lines ++ [groupdict m "line"])) as [sec | e];
        [| discriminate].
      injection H as <-. exists (section_keys (_package self1) sec).
      simpl. rewrite Hc, Hp. repeat split; auto.
      * intros k Hk. apply section_keys_package in Hk. exact Hk.
      * intros d. rewrite Hw', Hp. reflexivity.
    + injection H as <-. exists []. simpl. rewrite Hc, Hp.
      repeat split; auto; try tauto.
      intros d. rewrite Hw', Hp. reflexivity.
Qed.

(** A call that raises leaves the counter and the package as they were. *)
Lemma add_line_Failed_frame self line e self' :
  add_line self line = Failed e self' ->
  _count_by_output_primary_key self' = _count_by_output_primary_key self
  /\ _package self' = _package self.
Proof.
  rewrite add_line_unfold. intros H.
  destruct (register_start_frame self (rstrip line)) as [Hc Hp].
  set (self1 := register_start self (rstrip line)) in *.
  destruct (first_match_split (rstrip line) (_lines_by_find_line_regex self1))
    as [Hno | (seen & r & lines & m & rest & Heq & Hseen & Hm)].
  - rewrite route_no_match in H by assumption. discriminate.
  - rewrite Heq in H. rewrite (@route_first_match _ _ _ _ _ _ _ _ Hseen Hm) in H.
    unfold absorb in H.
    destruct (matches _FIND_SECTION_END_LINE_REGEX (rstrip line)); [| discriminate].
    destruct (SanitizerSection_init _); [discriminate |].
    injection H as _ <-. simpl. auto.
Qed.

Lemma add_lines_Done_counts lines : forall self self',
  add_lines self lines = Done self' ->
  exists ks,
    (forall k, In k ks -> fst (fst k) = _package self)
    /\ _package self' = _package self
    /\ _count_by_output_primary_key self'
       = fold_left counter_incr ks (_count_by_output_primary_key self)
    /\ forall d,
        add_lines (with_counts self d) lines
        = Done (with_counts self' (fold_left counter_incr ks d)).
Proof.
  induction lines as [| line lines IH]; intros self self' H; simpl in H.
  - injection H as <-. exists []. simpl. repeat split; auto; tauto.
  - destruct (add_line self line) as [self1 | e self1] eqn:E1; [| discriminate].
    destruct (add_line_Done_counts _ _ _ E1) as (ks1 & Hk1 & Hp1 & Hc1 & Hw1).
    destruct (IH _ _ H) as (ks2 & Hk2 & Hp2 & Hc2 & Hw2).
    exists (ks1 ++ ks2). repeat split.
    + intros k Hk. apply in_app_or in Hk. destruct Hk as [Hk | Hk].
      * apply Hk1, Hk.
      * rewrite <- Hp1. apply Hk2, Hk.
    + congruence.
    + rewrite fold_left_app. rewrite Hc2, Hc1. reflexivity.
    + intros d. simpl. rewrite Hw1, fold_left_app.
      specialize (Hw2 (fold_left counter_incr ks1 d)).
      unfold with_counts in *. simpl in *. exact Hw2.
Qed.

(** * The properties of the specification *)

(** ** A section fed twice *)

(** C1. Feeding the lines of a finalized section a second time counts again
    the very keys the first pass counted: with nothing pending before and
    after the first pass, the second pass returns, makes no new row (the rows
    keep their keys, each key once), and adds to the count of every key what
    the first pass added. A key counted once per pass by a fresh parser ends
    with the count 2. *)
Theorem second_pass_increments_same_keys :
  forall (self0 self1 : SanitizerLogParser) (lines : list str),
    _lines_by_find_line_regex self0 = [] ->
    NoDup (dict_keys (report_rows self0)) ->
    add_lines self0 lines = Done self1 ->
    _lines_by_find_line_regex self1 = [] ->
    exists (self2 : SanitizerLogParser) (ks : list OutputKey),
      add_lines self1 lines = Done self2
      /\ _lines_by_find_line_regex self2 = []
      /\ (forall k, In k ks -> fst (fst k) = _package self0)
      /\ dict_keys (report_rows self2) = dict_keys (report_rows self1)
      /\ NoDup (dict_keys (report_rows self2))
      /\ (forall k n, In (k, n) (report_rows self2)
                      <-> count_of (_count_by_output_primary_key self2) k = n
                          /\ In k (dict_keys (report_rows self1)))
      /\ forall k,
          count_of (_count_by_output_primary_key self1) k
          = count_of (_count_by_output_primary_key self0) k
            + count_occ OutputKey_eq_dec ks k
          /\ count_of (_count_by_output_primary_key self2) k
             = count_of (_count_by_output_primary_key self1) k
               + count_occ OutputKey_eq_dec ks k.
Proof.
  intros self0 self1 lines Hp0 Hnd H1 Hp1.
  destruct (add_lines_Done_counts _ _ _ H1) as (ks & Hk & Hpk & Hc & Hw).
  assert (E : self1 = with_counts self0 (_count_by_output_primary_key self1)).
  { destruct self0, self1; unfold with_counts; simpl in *. congruence. }
  specialize (Hw (_count_by_output_primary_key self1)). rewrite <- E in Hw.
  set (d2 := fold_left counter_incr ks (_count_by_output_primary_key self1)) in *.
  assert (Hnd1 : NoDup (dict_keys (_count_by_output_primary_key self1))).
  { rewrite Hc. apply NoDup_keys_fold, Hnd. }
  assert (Hkeys : dict_keys d2 = dict_keys (_count_by_output_primary_key self1)).
  { apply dict_keys_fold_present. intros k Hin. rewrite Hc.
    apply keys_in_fold, Hin. }
  exists (with_counts self1 d2), ks. unfold report_rows, counter_items; simpl.
  split; [exact Hw |]. split; [exact Hp1 |]. split; [exact Hk |].
  split; [exact Hkeys |]. split; [rewrite Hkeys; exact Hnd1 |]. split.
  - intros k n. rewrite dict_get_in by (rewrite Hkeys; exact Hnd1).
    rewrite <- Hkeys, <- dict_get_in_keys. unfold count_of.
    destruct (dict_get OutputKey_eq_dec d2 k) as [v |].
    + split; [intros E'; split; congruence | intros [E' _]; congruence].
    + split; [discriminate | intros [_ E']; congruence].
  - intros k. split.
    + rewrite Hc. apply count_of_fold.
    + apply count_of_fold.
Qed.

Lemma second_pass_increments_same_keys_witness :
  add_lines (set_package SanitizerLogParser_init (Some $"test_communication")) leak_log
  = Done leak_parser
  /\ add_lines leak_parser leak_log = Done (with_counts leak_parser [ (leak_key, 2) ])
  /\ exists (self2 : SanitizerLogParser) (ks : list OutputKey),
      add_lines leak_parser leak_log = Done self2
      /\ _lines_by_find_line_regex self2 = []
      /\ (forall k, In k ks -> fst (fst k) = Some $"test_communication")
      /\ dict_keys (report_rows self2) = dict_keys (report_rows leak_parser)
      /\ NoDup (dict_keys (report_rows self2))
      /\ (forall k n, In (k, n) (report_rows self2)
                      <-> count_of (_count_by_output_primary_key self2) k = n
                          /\ In k (dict_keys (report_rows leak_parser)))
      /\ forall k,
          count_of (_count_by_output_primary_key leak_parser) k
          = count_of [] k + count_occ OutputKey_eq_dec ks k
          /\ count_of (_count_by_output_primary_key self2) k
             = count_of (_count_by_output_primary_key leak_parser) k
               + count_occ OutputKey_eq_dec ks k.
Proof.
  split; [vm_compute; reflexivity |].
  split; [vm_compute; reflexivity |].
  apply (second_pass_increments_same_keys
           (set_package SanitizerLogParser_init (Some $"test_communication"))
           leak_parser leak_log).
  - reflexivity.
  - constructor.
  - vm_compute; reflexivity.
  - reflexivity.
Defined.

(** ** Stack traces that differ in addresses and frame numbers *)

Lemma token_start_head c s : token_start (c :: s) = true -> c = "0"%char.
Proof.
  unfold token_start. cbn [strip_prefix list_ascii_of_string].
  destruct (ascii_dec "0" c) as [<- |]; [reflexivity | discriminate].
Qed.

Lemma no_token_start c s : c <> "0"%char -> token_start (c :: s) = false.
Proof.
  intros H. destruct (token_start (c :: s)) eqn:E; auto.
  apply token_start_head in E. contradiction.
Qed.

(** A text cut short starts with an address token only if the whole does. *)
Lemma token_start_takewhile p c s :
  token_start (c :: s) = false -> token_start (c :: takewhile p s) = false.
Proof.
  unfold token_start. cbn [strip_prefix list_ascii_of_string].
  destruct (ascii_dec "0" c); auto.
  destruct s as [| x s]; auto. cbn [takewhile].
  destruct (p x); auto. cbn [strip_prefix].
  destruct (ascii_dec "x" x); auto.
  destruct s as [| h s]; auto. cbn [takewhile].
  destruct (p h); auto.
Qed.

Lemma token_start_split s :
  token_start s = true ->
  exists h, h <> [] /\ forallb is_hex h = true
            /\ head_is is_hex (dropwhile is_hex (skipn 2 s)) = false
            /\ s = $"0x" ++ h ++ dropwhile is_hex (skipn 2 s).
Proof.
  unfold token_start.
  destruct (strip_prefix $"0x" s) as [[| a t] |] eqn:E; try discriminate.
  apply strip_prefix_Some in E. subst s. intros Ha.
  change (skipn 2 ($"0x" ++ a :: t)) with (a :: t).
  exists (takewhile is_hex (a :: t)). repeat split.
  - simpl. rewrite Ha. discriminate.
  - apply takewhile_all.
  - destruct (dropwhile is_hex (a :: t)) as [| c r] eqn:Ed; auto.
    simpl. apply (dropwhile_head is_hex (a :: t) c r Ed).
  - rewrite takewhile_dropwhile. reflexivity.
Qed.

Lemma match_end_no_token c s :
  token_start (c :: s) = false -> match_end _FIND_KEY_SUB_REGEX (c :: s) = None.
Proof.
  rewrite match_end_address. unfold token_start.
  destruct (strip_prefix $"0x" (c :: s)) as [[| h t] |]; auto.
  intros ->. reflexivity.
Qed.

Lemma match_end_token h s :
  h <> [] -> forallb is_hex h = true -> head_is is_hex s = false ->
  match_end _FIND_KEY_SUB_REGEX ($"0x" ++ h ++ s) = Some s.
Proof.
  intros Hne Hh Hs. rewrite match_end_address, strip_prefix_app.
  destruct h as [| a h]; [contradiction |].
  simpl in Hh. apply andb_prop in Hh. destruct Hh as [Ha Hh].
  cbn [app]. rewrite Ha, dropwhile_app_all, dropwhile_head_is; auto.
Qed.

(** Texts that differ in their address tokens only are masked alike. *)
Lemma mask_variant s1 s2 :
  addr_variant s1 s2 ->
  forall f1 f2, length s1 <= f1 -> length s2 <= f2 ->
    re_sub_from f1 _FIND_KEY_SUB_REGEX $"0xX" s1
    = re_sub_from f2 _FIND_KEY_SUB_REGEX $"0xX" s2.
Proof.
  induction 1 as [| c s1 s2 Ht1 Ht2 Hv IH
                  | h1 h2 s1 s2 Hn1 Hn2 Hh1 Hh2 Hs1 Hs2 Hv IH];
    intros f1 f2 Hf1 Hf2.
  - destruct f1, f2; reflexivity.
  - destruct f1 as [| f1]; [simpl in Hf1; lia |].
    destruct f2 as [| f2]; [simpl in Hf2; lia |].
    cbn [re_sub_from]. rewrite (match_end_no_token c s1 Ht1),
      (match_end_no_token c s2 Ht2).
    f_equal. apply IH; simpl in *; lia.
  - destruct f1 as [| f1]; [rewrite !length_app in Hf1; simpl in Hf1; lia |].
    destruct f2 as [| f2]; [rewrite !length_app in Hf2; simpl in Hf2; lia |].
    assert (E1 : re_sub_from (S f1) _FIND_KEY_SUB_REGEX $"0xX" ($"0x" ++ h1 ++ s1)
                 = $"0xX" ++ re_sub_from f1 _FIND_KEY_SUB_REGEX $"0xX" s1).
    { change ($"0x" ++ h1 ++ s1) with ("0"%char :: "x"%char :: h1 ++ s1).
      cbn [re_sub_from].
      change ("0"%char :: "x"%char :: h1 ++ s1) with ($"0x" ++ h1 ++ s1).
      rewrite (match_end_token h1 s1 Hn1 Hh1 Hs1).
      replace (length s1 <? length ($"0x" ++ h1 ++ s1)) with true; auto.
      symmetry. apply Nat.ltb_lt. rewrite !length_app. simpl. lia. }
    assert (E2 : re_sub_from (S f2) _FIND_KEY_SUB_REGEX $"0xX" ($"0x" ++ h2 ++ s2)
                 = $"0xX" ++ re_sub_from f2 _FIND_KEY_SUB_REGEX $"0xX" s2).
    { change ($"0x" ++ h2 ++ s2) with ("0"%char :: "x"%char :: h2 ++ s2).
      cbn [re_sub_from].
      change ("0"%char :: "x"%char :: h2 ++ s2) with ($"0x" ++ h2 ++ s2).
      rewrite (match_end_token h2 s2 Hn2 Hh2 Hs2).
      replace (length s2 <? length ($"0x" ++ h2 ++ s2)) with true; auto.
      symmetry. apply Nat.ltb_lt. rewrite !length_app. simpl. lia. }
    rewrite E1, E2. f_equal.
    apply IH; rewrite !length_app in *; simpl in *; lia.
Qed.

Lemma variant_dropwhile_space s1 s2 :
  addr_variant s1 s2 ->
  addr_variant (dropwhile is_space s1) (dropwhile is_space s2).
Proof.
  induction 1 as [| c s1 s2 Ht1 Ht2 Hv IH
                  | h1 h2 s1 s2 Hn1 Hn2 Hh1 Hh2 Hs1 Hs2 Hv IH].
  - constructor.
  - cbn [dropwhile]. destruct (is_space c); [exact IH |].
    apply av_char; assumption.
  - change (dropwhile is_space ($"0x" ++ h1 ++ s1)) with ($"0x" ++ h1 ++ s1).
    change (dropwhile is_space ($"0x" ++ h2 ++ s2)) with ($"0x" ++ h2 ++ s2).
    apply av_addr; assumption.
Qed.

Lemma head_is_takewhile p q s :
  head_is p s = false -> head_is p (takewhile q s) = false.
Proof.
  destruct s as [| c s]; simpl; auto. destruct (q c); simpl; auto.
Qed.

Lemma takewhile_dot_token h s :
  forallb is_hex h = true ->
  takewhile is_dot ($"0x" ++ h ++ s) = $"0x" ++ h ++ takewhile is_dot s.
Proof.
  intros Hh. change ($"0x" ++ h ++ s) with ($"0x" ++ (h ++ s)).
  rewrite (takewhile_app_all is_dot $"0x" (h ++ s) eq_refl).
  rewrite takewhile_app_all; auto.
  apply (forallb_impl is_hex is_dot h is_hex_is_dot Hh).
Qed.

Lemma dropwhile_dot_token h s :
  forallb is_hex h = true ->
  dropwhile is_dot ($"0x" ++ h ++ s) = dropwhile is_dot s.
Proof.
  intros Hh. change ($"0x" ++ h ++ s) with ($"0x" ++ (h ++ s)).
  rewrite (dropwhile_app_all is_dot $"0x" (h ++ s) eq_refl).
  rewrite dropwhile_app_all; auto.
  apply (forallb_impl is_hex is_dot h is_hex_is_dot Hh).
Qed.

Lemma variant_takewhile_dot s1 s2 :
  addr_variant s1 s2 ->
  addr_variant (takewhile is_dot s1) (takewhile is_dot s2).
Proof.
  induction 1 as [| c s1 s2 Ht1 Ht2 Hv IH
                  | h1 h2 s1 s2 Hn1 Hn2 Hh1 Hh2 Hs1 Hs2 Hv IH].
  - constructor.
  - cbn [takewhile]. destruct (is_dot c); [| constructor].
    apply av_char; auto using token_start_takewhile.
  - rewrite !takewhile_dot_token by assumption.
    apply av_addr; auto using head_is_takewhile.
Qed.

Lemma variant_dropwhile_dot s1 s2 :
  addr_variant s1 s2 ->
  addr_variant (dropwhile is_dot s1) (dropwhile is_dot s2).
Proof.
  induction 1 as [| c s1 s2 Ht1 Ht2 Hv IH
                  | h1 h2 s1 s2 Hn1 Hn2 Hh1 Hh2 Hs1 Hs2 Hv IH].
  - constructor.
  - cbn [dropwhile]. destruct (is_dot c); [exact IH |].
    apply av_char; assumption.
  - rewrite !dropwhile_dot_token by assumption. exact IH.
Qed.

Lemma variant_all_space s1 s2 :
  addr_variant s1 s2 -> forallb is_space s1 = forallb is_space s2.
Proof.
  induction 1 as [| c s1 s2 Ht1 Ht2 Hv IH
                  | h1 h2 s1 s2 Hn1 Hn2 Hh1 Hh2 Hs1 Hs2 Hv IH]; auto.
  cbn [forallb]. rewrite IH. reflexivity.
Qed.

(** A literal without the digit 0 is found in front of both or of none. *)
Lemma variant_strip_prefix l : forall s1 s2,
  ~ In "0"%char l ->
  addr_variant s1 s2 ->
  option_rel addr_variant (strip_prefix l s1) (strip_prefix l s2).
Proof.
  induction l as [| x l IH]; intros s1 s2 Hl Hv; [exact Hv |].
  assert (Hx : x <> "0"%char) by (intros ->; apply Hl; left; reflexivity).
  assert (Hl' : ~ In "0"%char l) by (intros H; apply Hl; right; exact H).
  destruct Hv as [| c s1 s2 Ht1 Ht2 Hv | h1 h2 s1 s2 Hn1 Hn2 Hh1 Hh2 Hs1 Hs2 Hv].
  - exact I.
  - cbn [strip_prefix]. destruct (ascii_dec x c); [| exact I].
    apply IH; assumption.
  - change ($"0x" ++ h1 ++ s1) with ("0"%char :: "x"%char :: h1 ++ s1).
    change ($"0x" ++ h2 ++ s2) with ("0"%char :: "x"%char :: h2 ++ s2).
    cbn [strip_prefix]. destruct (ascii_dec x "0"); [contradiction | exact I].
Qed.

Lemma variant_starts_with l s1 s2 :
  ~ In "0"%char l ->
  addr_variant s1 s2 ->
  starts_with l s1 = starts_with l s2.
Proof.
  intros Hl Hv. pose proof (variant_strip_prefix l s1 s2 Hl Hv) as H.
  unfold starts_with.
  destruct (strip_prefix l s1), (strip_prefix l s2); simpl in H; tauto.
Qed.

Lemma ros2_no_zero : ~ In "0"%char $"/ros2".
Proof. simpl. intros H. repeat (destruct H as [H | H]; [discriminate |]). exact H. Qed.

Lemma variant_has_ros2 s1 s2 :
  addr_variant s1 s2 -> has_ros2 s1 = has_ros2 s2.
Proof.
  induction 1 as [| c s1 s2 Ht1 Ht2 Hv IH
                  | h1 h2 s1 s2 Hn1 Hn2 Hh1 Hh2 Hs1 Hs2 Hv IH]; auto.
  - rewrite !has_ros2_cons, IH.
    rewrite (variant_starts_with $"/ros2" (c :: s1) (c :: s2) ros2_no_zero).
    + reflexivity.
    + apply av_char; assumption.
  - rewrite !app_assoc, !has_ros2_drop; auto.
    + intros H. apply in_app_or in H. destruct H as [H | H].
      * simpl in H. repeat (destruct H as [H | H]; [discriminate |]). exact H.
      * exact (hex_no_slash h2 Hh2 H).
    + intros H. apply in_app_or in H. destruct H as [H | H].
      * simpl in H. repeat (destruct H as [H | H]; [discriminate |]). exact H.
      * exact (hex_no_slash h1 Hh1 H).
Qed.

Lemma variant_key_tail r1 r2 :
  addr_variant r1 r2 -> option_rel addr_variant (key_tail r1) (key_tail r2).
Proof.
  intros Hv. apply variant_dropwhile_space in Hv. unfold key_tail, key_group_ok.
  rewrite (variant_has_ros2 _ _ (variant_takewhile_dot _ _ Hv)).
  rewrite (variant_all_space _ _ (variant_dropwhile_dot _ _ Hv)).
  destruct (has_ros2 (takewhile is_dot (dropwhile is_space r2))
            && forallb is_space (dropwhile is_dot (dropwhile is_space r2)));
    simpl; auto.
  apply variant_takewhile_dot, Hv.
Qed.

Lemma in_no_zero : ~ In "0"%char $" in".
Proof. simpl. intros H. repeat (destruct H as [H | H]; [discriminate |]). exact H. Qed.

Lemma addr_prefix_no_token r : token_start r = false -> addr_prefix r = None.
Proof.
  unfold token_start, addr_prefix.
  destruct (strip_prefix $"0x" r) as [[| h t] |]; auto. intros ->. reflexivity.
Qed.

Lemma addr_prefix_token h s :
  h <> [] -> forallb is_hex h = true -> head_is is_hex s = false ->
  addr_prefix ($"0x" ++ h ++ s) = strip_prefix $" in" s.
Proof.
  intros Hne Hh Hs. unfold addr_prefix. rewrite strip_prefix_app.
  destruct h as [| a h]; [contradiction |].
  simpl in Hh. apply andb_prop in Hh. destruct Hh as [Ha Hh].
  cbn [app]. rewrite Ha, dropwhile_app_all, dropwhile_head_is; auto.
Qed.

Lemma variant_addr_prefix r1 r2 :
  addr_variant r1 r2 ->
  option_rel addr_variant (addr_prefix r1) (addr_prefix r2).
Proof.
  intros Hv.
  destruct Hv as [| c s1 s2 Ht1 Ht2 Hv | h1 h2 s1 s2 Hn1 Hn2 Hh1 Hh2 Hs1 Hs2 Hv].
  - exact I.
  - rewrite !addr_prefix_no_token by assumption. exact I.
  - rewrite !addr_prefix_token by assumption.
    apply variant_strip_prefix; auto using in_no_zero.
Qed.

(** The key after the frame number, for the texts [r1] and [r2] after it. *)
Lemma variant_after_index r1 r2 :
  addr_variant r1 r2 ->
  option_rel addr_variant
    (match addr_prefix r1 with Some r' => key_tail r' | None => key_tail r1 end)
    (match addr_prefix r2 with Some r' => key_tail r' | None => key_tail r2 end).
Proof.
  intros Hv. pose proof (variant_addr_prefix r1 r2 Hv) as Ha.
  destruct (addr_prefix r1), (addr_prefix r2); simpl in Ha; try contradiction.
  - apply variant_key_tail, Ha.
  - apply variant_key_tail, Hv.
Qed.

Lemma space_no_zero : ~ In "0"%char $" ".
Proof. simpl. intros [H | []]. discriminate. Qed.

Lemma hash_no_zero : ~ In "0"%char $"#".
Proof. simpl. intros [H | []]. discriminate. Qed.

(** After a run of digits both texts have the space, or none has. *)
Lemma variant_after_digits s1 s2 :
  addr_variant s1 s2 ->
  option_rel addr_variant
    (strip_prefix $" " (dropwhile is_digit s1))
    (strip_prefix $" " (dropwhile is_digit s2)).
Proof.
  induction 1 as [| c s1 s2 Ht1 Ht2 Hv IH
                  | h1 h2 s1 s2 Hn1 Hn2 Hh1 Hh2 Hs1 Hs2 Hv IH].
  - exact I.
  - cbn [dropwhile]. destruct (is_digit c); [exact IH |].
    apply variant_strip_prefix; auto using space_no_zero.
    apply av_char; assumption.
  - exact I.
Qed.

Lemma key_of_line_frame ws d r :
  forallb is_space ws = true ->
  d <> [] -> forallb is_digit d = true -> head_is is_digit r = false ->
  key_of_line (ws ++ "#"%char :: d ++ r)
  = match strip_prefix $" " r with
    | Some r0 =>
        match addr_prefix r0 with Some r' => key_tail r' | None => key_tail r0 end
    | None => None
    end.
Proof.
  intros Hws Hne Hd Hr. unfold key_of_line.
  rewrite dropwhile_app_all by assumption.
  change (dropwhile is_space ("#"%char :: d ++ r)) with ($"#" ++ d ++ r).
  rewrite strip_prefix_app.
  destruct d as [| a d]; [contradiction |].
  simpl in Hd. apply andb_prop in Hd. destruct Hd as [Ha Hd].
  cbn [app]. rewrite Ha, dropwhile_app_all, dropwhile_head_is; auto.
Qed.

(** Two lines that differ in addresses and frame number have keys that
    differ in addresses only, or have no key both. *)
Lemma variant_key_of_line l1 l2 :
  line_variant l1 l2 ->
  option_rel addr_variant (key_of_line l1) (key_of_line l2).
Proof.
  intros [ws d1 d2 r1 r2 Hws Hn1 Hn2 Hd1 Hd2 Hr1 Hr2 Hv | s1 s2 Hv].
  - rewrite !key_of_line_frame by assumption.
    pose proof (variant_strip_prefix $" " r1 r2 space_no_zero Hv) as Hs.
    destruct (strip_prefix $" " r1), (strip_prefix $" " r2);
      simpl in Hs; try contradiction; [| exact I].
    apply variant_after_index, Hs.
  - unfold key_of_line.
    pose proof (variant_strip_prefix $"#" _ _ hash_no_zero
                  (variant_dropwhile_space s1 s2 Hv)) as Hs.
    destruct (strip_prefix $"#" (dropwhile is_space s1)) as [t1 |],
             (strip_prefix $"#" (dropwhile is_space s2)) as [t2 |];
      simpl in Hs; try contradiction; [| exact I].
    destruct Hs as [| c t1 t2 Ht1 Ht2 Ht | h1 h2 t1 t2 Hn1 Hn2 Hh1 Hh2 Hs1 Hs2 Ht].
    + exact I.
    + destruct (is_digit c); [| exact I].
      pose proof (variant_after_digits t1 t2 Ht) as Hd.
      destruct (strip_prefix $" " (dropwhile is_digit t1)),
               (strip_prefix $" " (dropwhile is_digit t2));
        simpl in Hd; try contradiction; [| exact I].
      apply variant_after_index, Hd.
    + exact I.
Qed.

(** The second side condition of [av_char] follows from the first. *)
Lemma av_char_left c s1 s2 :
  token_start (c :: s1) = false ->
  addr_variant s1 s2 ->
  addr_variant (c :: s1) (c :: s2).
Proof.
  intros H1 Hv. apply av_char; auto.
  destruct (token_start (c :: s2)) eqn:E; auto. exfalso.
  pose proof (token_start_head c s2 E) as ->.
  unfold token_start in H1, E. cbn [strip_prefix list_ascii_of_string] in H1, E.
  destruct (ascii_dec "0" "0"); [| congruence].
  destruct Hv as [| x s1 s2 Ht1 Ht2 Hv | h1 h2 s1 s2 Hn1 Hn2 Hh1 Hh2 Hs1 Hs2 Hv].
  - discriminate.
  - cbn [strip_prefix] in H1, E. destruct (ascii_dec "x" x); [| discriminate].
    destruct Hv as [| y s1 s2 Hu1 Hu2 Hv | k1 k2 s1 s2 Hm1 Hm2 Hk1 Hk2 Hr1 Hr2 Hv].
    + discriminate.
    + congruence.
    + discriminate.
  - discriminate.
Qed.

Lemma addr_variantb_sound fuel : forall s1 s2,
  addr_variantb fuel s1 s2 = true -> addr_variant s1 s2.
Proof.
  induction fuel as [| fuel IH]; intros s1 s2; [discriminate |].
  cbn [addr_variantb]. destruct s1 as [| c1 t1], s2 as [| c2 t2];
    try discriminate; [constructor |].
  destruct (token_start (c1 :: t1)) eqn:E1, (token_start (c2 :: t2)) eqn:E2;
    try discriminate.
  - intros H. apply IH in H.
    destruct (token_start_split _ E1) as (h1 & Hn1 & Hh1 & Hd1 & Hs1).
    destruct (token_start_split _ E2) as (h2 & Hn2 & Hh2 & Hd2 & Hs2).
    remember (dropwhile is_hex (skipn 2 (c1 :: t1))) as r1.
    remember (dropwhile is_hex (skipn 2 (c2 :: t2))) as r2.
    rewrite Hs1, Hs2. apply av_addr; assumption.
  - destruct (ascii_dec c1 c2) as [<- |]; [| discriminate].
    intros H. apply av_char; auto.
Qed.

(** C2 (as the code has it). Two stack traces whose lines, one by one, are
    the same but for their address tokens ([0x] and the digits and letters
    a-f after it, as the pattern has them, each token read from the left and
    taken whole) and for the frame numbers after the [#] of their frame
    lines have the same key, or have no key both. *)
Theorem key_ignores_addresses_and_frame_numbers :
  forall lines1 lines2 : list str,
    Forall2 line_variant lines1 lines2 ->
    SanitizerSectionPartStackTrace_init lines1
    = SanitizerSectionPartStackTrace_init lines2.
Proof.
  intros lines1 lines2 H. unfold SanitizerSectionPartStackTrace_init.
  replace (find_key lines2) with (find_key lines1); [reflexivity |].
  induction H as [| l1 l2 lines1 lines2 Hl _ IH]; [reflexivity |].
  cbn [find_key]. rewrite !re_match_key_regex.
  pose proof (variant_key_of_line l1 l2 Hl) as Hk.
  destruct (key_of_line l1) as [a1 |], (key_of_line l2) as [a2 |];
    simpl in Hk; try contradiction; [| exact IH].
  f_equal. unfold re_sub. cbn [groupdict].
  destruct (string_dec "key" "key"); [| congruence].
  apply mask_variant; auto.
Qed.

Lemma key_ignores_addresses_and_frame_numbers_witness :
  SanitizerSectionPartStackTrace_init trace_run_1
  = SanitizerSectionPartStackTrace_init trace_run_2
  /\ SanitizerSectionPartStackTrace_init trace_run_1
     = Returned {| key := $"rcl_init (/ros2/rcl/lib/librcl.so+0xX)" |}.
Proof.
  split; [| vm_compute; reflexivity].
  apply (key_ignores_addresses_and_frame_numbers trace_run_1 trace_run_2).
  apply Forall2_cons; [| apply Forall2_cons; [| apply Forall2_nil]].
  - apply (@lv_frame $"    " $"0" $"3"
             $" 0x7f2a in operator new(unsigned long) (/usr/lib/libasan.so+0x12)"
             $" 0x55d1e0 in operator new(unsigned long) (/usr/lib/libasan.so+0xabc)");
      try reflexivity; try discriminate.
    apply (addr_variantb_sound 100). vm_compute; reflexivity.
  - apply (@lv_frame $"    " $"1" $"14"
             $" 0x7e1b in rcl_init (/ros2/rcl/lib/librcl.so+0x77)"
             $" 0x7fffe1b in rcl_init (/ros2/rcl/lib/librcl.so+0x1f77)");
      try reflexivity; try discriminate.
    apply (addr_variantb_sound 100). vm_compute; reflexivity.
Defined.

(** C2, as stated, fails for addresses written with the letters A-F: the
    mask pattern, and the address in front of the key, have the digits and
    a-f only. Two stack traces of one frame line each, the same but for the
    hex digits of their addresses, have different keys; each address is
    masked up to its first upper-case letter. *)
Lemma key_differs_for_upper_case_addresses :
  SanitizerSectionPartStackTrace_init
    [ $"    #1 0x7F in rcl_init (/ros2/rcl/lib/librcl.so+0x1A)" ]
  = Returned {| key := $"0xXF in rcl_init (/ros2/rcl/lib/librcl.so+0xXA)" |}
  /\ SanitizerSectionPartStackTrace_init
       [ $"    #1 0x7E in rcl_init (/ros2/rcl/lib/librcl.so+0x2B)" ]
     = Returned {| key := $"0xXE in rcl_init (/ros2/rcl/lib/librcl.so+0xXB)" |}
  /\ SanitizerSectionPartStackTrace_init
       [ $"    #1 0x7F in rcl_init (/ros2/rcl/lib/librcl.so+0x1A)" ]
     <> SanitizerSectionPartStackTrace_init
          [ $"    #1 0x7E in rcl_init (/ros2/rcl/lib/librcl.so+0x2B)" ].
Proof.
  split; [vm_compute; reflexivity |]. split; [vm_compute; reflexivity |].
  vm_compute. discriminate.
Qed.

(** ** The pending section that takes a line *)



(** ** Stack traces without key *)

(** C4 (as the code has it). A stack trace without a line that matches the
    key pattern fails the whole section, and the call with it: when the line
    that ends a section is routed to it and one of the groups its parts
    close has no key, [add_line] raises the assertion error, counts nothing -
    the keys of the other stack traces and parts of the section neither -
    and leaves the section pending, the end line appended. *)
Theorem keyless_trace_fails_section_and_call :
  forall (self : SanitizerLogParser) (line : str)
         (seen rest : dict regex (list str)) (r : regex) (lines : list str)
         (m : groups) (name : str) (part : list str)
         (gs : list (list str)) (g : list str),
    let stripped := rstrip line in
    let buffer := lines ++ [groupdict m "line"] in
    _lines_by_find_line_regex (register_start self stripped)
    = seen ++ (r, lines) :: rest ->
    Forall (no_match stripped) seen ->
    re_match r stripped = Some m ->
    matches _FIND_SECTION_END_LINE_REGEX stripped = true ->
    find_error_name buffer = Returned name ->
    In part (split_parts buffer []) ->
    closed_groups name part = Returned gs ->
    In g gs ->
    find_key g = None ->
    add_line self line
    = Failed AssertionError
        {| _count_by_output_primary_key := _count_by_output_primary_key self;
           _package := _package self;
           _lines_by_find_line_regex := seen ++ (r, buffer) :: rest |}.
Proof.
  intros self line seen rest r lines m name part gs g stripped buffer
         Heq Hseen Hm Hend Hname Hpart Hgs Hg Hkey.
  rewrite add_line_unfold. fold stripped. rewrite Heq.
  rewrite (@route_first_match _ _ [] _ _ _ _ _ Hseen Hm).
  unfold absorb. rewrite Hend. fold buffer.
  rewrite (section_with_raising_part buffer name part AssertionError Hname Hpart
             (part_with_keyless_group_raises _ _ _ _ Hgs Hg Hkey)).
  destruct (register_start_frame self stripped) as [-> ->]. reflexivity.
Qed.

Lemma keyless_trace_fails_section_and_call_witness :
  add_line race_parser race_log_summary
  = Failed AssertionError
      {| _count_by_output_primary_key := [];
         _package := Some $"demo";
         _lines_by_find_line_regex := [(find_line_regex_of [], race_log)] |}.
Proof.
  apply (@keyless_trace_fails_section_and_call
           race_parser race_log_summary [] [] (find_line_regex_of []) race_log_body
           [("line"%string, race_log_summary)] $"data race" race_log_body
           [ [ $"    #0 0x1a in foo() (/ros2/lib/libfoo.so+0x2)" ];
             [ $"    #0 0x3c in memcpy (/usr/lib/libc.so+0x4)" ] ]
           [ $"    #0 0x3c in memcpy (/usr/lib/libc.so+0x4)" ]).
  - vm_compute; reflexivity.
  - constructor.
  - vm_compute; reflexivity.
  - vm_compute; reflexivity.
  - vm_compute; reflexivity.
  - vm_compute. left; reflexivity.
  - vm_compute; reflexivity.
  - simpl; auto.
  - vm_compute; reflexivity.
Defined.

(** C4, as stated, fails. In the data race of [race_log] the first stack
    trace has a key and the second has none: the call for the summary line
    raises the assertion error and the report has no row, the one of the
    first stack trace neither. *)
Lemma keyless_trace_drops_sibling_and_raises :
  SanitizerSectionPartStackTrace_init
    [ $"    #0 0x1a in foo() (/ros2/lib/libfoo.so+0x2)" ]
  = Returned {| key := $"foo() (/ros2/lib/libfoo.so+0xX)" |}
  /\ SanitizerSectionPartStackTrace_init
       [ $"    #0 0x3c in memcpy (/usr/lib/libc.so+0x4)" ]
     = Raised AssertionError
  /\ exists self',
      add_lines (set_package SanitizerLogParser_init (Some $"demo")) race_log
      = Failed AssertionError self'
      /\ report_rows self' = []
      /\ _lines_by_find_line_regex self' = [(find_line_regex_of [], race_log)].
Proof.
  split; [vm_compute; reflexivity |].
  split; [vm_compute; reflexivity |].
  eexists. split; [vm_compute; reflexivity |].
  split; reflexivity.
Qed.

(** ** Empty groups of stack trace lines *)

(** C5: the code's defect. The first part of a thread leak warning: the
    header opens a group (every line matches the begin pattern of an error
    name outside the table), the next line is no stack trace line and closes
    the group, still empty; the stack trace constructor gets the empty group
    and its assertion fails. The end of the loop, for its part, closes only a
    group that is not empty. *)
Theorem empty_group_is_closed_and_raises :
  closed_groups $"thread leak" thread_leak_part = Returned [[]]
  /\ SanitizerSectionPartStackTrace_init [] = Raised AssertionError
  /\ SanitizerSectionPart_init $"thread leak" thread_leak_part = Raised AssertionError
  /\ find_error_name thread_leak_log = Returned $"thread leak"
  /\ (exists self',
        add_lines (set_package SanitizerLogParser_init (Some $"demo")) thread_leak_log
        = Failed AssertionError self')
  /\ closed_groups $"thread leak"
       [ $"WARNING: ThreadSanitizer: thread leak (pid=8256)" ] = Returned [].
Proof.
  repeat split; try (vm_compute; reflexivity).
  eexists. vm_compute. reflexivity.
Qed.

(** ** The line the key comes from *)

Lemma find_key_first pre line m : forall post,
  Forall (fun l => matches _FIND_KEY_REGEX l = false) pre ->
  re_match _FIND_KEY_REGEX line = Some m ->
  find_key (pre ++ line :: post)
  = Some (re_sub _FIND_KEY_SUB_REGEX $"0xX" (groupdict m "key")).
Proof.
  intros post Hpre Hm. induction Hpre as [| l pre Hl _ IH]; simpl.
  - rewrite Hm. reflexivity.
  - unfold matches in Hl. destruct (re_match _FIND_KEY_REGEX l); [discriminate | exact IH].
Qed.

Lemma first_matching_line (p : str -> bool) (lines : list str) :
  existsb p lines = true ->
  exists pre line post,
    lines = pre ++ line :: post
    /\ Forall (fun l => p l = false) pre /\ p line = true.
Proof.
  induction lines as [| l lines IH]; simpl; [discriminate |].
  destruct (p l) eqn:E; simpl.
  - intros _. exists [], l, lines. auto.
  - intros H. destruct (IH H) as (pre & line & post & -> & Hpre & Hline).
    exists (l :: pre), line, post. auto.
Qed.

(** C6. A stack trace with a line that matches the key pattern has the key
    of the first such line alone: the lines before it do not match, the key
    is the [key] group of the match of that line, with its address tokens
    masked, and whatever lines follow it - other ones, more, fewer, none -
    the key is the one of the trace made of that single line. *)
Theorem key_is_of_first_matching_line :
  forall lines : list str,
    existsb (matches _FIND_KEY_REGEX) lines = true ->
    exists (pre : list str) (line : str) (post : list str) (m : groups)
           (t : SanitizerSectionPartStackTrace),
      lines = pre ++ line :: post
      /\ Forall (fun l => matches _FIND_KEY_REGEX l = false) pre
      /\ matches _FIND_KEY_REGEX line = true
      /\ re_match _FIND_KEY_REGEX line = Some m
      /\ key t = re_sub _FIND_KEY_SUB_REGEX $"0xX" (groupdict m "key")
      /\ SanitizerSectionPartStackTrace_init [line] = Returned t
      /\ forall post' : list str,
          SanitizerSectionPartStackTrace_init (pre ++ line :: post') = Returned t.
Proof.
  intros lines H.
  destruct (first_matching_line _ _ H) as (pre & line & post & -> & Hpre & Hline).
  unfold matches in Hline.
  destruct (re_match _FIND_KEY_REGEX line) as [m |] eqn:Hm; [| discriminate].
  exists pre, line, post, m,
    {| key := re_sub _FIND_KEY_SUB_REGEX $"0xX" (groupdict m "key") |}.
  split; [reflexivity |]. split; [exact Hpre |].
  split; [unfold matches; rewrite Hm; reflexivity |].
  split; [exact Hm |]. split; [reflexivity |]. split.
  - unfold SanitizerSectionPartStackTrace_init.
    change [line] with ([] ++ line :: []).
    rewrite (@find_key_first [] line m []); auto.
  - intros post'. unfold SanitizerSectionPartStackTrace_init.
    rewrite (@find_key_first pre line m post'); auto.
Qed.

Lemma key_is_of_first_matching_line_witness :
  let lines :=
    [ $"    #0 0x7f2a in operator new(unsigned long) (/usr/lib/libasan.so+0x12)";
      $"    #1 0x7e1b in rcl_init (/ros2/rcl/lib/librcl.so+0x77)";
      $"    #2 0x55aa in main (/ros2/demo/main+0x1)" ] in
  existsb (matches _FIND_KEY_REGEX) lines = true
  /\ exists (pre : list str) (line : str) (post : list str) (m : groups)
            (t : SanitizerSectionPartStackTrace),
      lines = pre ++ line :: post
      /\ pre = [ $"    #0 0x7f2a in operator new(unsigned long) (/usr/lib/libasan.so+0x12)" ]
      /\ line = $"    #1 0x7e1b in rcl_init (/ros2/rcl/lib/librcl.so+0x77)"
      /\ groupdict m "key" = $"rcl_init (/ros2/rcl/lib/librcl.so+0x77)"
      /\ key t = $"rcl_init (/ros2/rcl/lib/librcl.so+0xX)"
      /\ SanitizerSectionPartStackTrace_init [line] = Returned t
      /\ forall post' : list str,
          SanitizerSectionPartStackTrace_init (pre ++ line :: post') = Returned t.
Proof.
  intros lines.
  assert (Hex : existsb (matches _FIND_KEY_REGEX) lines = true)
    by (vm_compute; reflexivity).
  split; [exact Hex |].
  destruct (key_is_of_first_matching_line lines Hex)
    as (pre & line & post & m & t & Hl & Hpre & Hline & Hm & Hk & H1 & Hall).
  assert (Hshape : pre = [ $"    #0 0x7f2a in operator new(unsigned long) (/usr/lib/libasan.so+0x12)" ]
                   /\ line = $"    #1 0x7e1b in rcl_init (/ros2/rcl/lib/librcl.so+0x77)").
  { unfold lines in Hl.
    destruct pre as [| l0 pre].
    - exfalso. injection Hl as Hl _. subst line. vm_compute in Hline. discriminate.
    - injection Hl as <- Hl. destruct pre as [| l1 pre].
      + injection Hl as <- _. split; reflexivity.
      + exfalso. injection Hl as <- _.
        inversion Hpre as [| ? ? _ Hpre']; subst.
        inversion Hpre' as [| ? ? Hl1 _]; subst.
        vm_compute in Hl1. discriminate. }
  destruct Hshape as [-> ->].
  assert (Hg : groupdict m "key" = $"rcl_init (/ros2/rcl/lib/librcl.so+0x77)").
  { vm_compute in Hm. injection Hm as <-. vm_compute. reflexivity. }
  exists [ $"    #0 0x7f2a in operator new(unsigned long) (/usr/lib/libasan.so+0x12)" ],
         $"    #1 0x7e1b in rcl_init (/ros2/rcl/lib/librcl.so+0x77)", post, m, t.
  split; [exact Hl |]. split; [reflexivity |]. split; [reflexivity |].
  split; [exact Hg |]. split; [| split; [exact H1 | exact Hall]].
  rewrite Hk, Hg. vm_compute. reflexivity.
Defined.

(** ** The stack traces of a data race *)

Section DataRacePart.

Variable T : Type.
Variable mk : list str -> result T.

Variables (pre t1 mid t2 post : list str) (b1 b2 : str) (x1 x2 : T).

Hypothesis Hpre : Forall (fun l => matches data_race_begin_1 l = false) pre.
Hypothesis Hb1 : matches data_race_begin_1 b1 = true.
Hypothesis Ht1 : Forall (fun l => is_frame l = true) t1.
Hypothesis Hmid_close : closes_trace mid.
Hypothesis Hmid : Forall (fun l => matches data_race_begin_2 l = false) mid.
Hypothesis Hb2 : matches data_race_begin_2 b2 = true.
Hypothesis Ht2 : Forall (fun l => is_frame l = true) t2.
Hypothesis Ht2_ne : t2 <> [].
Hypothesis Hpost : closes_trace post.
Hypothesis Hx1 : mk t1 = Returned x1.
Hypothesis Hx2 : mk t2 = Returned x2.

Lemma data_race_second_trace :
  part_loop mk data_race_regexes (b2 :: t2 ++ post) [x1] None
  = Returned ([x1], Some t2) \/
  part_loop mk data_race_regexes (b2 :: t2 ++ post) [x1] None
  = Returned ([x1; x2], None).
Proof.
  rewrite (part_loop_begin T mk data_race_regexes data_race_begin_2) by auto.
  rewrite part_loop_gather by exact Ht2. simpl app.
  destruct post as [| c post'].
  - left. reflexivity.
  - right. apply (part_loop_close_last T mk data_race_regexes c post' [x1] t2 x2); auto.
Qed.

Lemma data_race_first_trace :
  part_loop mk data_race_regexes (pre ++ b1 :: t1 ++ mid ++ b2 :: t2 ++ post) [] None
  = part_loop mk data_race_regexes (b2 :: t2 ++ post) [x1] None.
Proof.
  rewrite (part_loop_skip T mk data_race_regexes data_race_begin_1) by auto.
  rewrite (part_loop_begin T mk data_race_regexes data_race_begin_1) by auto.
  rewrite part_loop_gather by exact Ht1. simpl app.
  destruct mid as [| c mid'].
  - simpl app.
    rewrite (part_loop_close_more T mk data_race_regexes b2 (t2 ++ post) [] t1 x1);
      auto using data_race_begin_2_not_frame.
  - rewrite <- app_comm_cons.
    rewrite (part_loop_close_more T mk data_race_regexes c _ [] t1 x1); auto.
    rewrite app_comm_cons.
    rewrite (part_loop_skip T mk data_race_regexes data_race_begin_2) by auto.
    reflexivity.
Qed.

Lemma data_race_part_traces :
  part_traces mk data_race_regexes (pre ++ b1 :: t1 ++ mid ++ b2 :: t2 ++ post)
  = Returned [x1; x2].
Proof.
  unfold part_traces. rewrite data_race_first_trace.
  destruct data_race_second_trace as [-> | ->]; simpl; auto.
  destruct t2 as [| l tl]; [contradiction |].
  rewrite Hx2. reflexivity.
Qed.

End DataRacePart.

(** C7 (as the code has it). In a part of a data race section, let [b1] be
    the first line that matches the Read/Write pattern, followed by the
    stack trace lines [t1]; let [b2] be the first line, from the one that
    closes [t1] on, that matches the Previous read/write pattern, followed by
    the stack trace lines [t2], none missing. When [t1] and [t2] each have a
    line that matches the key pattern, the part closes the two groups [t1]
    and [t2] and has exactly two stack traces, of their keys, in that
    order. *)
Theorem data_race_part_has_two_traces :
  forall (pre t1 mid t2 post : list str) (b1 b2 k1 k2 : str),
    Forall (fun l => matches data_race_begin_1 l = false) pre ->
    matches data_race_begin_1 b1 = true ->
    Forall (fun l => is_frame l = true) t1 ->
    t1 <> [] ->
    closes_trace mid ->
    Forall (fun l => matches data_race_begin_2 l = false) mid ->
    matches data_race_begin_2 b2 = true ->
    Forall (fun l => is_frame l = true) t2 ->
    t2 <> [] ->
    closes_trace post ->
    find_key t1 = Some k1 ->
    find_key t2 = Some k2 ->
    let lines := pre ++ b1 :: t1 ++ mid ++ b2 :: t2 ++ post in
    closed_groups $"data race" lines = Returned [t1; t2]
    /\ SanitizerSectionPart_init $"data race" lines
       = Returned {| relevant_stack_traces := [ {| key := k1 |}; {| key := k2 |} ] |}.
Proof.
  intros pre t1 mid t2 post b1 b2 k1 k2
         Hpre Hb1 Ht1 Hne1 Hmidc Hmid Hb2 Ht2 Hne2 Hpost Hk1 Hk2 lines.
  unfold closed_groups, SanitizerSectionPart_init.
  rewrite begin_regexes_data_race. unfold lines. split.
  - apply data_race_part_traces; auto.
  - rewrite (data_race_part_traces _ SanitizerSectionPartStackTrace_init
               pre t1 mid t2 post b1 b2 {| key := k1 |} {| key := k2 |}); auto.
    + unfold SanitizerSectionPartStackTrace_init. rewrite Hk1. reflexivity.
    + unfold SanitizerSectionPartStackTrace_init. rewrite Hk2. reflexivity.
Qed.

Lemma data_race_part_has_two_traces_witness :
  let lines := race_part_header ++ race_write_line :: race_write_trace
               ++ [ [] ] ++ race_read_line :: race_read_trace ++ [ [] ] in
  closed_groups $"data race" lines = Returned [race_write_trace; race_read_trace]
  /\ SanitizerSectionPart_init $"data race" lines
     = Returned {| relevant_stack_traces :=
                     [ {| key := $"foo() (/ros2/lib/libfoo.so+0xX)" |};
                       {| key := $"bar() (/ros2/lib/libbar.so+0xX)" |} ] |}.
Proof.
  apply (data_race_part_has_two_traces
           race_part_header race_write_trace [ [] ] race_read_trace [ [] ]
           race_write_line race_read_line);
    try (vm_compute; reflexivity); try discriminate;
    repeat constructor.
Defined.

(** C7, as stated, fails. The part [race_log_body] has the Write line and
    the Previous read line, each followed by a stack trace line; the stack
    trace after the Previous read line has no frame under /ros2, and the part
    has no stack traces at all: its constructor raises. *)
Lemma data_race_part_without_key_raises :
  race_log_body
  = [ $"WARNING: ThreadSanitizer: data race (pid=7)" ]
    ++ $"  Write of size 8 at 0x7b04 by thread T1:"
    :: [ $"    #0 0x1a in foo() (/ros2/lib/libfoo.so+0x2)" ]
    ++ [ [] ]
    ++ $"  Previous read of size 8 at 0x7b04 by thread T2:"
    :: [ $"    #0 0x3c in memcpy (/usr/lib/libc.so+0x4)" ]
    ++ [ [] ]
  /\ matches data_race_begin_1 $"  Write of size 8 at 0x7b04 by thread T1:" = true
  /\ is_frame $"    #0 0x1a in foo() (/ros2/lib/libfoo.so+0x2)" = true
  /\ matches data_race_begin_2 $"  Previous read of size 8 at 0x7b04 by thread T2:" = true
  /\ is_frame $"    #0 0x3c in memcpy (/usr/lib/libc.so+0x4)" = true
  /\ SanitizerSectionPart_init $"data race" race_log_body = Raised AssertionError.
Proof. repeat split; vm_compute; reflexivity. Qed.

(** ** The stack traces of a memory leak section *)

(** A part without a direct leak line has no stack trace. *)
Lemma leak_part_without_direct_leak lines :
  Forall (fun l => matches direct_leak_begin l = false) lines ->
  SanitizerSectionPart_init $"detected memory leaks" lines
  = Returned {| relevant_stack_traces := [] |}.
Proof.
  intros H. unfold SanitizerSectionPart_init, part_traces.
  rewrite begin_regexes_memory_leaks.
  rewrite <- (app_nil_r lines).
  rewrite (part_loop_skip _ _ _ direct_leak_begin) by auto.
  reflexivity.
Qed.

(** A part that begins with a direct leak line has the stack trace that
    follows the line. *)
Lemma leak_part_with_direct_leak d t rest k :
  matches direct_leak_begin d = true ->
  Forall (fun l => is_frame l = true) t ->
  t <> [] ->
  closes_trace rest ->
  find_key t = Some k ->
  SanitizerSectionPart_init $"detected memory leaks" (d :: t ++ rest)
  = Returned {| relevant_stack_traces := [ {| key := k |} ] |}.
Proof.
  intros Hd Ht Hne Hrest Hk. unfold SanitizerSectionPart_init, part_traces.
  rewrite begin_regexes_memory_leaks.
  rewrite (part_loop_begin _ _ _ direct_leak_begin) by auto.
  rewrite part_loop_gather by exact Ht. simpl app.
  assert (Hmk : SanitizerSectionPartStackTrace_init t = Returned {| key := k |}).
  { unfold SanitizerSectionPartStackTrace_init. rewrite Hk. reflexivity. }
  destruct rest as [| c rest'].
  - simpl. destruct t as [| l tl]; [contradiction |]. rewrite Hmk. reflexivity.
  - rewrite (part_loop_close_last _ _ _ c rest' [] t {| key := k |}); auto.
Qed.

(** The parts before and after a line that begins a part. *)
Lemma split_parts_app_begin X l Y : forall part_lines,
  matches _FIND_SECTION_PART_BEGIN_REGEX l = true ->
  X <> [] \/ part_lines <> [] ->
  split_parts (X ++ l :: Y) part_lines
  = split_parts X part_lines ++ split_parts Y [l].
Proof.
  induction X as [| x X IH]; intros pl Hl Hne.
  - destruct Hne as [Hne | Hne]; [congruence |]. simpl app.
    rewrite split_parts_begin by assumption. reflexivity.
  - cbn [app split_parts].
    destruct (matches _FIND_SECTION_PART_BEGIN_REGEX x && negb (length pl =? 0)).
    + rewrite IH by (auto; right; discriminate). reflexivity.
    + apply IH; auto. right. destruct pl; discriminate.
Qed.

Lemma split_parts_head Y : forall (l : str) (pt : list str),
  exists rest gs, split_parts Y (l :: pt) = (l :: rest) :: gs.
Proof.
  induction Y as [| y Y IH]; intros l pt; cbn [split_parts].
  - eauto.
  - destruct (matches _FIND_SECTION_PART_BEGIN_REGEX y
              && negb (length (l :: pt) =? 0)); [eauto |].
    exact (IH l (pt ++ [y])).
Qed.

(** A line that begins a part is the first line of one of the parts. *)
Lemma part_begin_heads_part l lines :
  In l lines ->
  matches _FIND_SECTION_PART_BEGIN_REGEX l = true ->
  exists rest, In (l :: rest) (split_parts lines []).
Proof.
  intros Hin Hl. apply in_split in Hin. destruct Hin as (X & Y & ->).
  destruct (split_parts_head Y l []) as (rest & gs & Hh).
  exists rest. destruct X as [| x X].
  - simpl app. rewrite split_parts_first, Hh. left; reflexivity.
  - rewrite split_parts_app_begin by (auto; left; discriminate).
    apply in_or_app. right. rewrite Hh. left. reflexivity.
Qed.

(** The lines up to the next line that begins a part, and the lines from
    that line on. *)
Lemma part_rest_split (after : list str) :
  exists restD B,
    after = restD ++ B
    /\ Forall not_part_begin restD
    /\ (B = [] \/ exists b rB,
                    B = b :: rB
                    /\ matches _FIND_SECTION_PART_BEGIN_REGEX b = true).
Proof.
  induction after as [| a after (restD & B & -> & HD & HB)].
  - exists [], []. auto.
  - destruct (matches _FIND_SECTION_PART_BEGIN_REGEX a) eqn:E.
    + exists [], (a :: restD ++ B). repeat split; auto. right. eauto.
    + exists (a :: restD), B. repeat split; auto.
Qed.

Lemma mapM_no_traces_groups (gs : list (list str)) :
  Forall (Forall (fun l => matches direct_leak_begin l = false)) gs ->
  exists ps,
    mapM (SanitizerSectionPart_init $"detected memory leaks") gs = Returned ps
    /\ Forall2 (fun g p =>
                  SanitizerSectionPart_init $"detected memory leaks" g = Returned p
                  /\ relevant_stack_traces p = [])
               gs ps.
Proof.
  induction 1 as [| g gs Hg _ (ps & Heq & Hps)]; cbn [mapM].
  - exists []. auto.
  - rewrite (leak_part_without_direct_leak g Hg), Heq. cbn [bind].
    eexists; split; [reflexivity |]. constructor; [| exact Hps].
    split; [apply leak_part_without_direct_leak; exact Hg | reflexivity].
Qed.

Lemma no_traces_flat_map (name : str) (gs : list (list str)) ps :
  Forall2 (fun g p =>
             SanitizerSectionPart_init name g = Returned p
             /\ relevant_stack_traces p = [])
          gs ps ->
  flat_map relevant_stack_traces ps = [].
Proof.
  induction 1 as [| g p gs ps [_ Hp] _ IH]; simpl; [reflexivity |].
  rewrite Hp, IH. reflexivity.
Qed.

(** C8 (as the code has it). A memory leak section, wherever its parts are:
    after the header [hdr] come the lines [before], the direct leak line [d]
    with the lines [t] of its stack trace, indented, and the lines [after],
    which begin with a line that is no frame. No line of [before] or
    [after] is a direct leak line, and among them is the line [i] that
    begins the indirect leak part. When [t] has a line that matches the key
    pattern, the section has exactly one stack trace, the one of [t] in the
    direct leak part; every other part, the header part and the indirect
    leak part among them, before or after the direct leak, has none. *)
Theorem memory_leak_section_counts_direct_leak_only :
  forall (hdr d i k tailI : str) (before t after : list str),
    find_error_name [hdr] = Returned $"detected memory leaks" ->
    Forall (fun l => matches direct_leak_begin l = false) before ->
    matches direct_leak_begin d = true ->
    Forall (fun l => is_frame l = true) t ->
    t <> [] ->
    Forall not_part_begin t ->
    closes_trace after ->
    Forall (fun l => matches direct_leak_begin l = false) after ->
    find_key t = Some k ->
    i = $"Indirect leak" ++ tailI ->
    matches _FIND_SECTION_PART_BEGIN_REGEX i = true ->
    In i (before ++ after) ->
    let lines := (hdr :: before) ++ (d :: t) ++ after in
    exists (gs1 gs2 : list (list str)) (restD restI : list str)
           (ps1 ps2 : list SanitizerSectionPart),
      split_parts lines [] = gs1 ++ (d :: t ++ restD) :: gs2
      /\ In (i :: restI) (gs1 ++ gs2)
      /\ SanitizerSection_init lines
         = Returned
             {| error_name := $"detected memory leaks";
                parts := ps1 ++ {| relevant_stack_traces := [ {| key := k |} ] |}
                             :: ps2 |}
      /\ Forall2 (fun g p =>
                    SanitizerSectionPart_init $"detected memory leaks" g = Returned p
                    /\ relevant_stack_traces p = [])
                 gs1 ps1
      /\ Forall2 (fun g p =>
                    SanitizerSectionPart_init $"detected memory leaks" g = Returned p
                    /\ relevant_stack_traces p = [])
                 gs2 ps2
      /\ flat_map relevant_stack_traces
           (ps1 ++ {| relevant_stack_traces := [ {| key := k |} ] |} :: ps2)
         = [ {| key := k |} ].
Proof.
  intros hdr d i k tailI before t after
         Hname Hbefore Hd Ht Hne Htb Hclose Hafter Hk Hi Hib Hin lines.
  destruct (part_rest_split after) as (restD & B & -> & HrestD & HB).
  assert (Hhdr : matches direct_leak_begin hdr = false).
  { unfold find_error_name in Hname.
    destruct (re_match _FIND_ERROR_NAME_REGEX hdr) as [m |] eqn:E; [| discriminate].
    apply (header_not_direct_leak hdr m E). }
  apply Forall_app in Hafter. destruct Hafter as [_ HBd].
  set (gs1 := split_parts (hdr :: before) []).
  set (gs2 := match B with [] => [] | _ :: _ => split_parts B [] end).
  assert (Hsplit : split_parts lines [] = gs1 ++ (d :: t ++ restD) :: gs2).
  { unfold lines, gs1, gs2. cbn [app].
    change (hdr :: before ++ d :: t ++ restD ++ B)
      with ((hdr :: before) ++ d :: t ++ restD ++ B).
    rewrite split_parts_app_begin
      by (auto using direct_leak_begins_part; left; discriminate).
    f_equal. rewrite app_assoc.
    rewrite split_parts_gather by (apply Forall_app; split; assumption).
    destruct HB as [-> | (b & rB & -> & Hb)]; [reflexivity |].
    rewrite split_parts_begin by (auto; discriminate).
    rewrite split_parts_first. reflexivity. }
  assert (Hg1 : Forall (Forall (fun l => matches direct_leak_begin l = false)) gs1).
  { rewrite Forall_forall. intros part Hpart. rewrite Forall_forall. intros l Hl.
    pose proof (split_parts_lines _ _ _ _ Hpart Hl) as Hl'. simpl in Hl'.
    destruct Hl' as [<- | Hl']; [exact Hhdr |].
    rewrite Forall_forall in Hbefore. apply Hbefore, Hl'. }
  assert (Hg2 : Forall (Forall (fun l => matches direct_leak_begin l = false)) gs2).
  { unfold gs2. destruct B as [| b rB]; [constructor |].
    rewrite Forall_forall. intros part Hpart. rewrite Forall_forall. intros l Hl.
    pose proof (split_parts_lines _ _ _ _ Hpart Hl) as Hl'. simpl in Hl'.
    rewrite Forall_forall in HBd. apply HBd, Hl'. }
  assert (Hc : closes_trace restD).
  { destruct restD as [| c restD]; [exact I | exact Hclose]. }
  assert (Hi1 : exists restI, In (i :: restI) (gs1 ++ gs2)).
  { apply in_app_or in Hin. destruct Hin as [Hin | Hin].
    - destruct (part_begin_heads_part i (hdr :: before)) as (restI & HrI);
        [right; exact Hin | exact Hib |].
      exists restI. apply in_or_app. left. exact HrI.
    - apply in_app_or in Hin. destruct Hin as [Hin | Hin].
      + exfalso. rewrite Forall_forall in HrestD. apply HrestD in Hin.
        unfold not_part_begin in Hin. congruence.
      + destruct (part_begin_heads_part i B Hin Hib) as (restI & HrI).
        exists restI. apply in_or_app. right. unfold gs2.
        destruct B as [| b rB]; [destruct Hin | exact HrI]. }
  destruct Hi1 as (restI & HrI).
  destruct (mapM_no_traces_groups gs1 Hg1) as (ps1 & Hps1 & Hn1).
  destruct (mapM_no_traces_groups gs2 Hg2) as (ps2 & Hps2 & Hn2).
  exists gs1, gs2, restD, restI, ps1, ps2.
  split; [exact Hsplit |]. split; [exact HrI |].
  split; [| split; [exact Hn1 | split; [exact Hn2 |]]].
  - rewrite SanitizerSection_init_parts.
    assert (Hn : find_error_name lines = Returned $"detected memory leaks")
      by exact Hname.
    rewrite Hn, Hsplit. cbn [bind]. rewrite mapM_app, Hps1. cbn [bind mapM].
    rewrite (leak_part_with_direct_leak d t restD k) by assumption.
    cbn [bind]. rewrite Hps2. reflexivity.
  - rewrite flat_map_app. cbn [flat_map relevant_stack_traces].
    rewrite (no_traces_flat_map _ _ _ Hn1), (no_traces_flat_map _ _ _ Hn2).
    reflexivity.
Qed.

Lemma memory_leak_section_counts_direct_leak_only_witness :
  let lines :=
    ($"==5504==ERROR: LeakSanitizer: detected memory leaks"
     :: [ [];
          $"Indirect leak of 8 byte(s) in 1 object(s) allocated from:";
          $"    #0 0x7f2a in operator new(unsigned long) (/usr/lib/libasan.so+0x12)";
          $"    #1 0x7e1c in rcl_init (/ros2/rcl/lib/librcl.so+0x77)";
          [] ])
    ++ ($"Direct leak of 64 byte(s) in 1 object(s) allocated from:" :: leak_frames)
    ++ [ []; $"SUMMARY: AddressSanitizer: 72 byte(s) leaked in 2 allocation(s)." ] in
  let k := $"rclcpp::NodeOptions::get_rcl_node_options() const (/ros2/rclcpp/lib/librclcpp.so+0xX)" in
  (exists (gs1 gs2 : list (list str)) (restD restI : list str)
          (ps1 ps2 : list SanitizerSectionPart),
      split_parts lines []
      = gs1 ++ ($"Direct leak of 64 byte(s) in 1 object(s) allocated from:"
                :: leak_frames ++ restD) :: gs2
      /\ In ($"Indirect leak of 8 byte(s) in 1 object(s) allocated from:" :: restI)
            (gs1 ++ gs2)
      /\ SanitizerSection_init lines
         = Returned
             {| error_name := $"detected memory leaks";
                parts := ps1 ++ {| relevant_stack_traces := [ {| key := k |} ] |}
                             :: ps2 |}
      /\ Forall2 (fun g p =>
                    SanitizerSectionPart_init $"detected memory leaks" g = Returned p
                    /\ relevant_stack_traces p = [])
                 gs1 ps1
      /\ Forall2 (fun g p =>
                    SanitizerSectionPart_init $"detected memory leaks" g = Returned p
                    /\ relevant_stack_traces p = [])
                 gs2 ps2
      /\ flat_map relevant_stack_traces
           (ps1 ++ {| relevant_stack_traces := [ {| key := k |} ] |} :: ps2)
         = [ {| key := k |} ])
  /\ SanitizerSection_init lines
     = Returned
         {| error_name := $"detected memory leaks";
            parts := [ {| relevant_stack_traces := [] |};
                       {| relevant_stack_traces := [] |};
                       {| relevant_stack_traces := [ {| key := k |} ] |};
                       {| relevant_stack_traces := [] |} ] |}.
Proof.
  intros lines k. split; [| vm_compute; reflexivity].
  apply (memory_leak_section_counts_direct_leak_only
           $"==5504==ERROR: LeakSanitizer: detected memory leaks"
           $"Direct leak of 64 byte(s) in 1 object(s) allocated from:"
           $"Indirect leak of 8 byte(s) in 1 object(s) allocated from:"
           k
           $" of 8 byte(s) in 1 object(s) allocated from:"
           [ [];
             $"Indirect leak of 8 byte(s) in 1 object(s) allocated from:";
             $"    #0 0x7f2a in operator new(unsigned long) (/usr/lib/libasan.so+0x12)";
             $"    #1 0x7e1c in rcl_init (/ros2/rcl/lib/librcl.so+0x77)";
             [] ]
           leak_frames
           [ []; $"SUMMARY: AddressSanitizer: 72 byte(s) leaked in 2 allocation(s)." ]);
    try (vm_compute; reflexivity); try discriminate;
    try (repeat constructor; fail).
Defined.

(** C8, as stated, fails. The section [foreign_leak_section] has the header
    part, a direct leak part with its stack trace, an indirect leak part with
    its stack trace and the summary; the direct leak was allocated outside
    /ros2, and the section has no stack trace: its constructor raises. *)
Lemma memory_leak_section_without_key_raises :
  split_parts foreign_leak_section []
  = [ [ $"==5504==ERROR: LeakSanitizer: detected memory leaks"; [] ];
      [ $"Direct leak of 64 byte(s) in 1 object(s) allocated from:";
        $"    #0 0x7f2a in malloc (/usr/lib/libasan.so+0x12)";
        $"    #1 0x7e1b in g_malloc (/usr/lib/libglib-2.0.so+0x99)";
        [] ];
      [ $"Indirect leak of 8 byte(s) in 1 object(s) allocated from:";
        $"    #0 0x7f2a in malloc (/usr/lib/libasan.so+0x12)";
        $"    #1 0x7e1c in rcl_init (/ros2/rcl/lib/librcl.so+0x77)";
        [] ];
      [ $"SUMMARY: AddressSanitizer: 72 byte(s) leaked in 2 allocation(s)." ] ]
  /\ find_error_name foreign_leak_section = Returned $"detected memory leaks"
  /\ matches direct_leak_begin
       $"Direct leak of 64 byte(s) in 1 object(s) allocated from:" = true
  /\ SanitizerSection_init foreign_leak_section = Raised AssertionError.
Proof. repeat split; vm_compute; reflexivity. Qed.

(** ** The error name of a section *)

(** What the pattern makes of a header. For a header [pre ++ "Sanitizer: "
    ++ name ++ tail] without line feed before [tail] and without a later
    marker, where [name] is not empty and is the shortest text after the
    marker that is followed by a space and an open parenthesis, by a space
    and [0x] with a hex digit, or by nothing but white space up to the end,
    the error name is [name]. *)
Theorem error_name_is_shortest_ended_text :
  forall (pre name tail : str) (rest : list str),
    forallb is_dot pre = true ->
    forallb is_dot name = true ->
    name <> [] ->
    terminates tail = true ->
    (forall n1 n2, name = n1 ++ n2 -> n1 <> [] -> n2 <> [] ->
                   terminates (n2 ++ tail) = false) ->
    ~ occurs marker (name ++ tail) ->
    find_error_name ((pre ++ marker ++ name ++ tail) :: rest) = Returned name.
Proof.
  intros pre name tail rest Hpre Hname Hne Htail Hmin Hlast.
  unfold find_error_name.
  rewrite (error_name_of_header pre name tail); auto.
Qed.

Lemma error_name_is_shortest_ended_text_witness :
  find_error_name [bad_free_header]
  = Returned $"attempting free on address which was not malloc()-ed:".
Proof.
  apply (error_name_is_shortest_ended_text
           $"==5054==ERROR: Address"
           $"attempting free on address which was not malloc()-ed:"
           $" 0x602000000010 in thread T0" []).
  - vm_compute; reflexivity.
  - vm_compute; reflexivity.
  - discriminate.
  - vm_compute; reflexivity.
  - intros n1 n2 Hn Hn1 Hn2.
    pose proof (proper_suffixes_In _ n1 n2 Hn Hn1 Hn2) as Hin.
    assert (Hall : forallb (fun s => negb (terminates (s ++ $" 0x602000000010 in thread T0")))
                     (proper_suffixes
                        $"attempting free on address which was not malloc()-ed:") = true)
      by (vm_compute; reflexivity).
    rewrite forallb_forall in Hall. apply negb_true_iff, Hall, Hin.
  - apply after_marker_None. vm_compute; reflexivity.
Defined.

(** C9, at the header of a bad [free]. The comment in the constructor of a
    section has the error name end before any open parenthesis or hex
    number, as the claim has it; the pattern asks for a space in front of
    the parenthesis. So the name of this header runs over the parenthesis of
    "malloc()" up to the address, where the words of the claim end it at
    "malloc". With a space in front of the parenthesis the name ends before
    it, as in the header of a lock order inversion. *)
Lemma error_name_runs_over_parenthesis :
  find_error_name [bad_free_header]
  = Returned $"attempting free on address which was not malloc()-ed:"
  /\ spec_error_name bad_free_header
     = Some $"attempting free on address which was not malloc"
  /\ find_error_name [ $"WARNING: ThreadSanitizer: lock-order-inversion (potential deadlock) (pid=26542)" ]
     = Returned $"lock-order-inversion".
Proof. repeat split; vm_compute; reflexivity. Qed.

(** ** [set_package] and [csv] *)

(** C10. [set_package] replaces the package and nothing else: the counter
    and the pending sections stay, and a later [add_line] counts only keys of
    the new package. Reading [csv] leaves the whole parser as it was. *)
Theorem set_package_and_csv_frame :
  forall (self : SanitizerLogParser) (package : option str),
    _count_by_output_primary_key (set_package self package)
    = _count_by_output_primary_key self
    /\ _lines_by_find_line_regex (set_package self package)
       = _lines_by_find_line_regex self
    /\ _package (set_package self package) = package
    /\ (forall line self' k,
           add_line (set_package self package) line = Done self' ->
           count_of (_count_by_output_primary_key self') k
           <> count_of (_count_by_output_primary_key self) k ->
           fst (fst k) = package)
    /\ snd (csv self) = self.
Proof.
  intros self package. repeat split.
  - intros line self' k H Hne.
    destruct (add_line_Done_counts _ _ _ H) as (ks & Hk & _ & Hc & _).
    simpl in Hc, Hk. rewrite Hc, count_of_fold in Hne.
    apply Hk. apply (count_occ_In OutputKey_eq_dec). lia.
  - unfold csv, counter_items. apply parser_eta.
Qed.

Lemma set_package_and_csv_frame_witness :
  add_line (set_package leak_pending (Some $"test_communication"))
           $"1: SUMMARY: AddressSanitizer: 72 byte(s) leaked in 2 allocation(s)."
  = Done leak_parser
  /\ count_of (_count_by_output_primary_key leak_parser) leak_key = 1
  /\ count_of (_count_by_output_primary_key leak_pending) leak_key = 0
  /\ fst (fst leak_key) = Some $"test_communication".
Proof.
  split; [vm_compute; reflexivity |].
  split; [vm_compute; reflexivity |].
  split; [vm_compute; reflexivity |].
  apply (proj1 (proj2 (proj2 (proj2
           (set_package_and_csv_frame leak_pending (Some $"test_communication")))))
           $"1: SUMMARY: AddressSanitizer: 72 byte(s) leaked in 2 allocation(s)."
           leak_parser leak_key).
  - vm_compute; reflexivity.
  - vm_compute. discriminate.
Defined.
(** * Further properties of the code *)

(** ** The matcher finds matches only *)

Lemma star_lazy_inv (R : Type) (p : ascii -> bool) (k : str -> option R) s r :
  star_lazy p k s = Some r ->
  exists a b, s = a ++ b /\ forallb p a = true /\ k b = Some r.
Proof.
  induction s as [| c s IH]; simpl.
  - destruct (k []) eqn:E; intro H; inversion H; subst.
    exists [], []. auto.
  - destruct (k (c :: s)) eqn:E.
    + intro H; inversion H; subst. exists [], (c :: s). auto.
    + destruct (p c) eqn:Ec; [| discriminate].
      intro H. destruct (IH H) as (a & b & -> & Ha & Hk).
      exists (c :: a), b. simpl. rewrite Ec. auto.
Qed.

Lemma run_sound (R : Type) (w : str) (r : regex) :
  forall (k : str -> groups -> option R) s g x,
    run w r k s g = Some x ->
    exists s' g', derive w r s g s' g' /\ k s' g' = Some x.
Proof.
  induction r; intros k0 s g x H; cbn [run] in H.
  - exists s, g. split; [constructor | exact H].
  - destruct (strip_prefix l s) as [s' |] eqn:E; [| discriminate].
    apply strip_prefix_Some in E. subst s.
    exists s', g. split; [constructor | exact H].
  - destruct s as [| a s']; [discriminate |].
    destruct (cmatch k a) eqn:E; [| discriminate].
    exists s', g. split; [constructor; exact E | exact H].
  - apply star_greedy_inv in H. destruct H as (a & b & -> & Ha & Hk).
    exists b, g. split; [constructor; exact Ha | exact Hk].
  - destruct s as [| a s']; [discriminate |].
    destruct (cmatch k a) eqn:E; [| discriminate].
    apply star_greedy_inv in H. destruct H as (a' & b & -> & Ha & Hk).
    exists b, g. split; [| exact Hk].
    apply (derive_Plus w k (a :: a') b g); [discriminate |].
    simpl. rewrite E. exact Ha.
  - apply star_lazy_inv in H. destruct H as (a & b & -> & Ha & Hk).
    exists b, g. split; [constructor; exact Ha | exact Hk].
  - destruct s as [| a s']; [discriminate |].
    destruct (cmatch k a) eqn:E; [| discriminate].
    apply star_lazy_inv in H. destruct H as (a' & b & -> & Ha & Hk).
    exists b, g. split; [| exact Hk].
    apply (derive_PlusLazy w k (a :: a') b g); [discriminate |].
    simpl. rewrite E. exact Ha.
  - apply IHr1 in H. destruct H as (s1 & g1 & D1 & H).
    apply IHr2 in H. destruct H as (s2 & g2 & D2 & H).
    exists s2, g2. split; [econstructor; eassumption | exact H].
  - destruct (run w r1 k0 s g) eqn:E.
    + inversion H; subst. apply IHr1 in E. destruct E as (s' & g' & D & Hk).
      exists s', g'. split; [apply derive_Alt_l; exact D | exact Hk].
    + apply IHr2 in H. destruct H as (s' & g' & D & Hk).
      exists s', g'. split; [apply derive_Alt_r; exact D | exact Hk].
  - apply IHr in H. destruct H as (s' & g' & D & Hk).
    exists s', (bind_group name (between s s') g').
    split; [constructor; exact D | exact Hk].
  - destruct (length s =? length w) eqn:E; [| discriminate].
    apply Nat.eqb_eq in E.
    exists s, g. split; [constructor; exact E | exact H].
  - exists s, g. split; [| destruct s as [| c [| ? ?]];
                            [exact H | destruct (ascii_dec c newline); [exact H | discriminate]
                            | discriminate]].
    constructor. destruct s as [| c [| ? ?]]; auto.
    + destruct (ascii_dec c newline); [subst; auto | discriminate].
    + discriminate.
Qed.

Lemma re_match_sound r w m :
  re_match r w = Some m -> exists s', derive w r w [] s' m.
Proof.
  unfold re_match. intro H. apply run_sound in H.
  destruct H as (s' & g' & D & E). inversion E; subst. exists s'. exact D.
Qed.

(** ** The matcher finds a match where there is one *)

Lemma star_greedy_complete (R : Type) (p : ascii -> bool) (k : str -> option R) a :
  forall b,
    forallb p a = true -> k b <> None -> star_greedy p k (a ++ b) <> None.
Proof.
  induction a as [| c a IH]; intros b Ha Hb.
  - destruct b as [| c b]; simpl; auto.
    destruct (p c); auto. destruct (star_greedy p k b); [discriminate | exact Hb].
  - simpl in Ha. apply andb_true_iff in Ha. destruct Ha as [Hc Ha].
    cbn [app star_greedy]. rewrite Hc.
    specialize (IH b Ha Hb).
    destruct (star_greedy p k (a ++ b)); [discriminate | congruence].
Qed.

Lemma star_lazy_complete (R : Type) (p : ascii -> bool) (k : str -> option R) a :
  forall b,
    forallb p a = true -> k b <> None -> star_lazy p k (a ++ b) <> None.
Proof.
  induction a as [| c a IH]; intros b Ha Hb.
  - destruct b as [| c b]; simpl.
    + destruct (k []); [discriminate | congruence].
    + destruct (k (c :: b)); [discriminate | congruence].
  - simpl in Ha. apply andb_true_iff in Ha. destruct Ha as [Hc Ha].
    cbn [app star_lazy]. destruct (k (c :: a ++ b)); [discriminate |].
    rewrite Hc. apply IH; assumption.
Qed.

Lemma run_complete (R : Type) (w : str) r s g s' g' :
  derive w r s g s' g' ->
  forall k : str -> groups -> option R,
    k s' g' <> None -> run w r k s g <> None.
Proof.
  induction 1 as [ s g | l s g | c a s g Hc | c a s g Ha | c a s g Hn Ha
                 | c a s g Ha | c a s g Hn Ha
                 | r1 r2 s g s1 g1 s2 g2 _ IH1 _ IH2
                 | r1 r2 s g s' g' _ IH | r1 r2 s g s' g' _ IH
                 | name r s g s' g' _ IH | s g Hl | s g He ];
    intros k Hk; cbn [run].
  - exact Hk.
  - rewrite strip_prefix_app. exact Hk.
  - rewrite Hc. exact Hk.
  - apply (star_greedy_complete R (cmatch c) (fun s' => k s' g)); assumption.
  - destruct a as [| x a]; [congruence |].
    simpl in Ha. apply andb_true_iff in Ha. destruct Ha as [Hx Ha].
    cbn [app]. rewrite Hx.
    apply (star_greedy_complete R (cmatch c) (fun s' => k s' g)); assumption.
  - apply (star_lazy_complete R (cmatch c) (fun s' => k s' g)); assumption.
  - destruct a as [| x a]; [congruence |].
    simpl in Ha. apply andb_true_iff in Ha. destruct Ha as [Hx Ha].
    cbn [app]. rewrite Hx.
    apply (star_lazy_complete R (cmatch c) (fun s' => k s' g)); assumption.
  - apply IH1. apply IH2. exact Hk.
  - specialize (IH k Hk). destruct (run w r1 k s g); [discriminate | congruence].
  - destruct (run w r1 k s g); [discriminate |]. apply IH. exact Hk.
  - apply IH. exact Hk.
  - rewrite Hl, Nat.eqb_refl. exact Hk.
  - destruct He as [-> | ->]; [exact Hk |].
    destruct (ascii_dec newline newline); [exact Hk | congruence].
Qed.

(** A pattern matches a subject exactly when it matches some text at the
    start of it. *)
Lemma matches_iff_derive r w :
  matches r w = true <-> exists s' m, derive w r w [] s' m.
Proof.
  unfold matches. split.
  - destruct (re_match r w) as [m |] eqn:E; [| discriminate]. intros _.
    destruct (re_match_sound r w m E) as (s' & D). exists s', m. exact D.
  - intros (s' & m & D).
    pose proof (run_complete _ _ _ _ _ _ _ D (fun _ g => Some g)) as H.
    unfold re_match. destruct (run w r (fun _ g => Some g) w []); [reflexivity |].
    exfalso. apply H; [discriminate | reflexivity].
Qed.
(** ** The key of a stack trace *)

Lemma sub_nil f : re_sub_from f _FIND_KEY_SUB_REGEX $"0xX" [] = [].
Proof. destruct f; reflexivity. Qed.

Lemma sub_char f c s :
  token_start (c :: s) = false ->
  re_sub_from (S f) _FIND_KEY_SUB_REGEX $"0xX" (c :: s)
  = c :: re_sub_from f _FIND_KEY_SUB_REGEX $"0xX" s.
Proof.
  intro H. cbn [re_sub_from]. rewrite (match_end_no_token c s H). reflexivity.
Qed.

Lemma sub_token f h s :
  h <> [] -> forallb is_hex h = true -> head_is is_hex s = false ->
  re_sub_from (S f) _FIND_KEY_SUB_REGEX $"0xX" ($"0x" ++ h ++ s)
  = $"0xX" ++ re_sub_from f _FIND_KEY_SUB_REGEX $"0xX" s.
Proof.
  intros Hn Hh Hs.
  change ($"0x" ++ h ++ s) with ("0"%char :: "x"%char :: h ++ s).
  cbn [re_sub_from].
  change ("0"%char :: "x"%char :: h ++ s) with ($"0x" ++ h ++ s).
  rewrite (match_end_token h s Hn Hh Hs).
  replace (length s <? length ($"0x" ++ h ++ s)) with true; auto.
  symmetry. apply Nat.ltb_lt. rewrite !length_app. simpl. lia.
Qed.

(** The text in which a masked text and its source differ starts with an
    address token: elsewhere the first character stays. *)
Lemma sub_head_not_hex f s :
  length s <= f ->
  head_is is_hex s = false ->
  head_is is_hex (re_sub_from f _FIND_KEY_SUB_REGEX $"0xX" s) = false.
Proof.
  intros Hf Hs. destruct s as [| c s].
  - rewrite sub_nil. reflexivity.
  - destruct f as [| f]; [simpl in Hf; lia |].
    rewrite sub_char.
    + exact Hs.
    + apply no_token_start. intros ->. simpl in Hs. discriminate.
Qed.

Lemma token_start_0x s : token_start ("0"%char :: "x"%char :: s) = head_is is_hex s.
Proof. destruct s; reflexivity. Qed.

Lemma token_start_0 c s :
  c <> "x"%char -> token_start ("0"%char :: c :: s) = false.
Proof.
  intro H. unfold token_start. cbn [strip_prefix list_ascii_of_string].
  destruct (ascii_dec "0" "0"); [| congruence].
  destruct (ascii_dec "x" c); [congruence | reflexivity].
Qed.

Lemma sub_no_new_token f s :
  length s <= f ->
  token_start s = false ->
  token_start (re_sub_from f _FIND_KEY_SUB_REGEX $"0xX" s) = false.
Proof.
  intros Hf Hs. destruct s as [| c s].
  - rewrite sub_nil. reflexivity.
  - destruct f as [| f]; [simpl in Hf; lia |].
    rewrite sub_char by exact Hs.
    destruct (ascii_dec c "0"%char) as [-> | Hc]; [| apply no_token_start; exact Hc].
    destruct s as [| d s].
    + rewrite sub_nil. reflexivity.
    + destruct f as [| f]; [simpl in Hf; lia |].
      destruct (token_start (d :: s)) eqn:Ed.
      * destruct (token_start_split _ Ed) as (h & Hn & Hh & Hr & E).
        rewrite E. rewrite sub_token by assumption.
        apply token_start_0. discriminate.
      * rewrite sub_char by exact Ed.
        destruct (ascii_dec d "x"%char) as [-> | Hd]; [| apply token_start_0; exact Hd].
        rewrite token_start_0x in *.
        apply sub_head_not_hex; [simpl in Hf; lia | exact Hs].
Qed.

Lemma sub_has_no_address f : forall s,
  length s <= f ->
  has_address (re_sub_from f _FIND_KEY_SUB_REGEX $"0xX" s) = false.
Proof.
  induction f as [| f IH]; intros s Hf.
  - destruct s; [reflexivity | simpl in Hf; lia].
  - destruct s as [| c s]; [reflexivity |].
    destruct (token_start (c :: s)) eqn:Et.
    + destruct (token_start_split _ Et) as (h & Hn & Hh & Hr & E).
      remember (dropwhile is_hex (skipn 2 (c :: s))) as rest eqn:Erest.
      assert (Hl : length rest <= f).
      { rewrite E in Hf. rewrite !length_app in Hf. simpl in Hf. lia. }
      rewrite E. rewrite sub_token by assumption.
      specialize (IH _ Hl).
      change ($"0xX" ++ ?x) with ("0"%char :: "x"%char :: "X"%char :: x).
      cbn [has_address]. rewrite IH.
      rewrite token_start_0x. reflexivity.
    + pose proof (sub_no_new_token (S f) (c :: s) Hf Et) as Hn.
      rewrite sub_char in * by exact Et.
      cbn [has_address]. rewrite Hn. apply IH. simpl in Hf. lia.
Qed.

Lemma has_address_occurs s :
  has_address s = false ->
  forall a h b, is_hex h = true -> s <> a ++ $"0x" ++ h :: b.
Proof.
  intros Hs a. revert s Hs. induction a as [| c a IH]; intros s Hs h b Hh E.
  - subst s. simpl in Hs. rewrite token_start_0x in Hs. simpl in Hs.
    rewrite Hh in Hs. discriminate.
  - subst s. cbn [app has_address] in Hs.
    apply orb_false_iff in Hs. destruct Hs as [_ Hs].
    exact (IH _ Hs h b Hh eq_refl).
Qed.

Lemma sub_without_address f : forall s,
  has_address s = false ->
  re_sub_from f _FIND_KEY_SUB_REGEX $"0xX" s = s.
Proof.
  induction f as [| f IH]; intros s Hs; [reflexivity |].
  destruct s as [| c s]; [reflexivity |].
  cbn [has_address] in Hs. apply orb_false_iff in Hs. destruct Hs as [Ht Hs].
  rewrite sub_char by exact Ht. f_equal. apply IH. exact Hs.
Qed.

Lemma sub_keeps_ros2 f : forall s,
  length s <= f ->
  has_ros2 s = true ->
  has_ros2 (re_sub_from f _FIND_KEY_SUB_REGEX $"0xX" s) = true.
Proof.
  induction f as [| f IH]; intros s Hf Hs.
  - destruct s; [exact Hs | simpl in Hf; lia].
  - destruct s as [| c s]; [exact Hs |].
    destruct (token_start (c :: s)) eqn:Et.
    + destruct (token_start_split _ Et) as (h & Hn & Hh & Hr & E).
      remember (dropwhile is_hex (skipn 2 (c :: s))) as rest eqn:Erest.
      assert (Hl : length rest <= f).
      { rewrite E in Hf. rewrite !length_app in Hf. simpl in Hf. lia. }
      rewrite E in Hs |- *. rewrite sub_token by assumption.
      rewrite app_assoc in Hs. rewrite has_ros2_drop in Hs.
      * rewrite has_ros2_drop; [apply IH; assumption |].
        simpl. intros [H | [H | [H | []]]]; discriminate.
      * intro Hin. apply in_app_or in Hin. destruct Hin as [Hin | Hin].
        -- simpl in Hin. destruct Hin as [H | [H | []]]; discriminate.
        -- exact (hex_no_slash h Hh Hin).
    + rewrite sub_char by exact Et.
      rewrite has_ros2_cons in Hs |- *.
      apply orb_true_iff in Hs. destruct Hs as [Hs | Hs].
      * unfold starts_with in Hs.
        destruct (strip_prefix $"/ros2" (c :: s)) as [r |] eqn:E; [| discriminate].
        apply strip_prefix_Some in E. injection E as -> ->.
        do 4 (destruct f as [| f]; [simpl in Hf; lia |]).
        rewrite sub_char by (apply no_token_start; discriminate).
        rewrite sub_char by (apply no_token_start; discriminate).
        rewrite sub_char by (apply no_token_start; discriminate).
        rewrite sub_char by (apply no_token_start; discriminate).
        reflexivity.
      * rewrite IH; [apply orb_true_r | simpl in Hf; lia | exact Hs].
Qed.

Lemma sub_keeps_dots f : forall s,
  length s <= f ->
  forallb is_dot s = true ->
  forallb is_dot (re_sub_from f _FIND_KEY_SUB_REGEX $"0xX" s) = true.
Proof.
  induction f as [| f IH]; intros s Hf Hs.
  - destruct s; [reflexivity | simpl in Hf; lia].
  - destruct s as [| c s]; [reflexivity |].
    destruct (token_start (c :: s)) eqn:Et.
    + destruct (token_start_split _ Et) as (h & Hn & Hh & Hr & E).
      remember (dropwhile is_hex (skipn 2 (c :: s))) as rest eqn:Erest.
      assert (Hl : length rest <= f).
      { rewrite E in Hf. rewrite !length_app in Hf. simpl in Hf. lia. }
      rewrite E in Hs |- *. rewrite sub_token by assumption.
      rewrite !forallb_app in Hs.
      apply andb_true_iff in Hs. destruct Hs as [_ Hs].
      apply andb_true_iff in Hs. destruct Hs as [_ Hs].
      rewrite forallb_app. rewrite IH by assumption. reflexivity.
    + rewrite sub_char by exact Et.
      simpl in Hs |- *. apply andb_true_iff in Hs. destruct Hs as [Hc Hs].
      rewrite Hc. apply IH; [simpl in Hf; lia | exact Hs].
Qed.

Lemma sub_head_not_space f s :
  length s <= f ->
  head_is is_space s = false ->
  head_is is_space (re_sub_from f _FIND_KEY_SUB_REGEX $"0xX" s) = false.
Proof.
  intros Hf Hs. destruct s as [| c s].
  - rewrite sub_nil. reflexivity.
  - destruct f as [| f]; [simpl in Hf; lia |].
    destruct (token_start (c :: s)) eqn:Et.
    + destruct (token_start_split _ Et) as (h & Hn & Hh & Hr & E).
      rewrite E. rewrite sub_token by assumption. reflexivity.
    + rewrite sub_char by exact Et. exact Hs.
Qed.

Lemma has_ros2_occurs s : has_ros2 s = true -> occurs $"/ros2" s.
Proof.
  induction s as [| c s IH]; intro H.
  - discriminate.
  - rewrite has_ros2_cons in H. apply orb_true_iff in H. destruct H as [H | H].
    + unfold starts_with in H.
      destruct (strip_prefix $"/ros2" (c :: s)) as [r |] eqn:E; [| discriminate].
      apply strip_prefix_Some in E. exists [], r. exact E.
    + destruct (IH H) as (a & b & ->). exists (c :: a), b. reflexivity.
Qed.

Lemma occurs_has_ros2 s : occurs $"/ros2" s -> has_ros2 s = true.
Proof.
  intros (a & b & ->). induction a as [| c a IH].
  - reflexivity.
  - cbn [app]. rewrite has_ros2_cons. rewrite IH. apply orb_true_r.
Qed.

(** What [find_key] finds is the masked key group of one of the lines. *)
Lemma find_key_Some lines : forall k,
  find_key lines = Some k ->
  exists line a,
    In line lines /\ key_of_line line = Some a
    /\ k = re_sub _FIND_KEY_SUB_REGEX $"0xX" a.
Proof.
  induction lines as [| l lines IH]; intros k H; [discriminate |].
  cbn [find_key] in H. rewrite re_match_key_regex in H.
  destruct (key_of_line l) as [a |] eqn:E.
  - inversion H; subst. exists l, a. simpl. rewrite E. auto.
  - destruct (IH _ H) as (line & a & Hin & Hk & ->).
    exists line, a. simpl. auto.
Qed.

Lemma key_tail_Some t a :
  key_tail t = Some a ->
  has_ros2 a = true /\ forallb is_dot a = true /\ head_is is_space a = false
  /\ exists ws e, t = ws ++ a ++ e /\ forallb is_space ws = true.
Proof.
  unfold key_tail, key_group_ok. intro H.
  destruct (has_ros2 (takewhile is_dot (dropwhile is_space t))) eqn:E1; [| discriminate].
  destruct (forallb is_space (dropwhile is_dot (dropwhile is_space t))) eqn:E2;
    [| discriminate].
  simpl in H. inversion H; subst. repeat split; auto.
  - apply takewhile_all.
  - destruct (dropwhile is_space t) as [| c r] eqn:Ed; [reflexivity |].
    simpl. destruct (is_dot c); [| reflexivity].
    simpl. apply (dropwhile_head is_space t c r Ed).
  - exists (takewhile is_space t), (dropwhile is_dot (dropwhile is_space t)).
    rewrite takewhile_dropwhile. rewrite takewhile_dropwhile.
    split; [reflexivity | apply takewhile_all].
Qed.

Lemma key_of_line_Some line a :
  key_of_line line = Some a ->
  has_ros2 a = true /\ forallb is_dot a = true /\ head_is is_space a = false
  /\ exists p e, line = p ++ a ++ e.
Proof.
  unfold key_of_line. intro H.
  destruct (strip_prefix $"#" (dropwhile is_space line)) as [[| d s1] |] eqn:E0;
    try discriminate.
  destruct (is_digit d); [| discriminate].
  destruct (strip_prefix $" " (dropwhile is_digit s1)) as [r |] eqn:E1;
    [| discriminate].
  apply strip_prefix_Some in E0, E1.
  assert (Hline : exists p, line = p ++ r).
  { exists (takewhile is_space line ++ $"#" ++ d :: takewhile is_digit s1 ++ $" ").
    rewrite <- (takewhile_dropwhile is_space line) at 1. rewrite E0.
    rewrite <- (takewhile_dropwhile is_digit s1) at 1. rewrite E1.
    rewrite <- !app_assoc. simpl. rewrite <- !app_assoc. reflexivity. }
  destruct Hline as (p & ->).
  destruct (addr_prefix r) as [r' |] eqn:E2.
  - destruct (key_tail_Some _ _ H) as (H1 & H2 & H3 & ws & e & -> & _).
    repeat split; auto.
    destruct (addr_prefix_Some _ _ E2) as (h & _ & _ & ->).
    exists (p ++ $"0x" ++ h ++ $" in" ++ ws), e.
    rewrite <- !app_assoc. reflexivity.
  - destruct (key_tail_Some _ _ H) as (H1 & H2 & H3 & ws & e & -> & _).
    repeat split; auto.
    exists (p ++ ws), e. rewrite <- !app_assoc. reflexivity.
Qed.

Lemma has_ros2_app a b c : has_ros2 b = true -> has_ros2 (a ++ b ++ c) = true.
Proof.
  intro H. apply occurs_has_ros2. apply has_ros2_occurs in H.
  destruct H as (x & y & ->). exists (a ++ x), (y ++ c).
  rewrite <- !app_assoc. reflexivity.
Qed.

(** X1. A stack trace none of whose lines holds the text "/ros2" has no key:
    its constructor raises the assertion error. The empty stack trace is one
    of them. *)
Theorem trace_without_ros2_raises :
  forall lines : list str,
    Forall (fun l => has_ros2 l = false) lines ->
    SanitizerSectionPartStackTrace_init lines = Raised AssertionError.
Proof.
  intros lines H. unfold SanitizerSectionPartStackTrace_init.
  destruct (find_key lines) as [k |] eqn:E; [| reflexivity].
  destruct (find_key_Some _ _ E) as (line & a & Hin & Hk & _).
  rewrite Forall_forall in H. specialize (H _ Hin).
  destruct (key_of_line_Some _ _ Hk) as (Ha & _ & _ & p & e & ->).
  rewrite (has_ros2_app p a e Ha) in H. discriminate.
Qed.

Lemma trace_without_ros2_raises_witness :
  SanitizerSectionPartStackTrace_init
    [ $"    #0 0x7f2a in malloc (/usr/lib/libasan.so+0x12)";
      $"    #1 0x7e1b in g_malloc (/usr/lib/libglib-2.0.so+0x99)" ]
  = Raised AssertionError
  /\ SanitizerSectionPartStackTrace_init [] = Raised AssertionError.
Proof.
  split; apply trace_without_ros2_raises; repeat constructor.
Defined.

(** X2. The key of a stack trace holds no address: nowhere in it does a hex
    digit (a decimal digit or a letter a-f) follow "0x". Masking the key
    once more leaves it as it is. *)
Theorem key_holds_no_address :
  forall (lines : list str) (t : SanitizerSectionPartStackTrace),
    SanitizerSectionPartStackTrace_init lines = Returned t ->
    (forall (a : str) (h : ascii) (b : str),
        is_hex h = true -> key t <> a ++ $"0x" ++ h :: b)
    /\ re_sub _FIND_KEY_SUB_REGEX $"0xX" (key t) = key t.
Proof.
  intros lines t H. unfold SanitizerSectionPartStackTrace_init in H.
  destruct (find_key lines) as [k |] eqn:E; [| discriminate].
  inversion H; subst; clear H. cbn [key].
  destruct (find_key_Some _ _ E) as (line & a & _ & _ & ->).
  assert (Hk : has_address (re_sub _FIND_KEY_SUB_REGEX $"0xX" a) = false)
    by (apply sub_has_no_address; auto).
  split.
  - apply has_address_occurs. exact Hk.
  - apply sub_without_address. exact Hk.
Qed.

Lemma key_holds_no_address_witness :
  SanitizerSectionPartStackTrace_init trace_run_2
  = Returned {| key := $"rcl_init (/ros2/rcl/lib/librcl.so+0xX)" |}
  /\ (forall (a : str) (h : ascii) (b : str),
         is_hex h = true ->
         $"rcl_init (/ros2/rcl/lib/librcl.so+0xX)" <> a ++ $"0x" ++ h :: b)
  /\ re_sub _FIND_KEY_SUB_REGEX $"0xX" $"rcl_init (/ros2/rcl/lib/librcl.so+0xX)"
     = $"rcl_init (/ros2/rcl/lib/librcl.so+0xX)".
Proof.
  split; [vm_compute; reflexivity |].
  apply (key_holds_no_address trace_run_2
           {| key := $"rcl_init (/ros2/rcl/lib/librcl.so+0xX)" |}).
  vm_compute. reflexivity.
Defined.

(** X3. The key of a stack trace is the masked text of a piece of one of its
    lines. It holds the text "/ros2", has no line feed, and does not begin
    with white space. *)
Theorem key_names_ros2_code :
  forall (lines : list str) (t : SanitizerSectionPartStackTrace),
    SanitizerSectionPartStackTrace_init lines = Returned t ->
    (exists (line p a e : str),
        In line lines /\ line = p ++ a ++ e
        /\ key t = re_sub _FIND_KEY_SUB_REGEX $"0xX" a)
    /\ occurs $"/ros2" (key t)
    /\ forallb is_dot (key t) = true
    /\ head_is is_space (key t) = false.
Proof.
  intros lines t H. unfold SanitizerSectionPartStackTrace_init in H.
  destruct (find_key lines) as [k |] eqn:E; [| discriminate].
  inversion H; subst; clear H. cbn [key].
  destruct (find_key_Some _ _ E) as (line & a & Hin & Hk & ->).
  destruct (key_of_line_Some _ _ Hk) as (Ha & Hd & Hs & p & e & ->).
  repeat split.
  - exists (p ++ a ++ e), p, a, e. auto.
  - apply has_ros2_occurs. apply sub_keeps_ros2; auto.
  - apply sub_keeps_dots; auto.
  - apply sub_head_not_space; auto.
Qed.

Lemma key_names_ros2_code_witness :
  SanitizerSectionPartStackTrace_init leak_frames
  = Returned {| key := $"rclcpp::NodeOptions::get_rcl_node_options() const (/ros2/rclcpp/lib/librclcpp.so+0xX)" |}
  /\ occurs $"/ros2"
       $"rclcpp::NodeOptions::get_rcl_node_options() const (/ros2/rclcpp/lib/librclcpp.so+0xX)".
Proof.
  split; [vm_compute; reflexivity |].
  apply (key_names_ros2_code leak_frames
           {| key := $"rclcpp::NodeOptions::get_rcl_node_options() const (/ros2/rclcpp/lib/librclcpp.so+0xX)" |}).
  vm_compute. reflexivity.
Defined.

Lemma key_tail_body sp body :
  forallb is_space sp = true ->
  forallb is_dot body = true ->
  head_is is_space body = false ->
  has_ros2 body = true ->
  key_tail (sp ++ body) = Some body.
Proof.
  intros Hsp Hd Hh Hr. unfold key_tail, key_group_ok.
  rewrite (dropwhile_app_all is_space sp body Hsp).
  rewrite (dropwhile_head_is is_space body Hh).
  assert (Et : takewhile is_dot body = body).
  { rewrite <- (app_nil_r body) at 1.
    rewrite (takewhile_app_all is_dot body [] Hd). apply app_nil_r. }
  assert (Ed : dropwhile is_dot body = []).
  { rewrite <- (app_nil_r body) at 1.
    rewrite (dropwhile_app_all is_dot body [] Hd). reflexivity. }
  rewrite Et, Ed, Hr. reflexivity.
Qed.

(** X4. The key of a frame line. In a line made of white space, "#", the
    frame number, a space, an address, " in", white space and the text
    [body] up to the end of the line, where [body] holds "/ros2", the key is
    the masked [body]: neither the frame number nor the leading address is
    part of it. A stack trace that begins with such a line has this key,
    whatever lines follow. Without the address and its " in", the key is the
    masked [body] too, when [body] does not begin with an address. *)
Theorem key_of_frame_line :
  forall (ws d h sp body : str) (rest : list str),
    forallb is_space ws = true ->
    d <> [] -> forallb is_digit d = true ->
    h <> [] -> forallb is_hex h = true ->
    forallb is_space sp = true ->
    forallb is_dot body = true ->
    head_is is_space body = false ->
    has_ros2 body = true ->
    SanitizerSectionPartStackTrace_init
      ((ws ++ $"#" ++ d ++ $" 0x" ++ h ++ $" in" ++ sp ++ body) :: rest)
    = Returned {| key := re_sub _FIND_KEY_SUB_REGEX $"0xX" body |}
    /\ (token_start body = false ->
        SanitizerSectionPartStackTrace_init
          ((ws ++ $"#" ++ d ++ $" " ++ sp ++ body) :: rest)
        = Returned {| key := re_sub _FIND_KEY_SUB_REGEX $"0xX" body |}).
Proof.
  intros ws d h sp body rest Hws Hd0 Hd Hh0 Hh Hsp Hb Hbh Hr.
  assert (Hkt := key_tail_body sp body Hsp Hb Hbh Hr).
  unfold SanitizerSectionPartStackTrace_init. cbn [find_key].
  rewrite !re_match_key_regex. split.
  - change (ws ++ $"#" ++ d ++ $" 0x" ++ h ++ $" in" ++ sp ++ body)
      with (ws ++ "#"%char :: d ++ ($" 0x" ++ h ++ $" in" ++ sp ++ body)).
    rewrite key_of_line_frame by auto.
    change (strip_prefix $" " ($" 0x" ++ h ++ $" in" ++ sp ++ body))
      with (Some ($"0x" ++ h ++ $" in" ++ sp ++ body)).
    cbv iota beta.
    rewrite (addr_prefix_token h ($" in" ++ sp ++ body)) by auto.
    rewrite strip_prefix_app. rewrite Hkt. reflexivity.
  - intro Ht.
    change (ws ++ $"#" ++ d ++ $" " ++ sp ++ body)
      with (ws ++ "#"%char :: d ++ ($" " ++ sp ++ body)).
    rewrite key_of_line_frame by auto.
    change (strip_prefix $" " ($" " ++ sp ++ body)) with (Some (sp ++ body)).
    cbv iota beta.
    rewrite addr_prefix_no_token.
    + rewrite Hkt. reflexivity.
    + destruct sp as [| c sp]; [exact Ht |].
      apply no_token_start. intros ->. discriminate.
Qed.

Lemma key_of_frame_line_witness :
  SanitizerSectionPartStackTrace_init
    [ $"    #1 0x7e1b in rcl_init (/ros2/rcl/lib/librcl.so+0x77)";
      $"    #2 0x55aa in main (/ros2/demo/main+0x1)" ]
  = Returned {| key := $"rcl_init (/ros2/rcl/lib/librcl.so+0xX)" |}
  /\ SanitizerSectionPartStackTrace_init
       [ $"    #1 in rcl_init (/ros2/rcl/lib/librcl.so)" ]
     = Returned {| key := $"in rcl_init (/ros2/rcl/lib/librcl.so)" |}.
Proof.
  split.
  - apply (key_of_frame_line $"    " $"1" $"7e1b" $" "
             $"rcl_init (/ros2/rcl/lib/librcl.so+0x77)"
             [ $"    #2 0x55aa in main (/ros2/demo/main+0x1)" ]);
      try reflexivity; discriminate.
  - apply (key_of_frame_line $"    " $"1" $"0" []
             $"in rcl_init (/ros2/rcl/lib/librcl.so)" []);
      try reflexivity; discriminate.
Defined.
(** ** The relevant stack traces of a part *)

Lemma mapM_Forall2 {A B : Type} (f : A -> result B) (l : list A) : forall bs,
  mapM f l = Returned bs -> Forall2 (fun a b => f a = Returned b) l bs.
Proof.
  induction l as [| a l IH]; intros bs H; simpl in H.
  - inversion H. constructor.
  - destruct (f a) as [b | e] eqn:E; simpl in H; [| discriminate].
    destruct (mapM f l) as [bs' | e]; simpl in H; [| discriminate].
    inversion H; subst. constructor; auto.
Qed.

Lemma Forall2_In_l {A B : Type} (P : A -> B -> Prop) (l : list A) (l' : list B) a :
  Forall2 P l l' -> In a l -> exists b, In b l' /\ P a b.
Proof.
  induction 1 as [| x y l l' Hxy _ IH]; intros Hin; [contradiction |].
  destruct Hin as [-> | Hin].
  - exists y. simpl. auto.
  - destruct (IH Hin) as (b & Hb & Hp). exists b. simpl. auto.
Qed.

Lemma begin_regexes_lock_order :
  _FIND_RELEVANT_STACK_TRACE_BEGIN_REGEXES_BY_ERROR_NAME $"lock-order-inversion"
  = [lock_order_begin; lock_order_begin].
Proof. reflexivity. Qed.

Lemma begin_regexes_default name :
  name <> $"data race" ->
  name <> $"detected memory leaks" ->
  name <> $"lock-order-inversion" ->
  _FIND_RELEVANT_STACK_TRACE_BEGIN_REGEXES_BY_ERROR_NAME name = [any_line].
Proof.
  intros H1 H2 H3. unfold _FIND_RELEVANT_STACK_TRACE_BEGIN_REGEXES_BY_ERROR_NAME.
  destruct (str_eq_dec name $"data race"); [contradiction |].
  destruct (str_eq_dec name $"detected memory leaks"); [contradiction |].
  destruct (str_eq_dec name $"lock-order-inversion"); [contradiction |].
  reflexivity.
Qed.

Lemma begin_regexes_length name :
  length (_FIND_RELEVANT_STACK_TRACE_BEGIN_REGEXES_BY_ERROR_NAME name) <= 2
  /\ (name <> $"data race" -> name <> $"lock-order-inversion" ->
      length (_FIND_RELEVANT_STACK_TRACE_BEGIN_REGEXES_BY_ERROR_NAME name) = 1).
Proof.
  unfold _FIND_RELEVANT_STACK_TRACE_BEGIN_REGEXES_BY_ERROR_NAME.
  destruct (str_eq_dec name $"data race"); [simpl; split; [lia | contradiction] |].
  destruct (str_eq_dec name $"detected memory leaks"); [simpl; split; [lia | auto] |].
  destruct (str_eq_dec name $"lock-order-inversion");
    [simpl; split; [lia | contradiction] |].
  simpl. split; [lia | auto].
Qed.

Lemma closed_groups_bound name lines gs :
  closed_groups name lines = Returned gs ->
  length gs <= length (_FIND_RELEVANT_STACK_TRACE_BEGIN_REGEXES_BY_ERROR_NAME name).
Proof.
  unfold closed_groups, part_traces.
  destruct (@groups_loop_total
              (_FIND_RELEVANT_STACK_TRACE_BEGIN_REGEXES_BY_ERROR_NAME name)
              lines [] None (begin_regexes_nonempty name))
    as (gs' & cur' & -> & Hl).
  cbn [app] in *. cbn [bind].
  destruct cur' as [[| l tl] |]; cbn [bind]; intro H; inversion H; subst.
  - destruct Hl as [Hl | [Hl _]]; lia.
  - destruct Hl as [Hl | [_ Hl]]; [| discriminate].
    rewrite length_app. cbn [length]. lia.
  - destruct Hl as [Hl | [Hl _]]; lia.
Qed.

(** X5. A part has at most as many relevant stack traces as its error name
    has begin patterns: at most two, and at most one unless the error is a
    data race or a lock-order-inversion. The index into the begin patterns
    is never out of range: the one exception the constructor raises is the
    assertion error of a stack trace without key. *)
Theorem part_has_at_most_two_traces :
  forall (name : str) (lines : list str),
    (forall p : SanitizerSectionPart,
        SanitizerSectionPart_init name lines = Returned p ->
        length (relevant_stack_traces p) <= 2
        /\ (name <> $"data race" -> name <> $"lock-order-inversion" ->
            length (relevant_stack_traces p) <= 1))
    /\ (forall e : exn,
           SanitizerSectionPart_init name lines = Raised e -> e = AssertionError).
Proof.
  intros name lines. split.
  - intros p H.
    destruct (SanitizerSectionPart_init_groups name lines) as (gs & Hg & E).
    rewrite E in H.
    destruct (mapM SanitizerSectionPartStackTrace_init gs) as [ts | e] eqn:Em;
      simpl in H; [| discriminate].
    inversion H; subst; clear H. cbn [relevant_stack_traces].
    apply mapM_Forall2 in Em. apply Forall2_length in Em.
    apply closed_groups_bound in Hg.
    destruct (begin_regexes_length name) as [H2 H1].
    split; [lia |]. intros Ha Hb. specialize (H1 Ha Hb). lia.
  - intros e. apply SanitizerSectionPart_init_exn.
Qed.

Lemma groups_loop_runs regexes full : forall rest done gs cur gs' cur',
  done ++ rest = full ->
  (forall i g, nth_error gs i = Some g -> frame_run regexes full i g) ->
  (forall acc, cur = Some acc ->
     Forall (fun l => is_frame l = true) acc
     /\ exists pre b r,
         done = pre ++ b :: acc
         /\ nth_error regexes (length gs) = Some r /\ matches r b = true) ->
  part_loop (fun l => Returned l) regexes rest gs cur = Returned (gs', cur') ->
  (forall i g, nth_error gs' i = Some g -> frame_run regexes full i g)
  /\ (forall acc, cur' = Some acc ->
        Forall (fun l => is_frame l = true) acc
        /\ exists pre b r,
            full = pre ++ b :: acc
            /\ nth_error regexes (length gs') = Some r /\ matches r b = true).
Proof.
  induction rest as [| line rest IH]; intros done gs cur gs' cur' Hfull Hgs Hcur H.
  - simpl in H. inversion H; subst. rewrite app_nil_r in *. auto.
  - assert (Hbegin : forall gs0,
      (forall i g, nth_error gs0 i = Some g -> frame_run regexes full i g) ->
      match nth_error regexes (length gs0) with
      | Some r =>
          if matches r line
          then part_loop (fun l => Returned l) regexes rest gs0 (Some [])
          else part_loop (fun l => Returned l) regexes rest gs0 None
      | None => Raised IndexError
      end = Returned (gs', cur') ->
      (forall i g, nth_error gs' i = Some g -> frame_run regexes full i g)
      /\ (forall acc, cur' = Some acc ->
            Forall (fun l => is_frame l = true) acc
            /\ exists pre b r,
                full = pre ++ b :: acc
                /\ nth_error regexes (length gs') = Some r /\ matches r b = true)).
    { intros gs0 Hgs0 H0.
      destruct (nth_error regexes (length gs0)) as [r |] eqn:Er; [| discriminate].
      destruct (matches r line) eqn:Em.
      - apply (IH (done ++ [line]) gs0 (Some [])); auto.
        + rewrite <- app_assoc. exact Hfull.
        + intros acc Hacc. inversion Hacc; subst. split; [constructor |].
          exists done, line, r. auto.
      - apply (IH (done ++ [line]) gs0 None); auto.
        + rewrite <- app_assoc. exact Hfull.
        + intros acc Hacc. discriminate. }
    cbn [part_loop] in H.
    destruct cur as [acc |]; [| apply (Hbegin gs); assumption].
    destruct (Hcur acc eq_refl) as (Hacc & pre & b & r & Hdone & Hr & Hm).
    fold (is_frame line) in H.
    destruct (is_frame line) eqn:Ef.
    + apply (IH (done ++ [line]) gs (Some (acc ++ [line]))); auto.
      * rewrite <- app_assoc. exact Hfull.
      * intros acc' Hacc'. inversion Hacc'; subst. split.
        -- apply Forall_app. split; [exact Hacc | repeat constructor; exact Ef].
        -- exists pre, b, r. rewrite <- app_assoc. auto.
    + cbn [bind] in H.
      assert (Hgs1 : forall i g, nth_error (gs ++ [acc]) i = Some g ->
                                 frame_run regexes full i g).
      { intros i g Hi.
        destruct (Nat.lt_ge_cases i (length gs)) as [Hlt | Hge].
        - rewrite nth_error_app1 in Hi by exact Hlt. auto.
        - rewrite nth_error_app2 in Hi by exact Hge.
          destruct (i - length gs) as [| n] eqn:En.
          + simpl in Hi. inversion Hi; subst g.
            assert (i = length gs) by lia. subst i.
            split; [exact Hacc |].
            exists pre, b, (line :: rest), r. repeat split; auto.
            rewrite <- Hfull, Hdone. rewrite <- app_assoc. reflexivity.
          + simpl in Hi. destruct n; discriminate. }
      destruct (length (gs ++ [acc]) =? length regexes) eqn:El.
      * inversion H; subst. split; [exact Hgs1 |]. intros ? ?; discriminate.
      * apply (Hbegin (gs ++ [acc])); assumption.
Qed.

Lemma closed_groups_runs name lines gs :
  closed_groups name lines = Returned gs ->
  forall i g, nth_error gs i = Some g ->
    frame_run (_FIND_RELEVANT_STACK_TRACE_BEGIN_REGEXES_BY_ERROR_NAME name) lines i g.
Proof.
  unfold closed_groups, part_traces. intro H.
  destruct (part_loop (fun l => Returned l)
              (_FIND_RELEVANT_STACK_TRACE_BEGIN_REGEXES_BY_ERROR_NAME name)
              lines [] None) as [[gs0 cur0] | e] eqn:E; simpl in H; [| discriminate].
  assert (Hinv := groups_loop_runs
                    (_FIND_RELEVANT_STACK_TRACE_BEGIN_REGEXES_BY_ERROR_NAME name)
                    lines lines [] [] None gs0 cur0 eq_refl).
  destruct Hinv as [Hg Hc]; auto.
  - intros i g Hi. destruct i; discriminate.
  - intros acc Hacc. discriminate.
  - destruct cur0 as [[| l tl] |]; simpl in H; inversion H; subst; auto.
    intros i g Hi.
    destruct (Nat.lt_ge_cases i (length gs0)) as [Hlt | Hge].
    + rewrite nth_error_app1 in Hi by exact Hlt. auto.
    + rewrite nth_error_app2 in Hi by exact Hge.
      destruct (i - length gs0) as [| n] eqn:En.
      * simpl in Hi. inversion Hi; subst g.
        assert (i = length gs0) by lia. subst i.
        destruct (Hc (l :: tl) eq_refl) as (Hacc & pre & b & r & Hfull & Hr & Hm).
        split; [exact Hacc |].
        exists pre, b, [], r. rewrite app_nil_r. repeat split; auto.
      * simpl in Hi. destruct n; discriminate.
Qed.

(** X6. Where the relevant stack traces of a part come from. The stack
    trace of index [i] is built from a run of stack trace lines of the part
    that is not empty, directly follows a line matching the begin pattern of
    index [i] of the error name, and goes on to the end of the part or to
    the first line that is no stack trace line. *)
Theorem relevant_traces_are_frame_runs :
  forall (name : str) (lines : list str) (p : SanitizerSectionPart),
    SanitizerSectionPart_init name lines = Returned p ->
    exists gs : list (list str),
      Forall2 (fun g t => SanitizerSectionPartStackTrace_init g = Returned t)
              gs (relevant_stack_traces p)
      /\ forall (i : nat) (g : list str),
          nth_error gs i = Some g ->
          g <> []
          /\ frame_run (_FIND_RELEVANT_STACK_TRACE_BEGIN_REGEXES_BY_ERROR_NAME name)
                       lines i g.
Proof.
  intros name lines p H.
  destruct (SanitizerSectionPart_init_groups name lines) as (gs & Hg & E).
  rewrite E in H.
  destruct (mapM SanitizerSectionPartStackTrace_init gs) as [ts | e] eqn:Em;
    simpl in H; [| discriminate].
  inversion H; subst; clear H. cbn [relevant_stack_traces].
  apply mapM_Forall2 in Em.
  exists gs. split; [exact Em |].
  intros i g Hi. split.
  - intros ->. apply nth_error_In in Hi.
    destruct (Forall2_In_l _ _ _ _ Em Hi) as (t & _ & Ht).
    discriminate.
  - exact (closed_groups_runs name lines gs Hg i g Hi).
Qed.

Lemma relevant_traces_are_frame_runs_witness :
  exists gs : list (list str),
    Forall2 (fun g t => SanitizerSectionPartStackTrace_init g = Returned t)
            gs
            [ {| key := $"rmw_take (/ros2/rmw/lib/librmw.so+0xX)" |};
              {| key := $"rmw_publish (/ros2/rmw/lib/librmw.so+0xX)" |} ]
    /\ forall (i : nat) (g : list str),
        nth_error gs i = Some g ->
        g <> []
        /\ frame_run [lock_order_begin; lock_order_begin] lock_order_part i g.
Proof.
  apply (relevant_traces_are_frame_runs
           $"lock-order-inversion" lock_order_part
           {| relevant_stack_traces :=
                [ {| key := $"rmw_take (/ros2/rmw/lib/librmw.so+0xX)" |};
                  {| key := $"rmw_publish (/ros2/rmw/lib/librmw.so+0xX)" |} ] |}).
  vm_compute. reflexivity.
Defined.
(** ** Parts with one, two or no stack trace *)

Lemma lock_order_begin_first_nonspace b :
  matches lock_order_begin b = true ->
  exists t, dropwhile is_space b = "M"%char :: t.
Proof.
  unfold matches, re_match, lock_order_begin.
  rewrite run_Seq, run_Bol_start, run_Seq, run_Plus_skip
    by (apply literal_rejects; reflexivity).
  destruct b as [| c s]; [discriminate |].
  change (cmatch CSpace) with is_space. simpl dropwhile.
  destruct (is_space c); [| discriminate].
  rewrite run_Seq, run_Lit.
  destruct (strip_prefix $"Mutex M" (dropwhile is_space s)) as [t |] eqn:E;
    [| discriminate].
  apply strip_prefix_Some in E. intros _. eexists. exact E.
Qed.

Lemma lock_order_begin_not_frame b :
  matches lock_order_begin b = true -> is_frame b = false.
Proof.
  intros H. destruct (lock_order_begin_first_nonspace b H) as [t Ht].
  destruct (is_frame b) eqn:E; auto.
  destruct (frame_first_nonspace b E) as [t' Ht']. congruence.
Qed.

Lemma any_line_matches h : forallb is_dot h = true -> matches any_line h = true.
Proof.
  intro H. unfold matches, re_match, any_line.
  rewrite run_Seq, run_Bol_start, run_Seq, run_Star_skip.
  - change (cmatch CDot) with is_dot.
    rewrite <- (app_nil_r h) at 2.
    rewrite (dropwhile_app_all is_dot h [] H). reflexivity.
  - intros a s' Ha. rewrite run_Eol. destruct s' as [| ? ?]; [| reflexivity].
    destruct (ascii_dec a newline) as [-> | _]; [discriminate | reflexivity].
Qed.

Section FirstTrace.

Variable T : Type.
Variable mk : list str -> result T.
Variable regexes : list regex.

(** Up to the end of the stack trace lines after the first line that matches
    the pattern in turn. *)
Lemma part_loop_open r pre b t rest traces :
  nth_error regexes (length traces) = Some r ->
  Forall (fun l => matches r l = false) pre ->
  matches r b = true ->
  Forall (fun l => is_frame l = true) t ->
  part_loop mk regexes (pre ++ b :: t ++ rest) traces None
  = part_loop mk regexes rest traces (Some t).
Proof.
  intros Hr Hpre Hb Ht.
  rewrite (part_loop_skip T mk regexes r) by auto.
  rewrite (part_loop_begin T mk regexes r) by auto.
  rewrite part_loop_gather by exact Ht. reflexivity.
Qed.

(** Once the traces are as many as the patterns, the loop has left by its
    [break], and the lines that follow are not read. *)
Lemma part_loop_full pre post : forall traces cur ts c,
  length traces < length regexes ->
  part_loop mk regexes pre traces cur = Returned (ts, c) ->
  length ts = length regexes ->
  part_loop mk regexes (pre ++ post) traces cur = Returned (ts, c).
Proof.
  induction pre as [| line pre IH]; intros traces cur ts c Hlt H Hlen.
  - simpl in H. inversion H; subst. lia.
  - cbn [app part_loop] in *.
    assert (Hbegin : forall traces0,
      length traces0 < length regexes ->
      match nth_error regexes (length traces0) with
      | Some r =>
          if matches r line
          then part_loop mk regexes pre traces0 (Some [])
          else part_loop mk regexes pre traces0 None
      | None => Raised IndexError
      end = Returned (ts, c) ->
      match nth_error regexes (length traces0) with
      | Some r =>
          if matches r line
          then part_loop mk regexes (pre ++ post) traces0 (Some [])
          else part_loop mk regexes (pre ++ post) traces0 None
      | None => Raised IndexError
      end = Returned (ts, c)).
    { intros traces0 H0 H1.
      destruct (nth_error regexes (length traces0)); [| discriminate].
      destruct (matches r line); apply IH; auto. }
    destruct cur as [acc |]; [| apply Hbegin; assumption].
    destruct (matches _FIND_STACK_TRACE_LINE_REGEX line); [apply IH; auto |].
    destruct (mk acc) as [t | e]; cbn [bind] in *; [| discriminate].
    destruct (length (traces ++ [t]) =? length regexes) eqn:El; [exact H |].
    apply Hbegin; [| exact H].
    apply Nat.eqb_neq in El. rewrite length_app in *. simpl in *. lia.
Qed.

(** After a line that is no stack trace line, no group with lines is open. *)
Lemma part_loop_after_other pre c : forall traces cur ts acc,
  is_frame c = false ->
  part_loop mk regexes (pre ++ [c]) traces cur = Returned (ts, Some acc) ->
  acc = [].
Proof.
  induction pre as [| line pre IH]; intros traces cur ts acc Hc H.
  - cbn [app part_loop] in H. fold (is_frame c) in H. rewrite Hc in H.
    assert (Hbegin : forall traces0,
      match nth_error regexes (length traces0) with
      | Some r =>
          if matches r c
          then Returned (traces0, Some [])
          else Returned (traces0, None)
      | None => Raised IndexError
      end = Returned (ts, Some acc) -> acc = []).
    { intros traces0 H0.
      destruct (nth_error regexes (length traces0)); [| discriminate].
      destruct (matches r c); inversion H0; reflexivity. }
    destruct cur as [a |]; [| apply (Hbegin traces); exact H].
    destruct (mk a) as [t | e]; cbn [bind] in H; [| discriminate].
    destruct (length (traces ++ [t]) =? length regexes); [discriminate |].
    apply (Hbegin (traces ++ [t])); exact H.
  - cbn [app part_loop] in H.
    assert (Hbegin : forall traces0,
      match nth_error regexes (length traces0) with
      | Some r =>
          if matches r line
          then part_loop mk regexes (pre ++ [c]) traces0 (Some [])
          else part_loop mk regexes (pre ++ [c]) traces0 None
      | None => Raised IndexError
      end = Returned (ts, Some acc) -> acc = []).
    { intros traces0 H0.
      destruct (nth_error regexes (length traces0)); [| discriminate].
      destruct (matches r line); eapply IH; eauto. }
    destruct cur as [a |]; [| apply (Hbegin traces); exact H].
    destruct (matches _FIND_STACK_TRACE_LINE_REGEX line); [eapply IH; eauto |].
    destruct (mk a) as [t | e]; cbn [bind] in H; [| discriminate].
    destruct (length (traces ++ [t]) =? length regexes); [discriminate |].
    apply (Hbegin (traces ++ [t])); exact H.
Qed.

End FirstTrace.

(** X7. A part none of whose lines matches the first begin pattern of the
    error name has no relevant stack trace, and its constructor raises
    nothing, whatever stack traces the part holds. *)
Theorem part_without_begin_line_has_no_trace :
  forall (name : str) (lines : list str) (r : regex) (rs : list regex),
    _FIND_RELEVANT_STACK_TRACE_BEGIN_REGEXES_BY_ERROR_NAME name = r :: rs ->
    Forall (fun l => matches r l = false) lines ->
    SanitizerSectionPart_init name lines
    = Returned {| relevant_stack_traces := [] |}.
Proof.
  intros name lines r rs Hr Hl. unfold SanitizerSectionPart_init, part_traces.
  rewrite Hr. rewrite <- (app_nil_r lines).
  rewrite (part_loop_skip _ _ (r :: rs) r) by auto.
  reflexivity.
Qed.

Lemma part_without_begin_line_has_no_trace_witness :
  SanitizerSectionPart_init $"detected memory leaks"
    ($"Indirect leak of 8 byte(s) in 1 object(s) allocated from:"
     :: leak_indirect_rest)
  = Returned {| relevant_stack_traces := [] |}.
Proof.
  apply (part_without_begin_line_has_no_trace
           $"detected memory leaks" _ direct_leak_begin []).
  - reflexivity.
  - repeat constructor.
Defined.

(** X8. A part of a lock-order-inversion. Let [b1] be the first line that
    matches the "Mutex ... acquired here while holding mutex ..." pattern,
    followed by the stack trace lines [t1], and [b2] the next line that
    matches it, followed by the stack trace lines [t2] and then by a line
    that is no stack trace line, or by the end of the part. When [t1] and
    [t2] each have a key, the part has exactly their two stack traces, in
    that order, whatever follows. *)
Theorem lock_order_part_has_two_traces :
  forall (pre t1 mid t2 post : list str) (b1 b2 k1 k2 : str),
    Forall (fun l => matches lock_order_begin l = false) pre ->
    matches lock_order_begin b1 = true ->
    Forall (fun l => is_frame l = true) t1 ->
    closes_trace mid ->
    Forall (fun l => matches lock_order_begin l = false) mid ->
    matches lock_order_begin b2 = true ->
    Forall (fun l => is_frame l = true) t2 ->
    closes_trace post ->
    find_key t1 = Some k1 ->
    find_key t2 = Some k2 ->
    SanitizerSectionPart_init $"lock-order-inversion"
      (pre ++ b1 :: t1 ++ mid ++ b2 :: t2 ++ post)
    = Returned {| relevant_stack_traces := [ {| key := k1 |}; {| key := k2 |} ] |}.
Proof.
  intros pre t1 mid t2 post b1 b2 k1 k2
         Hpre Hb1 Ht1 Hmidc Hmid Hb2 Ht2 Hpost Hk1 Hk2.
  assert (Hx1 : SanitizerSectionPartStackTrace_init t1 = Returned {| key := k1 |}).
  { unfold SanitizerSectionPartStackTrace_init. rewrite Hk1. reflexivity. }
  assert (Hx2 : SanitizerSectionPartStackTrace_init t2 = Returned {| key := k2 |}).
  { unfold SanitizerSectionPartStackTrace_init. rewrite Hk2. reflexivity. }
  unfold SanitizerSectionPart_init, part_traces.
  rewrite begin_regexes_lock_order.
  rewrite (part_loop_open _ _ _ lock_order_begin) by auto.
  assert (E1 : part_loop SanitizerSectionPartStackTrace_init
                 [lock_order_begin; lock_order_begin]
                 (mid ++ b2 :: t2 ++ post) [] (Some t1)
               = part_loop SanitizerSectionPartStackTrace_init
                   [lock_order_begin; lock_order_begin]
                   post [ {| key := k1 |} ] (Some t2)).
  { destruct mid as [| c mid'].
    - cbn [app].
      rewrite (part_loop_close_more _ _ _ b2 (t2 ++ post) [] t1 {| key := k1 |});
        auto using lock_order_begin_not_frame; try (simpl; lia).
      rewrite (part_loop_open _ _ _ lock_order_begin [] b2 t2 post) by auto.
      reflexivity.
    - rewrite <- app_comm_cons.
      rewrite (part_loop_close_more _ _ _ c _ [] t1 {| key := k1 |}); auto;
        try (simpl; lia).
      rewrite app_comm_cons.
      rewrite (part_loop_open _ _ _ lock_order_begin) by auto.
      reflexivity. }
  rewrite E1.
  destruct post as [| c post'].
  - cbn [part_loop bind]. destruct t2 as [| l tl]; [discriminate |].
    rewrite Hx2. reflexivity.
  - rewrite (part_loop_close_last _ _ _ c post' [ {| key := k1 |} ] t2 {| key := k2 |});
      auto.
Qed.

Lemma lock_order_part_has_two_traces_witness :
  lock_order_part
  = [ $"WARNING: ThreadSanitizer: lock-order-inversion (potential deadlock) (pid=26542)";
      $"  Cycle in lock order graph: M1 (0x7b0c) => M2 (0x7b10) => M1";
      [] ]
    ++ $"  Mutex M2 acquired here while holding mutex M1 in thread T5:"
    :: [ $"    #0 pthread_mutex_lock <null> (libtsan.so.0+0x3faeb)";
         $"    #1 rmw_take (/ros2/rmw/lib/librmw.so+0x1a)" ]
    ++ [ [] ]
    ++ $"  Mutex M1 acquired here while holding mutex M2 in thread T5:"
    :: [ $"    #0 pthread_mutex_lock <null> (libtsan.so.0+0x3faeb)";
         $"    #1 rmw_publish (/ros2/rmw/lib/librmw.so+0x2b)" ]
    ++ [ [];
         $"  Thread T5 (tid=26553, running) created by main thread at:";
         $"    #0 pthread_create <null> (libtsan.so.0+0x2bcee)";
         [] ]
  /\ SanitizerSectionPart_init $"lock-order-inversion" lock_order_part
     = Returned {| relevant_stack_traces :=
                     [ {| key := $"rmw_take (/ros2/rmw/lib/librmw.so+0xX)" |};
                       {| key := $"rmw_publish (/ros2/rmw/lib/librmw.so+0xX)" |} ] |}.
Proof.
  split; [reflexivity |].
  apply (lock_order_part_has_two_traces
           [ $"WARNING: ThreadSanitizer: lock-order-inversion (potential deadlock) (pid=26542)";
             $"  Cycle in lock order graph: M1 (0x7b0c) => M2 (0x7b10) => M1";
             [] ]
           [ $"    #0 pthread_mutex_lock <null> (libtsan.so.0+0x3faeb)";
             $"    #1 rmw_take (/ros2/rmw/lib/librmw.so+0x1a)" ]
           [ [] ]
           [ $"    #0 pthread_mutex_lock <null> (libtsan.so.0+0x3faeb)";
             $"    #1 rmw_publish (/ros2/rmw/lib/librmw.so+0x2b)" ]
           [ [];
             $"  Thread T5 (tid=26553, running) created by main thread at:";
             $"    #0 pthread_create <null> (libtsan.so.0+0x2bcee)";
             [] ]
           $"  Mutex M2 acquired here while holding mutex M1 in thread T5:"
           $"  Mutex M1 acquired here while holding mutex M2 in thread T5:");
    try (vm_compute; reflexivity); repeat constructor.
Defined.

(** X9. A part of an error without begin patterns of its own (any name but
    "data race", "detected memory leaks" and "lock-order-inversion"). When
    the stack trace lines [t] directly follow the first line of the part,
    and [t] has a key, the part has exactly the stack trace of [t]: the
    stack traces further down in the part are left out. *)
Theorem default_part_has_first_trace_only :
  forall (name h k : str) (t post : list str),
    name <> $"data race" ->
    name <> $"detected memory leaks" ->
    name <> $"lock-order-inversion" ->
    forallb is_dot h = true ->
    Forall (fun l => is_frame l = true) t ->
    closes_trace post ->
    find_key t = Some k ->
    SanitizerSectionPart_init name (h :: t ++ post)
    = Returned {| relevant_stack_traces := [ {| key := k |} ] |}.
Proof.
  intros name h k t post H1 H2 H3 Hh Ht Hpost Hk.
  assert (Hx : SanitizerSectionPartStackTrace_init t = Returned {| key := k |}).
  { unfold SanitizerSectionPartStackTrace_init. rewrite Hk. reflexivity. }
  unfold SanitizerSectionPart_init, part_traces.
  rewrite (begin_regexes_default name H1 H2 H3).
  rewrite (part_loop_open _ _ _ any_line [] h t post);
    auto using any_line_matches.
  destruct post as [| c post'].
  - cbn [part_loop bind]. destruct t as [| l tl]; [discriminate |].
    rewrite Hx. reflexivity.
  - rewrite (part_loop_close_last _ _ _ c post' [] t {| key := k |}); auto.
Qed.

Lemma default_part_has_first_trace_only_witness :
  SanitizerSectionPart_init $"SEGV on unknown address" segv_part
  = Returned {| relevant_stack_traces :=
                  [ {| key := $"rcl_take (/ros2/rcl/lib/librcl.so+0xX)" |} ] |}.
Proof.
  apply (default_part_has_first_trace_only
           $"SEGV on unknown address"
           $"==5054==The signal is caused by a READ memory access."
           $"rcl_take (/ros2/rcl/lib/librcl.so+0xX)"
           [ $"    #0 0x7f2a in memcpy (/lib/x86_64-linux-gnu/libc.so.6+0x18e5a0)";
             $"    #1 0x7e1b in rcl_take (/ros2/rcl/lib/librcl.so+0x77)" ]
           [ [];
             $"    #2 0x55aa in main (/ros2/demo/main+0x1)" ]);
    try discriminate; try (vm_compute; reflexivity); repeat constructor.
Defined.

(** X10. A begin line that no stack trace line follows. When the first line
    of a part that matches the first begin pattern of the error name is
    directly followed by a line that is no stack trace line, the part closes
    an empty group, and its constructor raises the assertion error of the
    stack trace constructor, whatever the rest of the part. *)
Theorem begin_line_without_frame_raises :
  forall (name : str) (r : regex) (rs : list regex)
         (pre : list str) (b c : str) (rest : list str),
    _FIND_RELEVANT_STACK_TRACE_BEGIN_REGEXES_BY_ERROR_NAME name = r :: rs ->
    Forall (fun l => matches r l = false) pre ->
    matches r b = true ->
    is_frame c = false ->
    SanitizerSectionPart_init name (pre ++ b :: c :: rest) = Raised AssertionError.
Proof.
  intros name r rs pre b c rest Hr Hpre Hb Hc.
  unfold SanitizerSectionPart_init, part_traces. rewrite Hr.
  rewrite (part_loop_open _ _ (r :: rs) r pre b [] (c :: rest)) by auto.
  cbn [part_loop]. fold (is_frame c). rewrite Hc. reflexivity.
Qed.

Lemma begin_line_without_frame_raises_witness :
  SanitizerSectionPart_init $"thread leak" thread_leak_part = Raised AssertionError
  /\ SanitizerSectionPart_init $"detected memory leaks"
       [ $"Direct leak of 64 byte(s) in 1 object(s) allocated from:";
         $"  (no stack trace available)" ]
     = Raised AssertionError.
Proof.
  split.
  - apply (begin_line_without_frame_raises
             $"thread leak" any_line [] []
             $"WARNING: ThreadSanitizer: thread leak (pid=8256)"
             $"  Thread T1 (tid=8258, finished) created by main thread at:");
      try reflexivity; constructor.
  - apply (begin_line_without_frame_raises
             $"detected memory leaks" direct_leak_begin [] []
             $"Direct leak of 64 byte(s) in 1 object(s) allocated from:"
             $"  (no stack trace available)" []);
      try reflexivity; constructor.
Defined.

(** X11. The lines after the last relevant stack trace are not read. When a
    part that ends with a line that is no stack trace line has as many
    stack traces as its error name has begin patterns, it has the same
    stack traces whatever lines are added after it: no stack trace further
    down is built, and none can fail. *)
Theorem lines_after_last_trace_are_not_read :
  forall (name : str) (pre : list str) (c : str) (post : list str)
         (p : SanitizerSectionPart),
    is_frame c = false ->
    SanitizerSectionPart_init name (pre ++ [c]) = Returned p ->
    length (relevant_stack_traces p)
    = length (_FIND_RELEVANT_STACK_TRACE_BEGIN_REGEXES_BY_ERROR_NAME name) ->
    SanitizerSectionPart_init name (pre ++ c :: post) = Returned p.
Proof.
  intros name pre c post p Hc H Hlen.
  unfold SanitizerSectionPart_init, part_traces in *.
  destruct (part_loop SanitizerSectionPartStackTrace_init
              (_FIND_RELEVANT_STACK_TRACE_BEGIN_REGEXES_BY_ERROR_NAME name)
              (pre ++ [c]) [] None) as [[ts cur] | e] eqn:E;
    cbn [bind] in H; [| discriminate].
  assert (Hcur : cur = None \/ cur = Some []).
  { destruct cur as [acc |]; auto. right. f_equal.
    exact (part_loop_after_other _ _ _ pre c [] None ts acc Hc E). }
  assert (Hp : p = {| relevant_stack_traces := ts |}).
  { destruct Hcur as [-> | ->]; cbn [bind] in H; inversion H; reflexivity. }
  subst p. cbn [relevant_stack_traces] in Hlen.
  replace (pre ++ c :: post) with ((pre ++ [c]) ++ post)
    by (rewrite <- app_assoc; reflexivity).
  rewrite (part_loop_full _ _ _ (pre ++ [c]) post [] None ts cur);
    auto using begin_regexes_nonempty.
Qed.

Lemma lines_after_last_trace_are_not_read_witness :
  SanitizerSectionPart_init $"SEGV on unknown address"
    ([ $"==5054==The signal is caused by a READ memory access.";
       $"    #0 0x7e1b in rcl_take (/ros2/rcl/lib/librcl.so+0x77)" ]
     ++ [ $"  Thread T1 created by main thread at:";
          $"    #0 0x3c in pthread_create (/usr/lib/libtsan.so+0x4)" ])
  = Returned {| relevant_stack_traces :=
                  [ {| key := $"rcl_take (/ros2/rcl/lib/librcl.so+0xX)" |} ] |}.
Proof.
  apply (lines_after_last_trace_are_not_read
           $"SEGV on unknown address"
           [ $"==5054==The signal is caused by a READ memory access.";
             $"    #0 0x7e1b in rcl_take (/ros2/rcl/lib/librcl.so+0x77)" ]
           $"  Thread T1 created by main thread at:"
           [ $"    #0 0x3c in pthread_create (/usr/lib/libtsan.so+0x4)" ]);
    vm_compute; reflexivity.
Defined.
(** ** The parts and the error name of a section *)

Lemma split_parts_one_part lines : forall part_lines,
  part_lines = [] \/ one_part part_lines ->
  lines <> [] \/ part_lines <> [] ->
  Forall one_part (split_parts lines part_lines).
Proof.
  induction lines as [| line rest IH]; intros pl Hpl Hne; cbn [split_parts].
  - destruct Hne as [Hne | Hne]; [congruence |].
    destruct Hpl as [-> | Hpl]; [congruence |]. repeat constructor. exact Hpl.
  - destruct (matches _FIND_SECTION_PART_BEGIN_REGEX line) eqn:Em.
    + destruct pl as [| l t]; cbn [length Nat.eqb negb andb].
      * apply IH; [right; exists line, []; auto | right; discriminate].
      * constructor.
        -- destruct Hpl as [Hpl | Hpl]; [discriminate | exact Hpl].
        -- apply IH; [right; exists line, []; auto | right; discriminate].
    + cbn [andb]. apply IH.
      * right. destruct Hpl as [-> | (l & t & -> & Ht)].
        -- exists line, []. auto.
        -- exists l, (t ++ [line]). split; [reflexivity |].
           apply Forall_app. split; [exact Ht | repeat constructor; exact Em].
      * right. destruct pl; discriminate.
Qed.

Lemma split_parts_begins lines : forall part_lines,
  begins_part part_lines -> Forall begins_part (split_parts lines part_lines).
Proof.
  induction lines as [| line rest IH]; intros pl Hpl; cbn [split_parts].
  - repeat constructor. exact Hpl.
  - destruct (matches _FIND_SECTION_PART_BEGIN_REGEX line
              && negb (length pl =? 0)) eqn:Em.
    + apply andb_true_iff in Em. destruct Em as [Em _].
      constructor; [exact Hpl |]. apply IH. exists line, []. auto.
    + apply IH. destruct Hpl as (l & t & -> & Hl). exists l, (t ++ [line]). auto.
Qed.

Lemma split_parts_tail_begins lines : forall part_lines,
  Forall begins_part (tl (split_parts lines part_lines)).
Proof.
  induction lines as [| line rest IH]; intros pl; cbn [split_parts].
  - constructor.
  - destruct (matches _FIND_SECTION_PART_BEGIN_REGEX line
              && negb (length pl =? 0)) eqn:Em.
    + apply andb_true_iff in Em. destruct Em as [Em _]. cbn [tl].
      apply split_parts_begins. exists line, []. auto.
    + apply IH.
Qed.

(** X12. The parts of a section divide its lines. The parts are built, in
    order, from groups of lines that, one after the other, make up the lines
    of the section; no group is empty, every group but the first begins with
    a line that matches the part-begin pattern (a line that does not begin
    with white space), and no other line of a group matches it. *)
Theorem section_parts_partition_lines :
  forall (lines : list str) (s : SanitizerSection),
    SanitizerSection_init lines = Returned s ->
    exists gs : list (list str),
      concat gs = lines
      /\ Forall2 (fun g p => SanitizerSectionPart_init (error_name s) g = Returned p)
                 gs (parts s)
      /\ Forall one_part gs
      /\ Forall begins_part (tl gs).
Proof.
  intros lines s H. rewrite SanitizerSection_init_parts in H.
  destruct (find_error_name lines) as [name | e] eqn:En; cbn [bind] in H;
    [| discriminate].
  destruct (mapM (SanitizerSectionPart_init name) (split_parts lines []))
    as [ps | e] eqn:Em; cbn [bind] in H; [| discriminate].
  inversion H; subst; clear H. cbn [error_name parts].
  exists (split_parts lines []). repeat split.
  - apply split_parts_concat.
  - apply mapM_Forall2. exact Em.
  - apply split_parts_one_part; [left; reflexivity |].
    left. intros ->. discriminate.
  - apply split_parts_tail_begins.
Qed.

Lemma section_parts_partition_lines_witness :
  exists gs : list (list str),
    concat gs = small_leak_section
    /\ Forall2 (fun g p =>
                  SanitizerSectionPart_init $"detected memory leaks" g = Returned p)
               gs
               [ {| relevant_stack_traces := [] |};
                 {| relevant_stack_traces :=
                      [ {| key := $"rcl_init (/ros2/rcl/lib/librcl.so+0xX)" |} ] |};
                 {| relevant_stack_traces := [] |} ]
    /\ Forall one_part gs
    /\ Forall begins_part (tl gs).
Proof.
  apply (section_parts_partition_lines
           small_leak_section
           {| error_name := $"detected memory leaks";
              parts := [ {| relevant_stack_traces := [] |};
                         {| relevant_stack_traces :=
                              [ {| key := $"rcl_init (/ros2/rcl/lib/librcl.so+0xX)" |} ] |};
                         {| relevant_stack_traces := [] |} ] |}).
  vm_compute. reflexivity.
Defined.

Lemma error_name_match hdr m :
  re_match _FIND_ERROR_NAME_REGEX hdr = Some m ->
  exists a n b,
    hdr = a ++ marker ++ n ++ b
    /\ m = [("error_name"%string, n)]
    /\ forallb is_dot a = true
    /\ n <> [] /\ forallb is_dot n = true
    /\ terminates b = true.
Proof.
  intro H. apply re_match_sound in H. destruct H as (s' & D).
  unfold _FIND_ERROR_NAME_REGEX in D. invert_derive;
    change (cmatch CDot) with is_dot in *;
    change (cmatch CSpace) with is_space in *;
    change (cmatch CHex) with is_hex in *;
    cbn [bind_group]; rewrite between_app;
    do 3 eexists; (split; [reflexivity |]); (split; [reflexivity |]);
    repeat split; try assumption.
  - match goal with
    | Hn : ?h <> [], Hh : forallb is_hex ?h = true |- _ =>
        destruct h as [| c h]; [congruence |];
        simpl in Hh; apply andb_true_iff in Hh; destruct Hh as [Hc _]
    end.
    unfold terminates.
    match goal with
    | |- context [strip_prefix ?l (?p ++ ?x)] =>
        change (strip_prefix l (p ++ x)) with (Some x)
    end.
    cbn [app]. rewrite Hc. apply orb_true_iff. left. apply orb_true_r.
  - unfold terminates. apply orb_true_iff. right.
    rewrite forallb_app.
    match goal with
    | H : forallb is_space _ = true |- _ => rewrite H
    end.
    match goal with
    | H : _ = [] \/ _ = [newline] |- _ => destruct H as [-> | ->]; reflexivity
    end.
Qed.

(** X13. The error name of a section is never empty and has no line feed. It
    stands in the header behind the text "Sanitizer: ", and what follows it
    there is a space and an open parenthesis, a space and an address ("0x"
    and a hex digit), or nothing but white space up to the end of the
    header. *)
Theorem error_name_shape :
  forall (header : str) (rest : list str) (name : str),
    find_error_name (header :: rest) = Returned name ->
    name <> []
    /\ forallb is_dot name = true
    /\ exists a b : str,
        header = a ++ marker ++ name ++ b /\ terminates b = true.
Proof.
  intros header rest name H. cbn [find_error_name] in H.
  destruct (re_match _FIND_ERROR_NAME_REGEX header) as [m |] eqn:E;
    [| discriminate].
  destruct (error_name_match header m E) as (a & n & b & -> & -> & _ & Hn & Hd & Ht).
  inversion H; subst; clear H. cbn [groupdict].
  destruct (string_dec "error_name" "error_name"); [| congruence].
  repeat split; auto. exists a, b. auto.
Qed.

Lemma error_name_shape_witness :
  find_error_name [bad_free_header]
  = Returned $"attempting free on address which was not malloc()-ed:"
  /\ exists a b : str,
      bad_free_header
      = a ++ marker ++ $"attempting free on address which was not malloc()-ed:" ++ b
      /\ terminates b = true.
Proof.
  split; [vm_compute; reflexivity |].
  apply (error_name_shape bad_free_header []
           $"attempting free on address which was not malloc()-ed:").
  vm_compute. reflexivity.
Defined.

Lemma mapM_Raised_In {A B : Type} (f : A -> result B) (l : list A) e :
  mapM f l = Raised e -> exists a, In a l /\ f a = Raised e.
Proof.
  induction l as [| a l IH]; simpl; [discriminate |].
  destruct (f a) as [b | e'] eqn:E; simpl.
  - destruct (mapM f l) as [bs | e'']; simpl; [discriminate |].
    intro H. inversion H; subst. destruct (IH eq_refl) as (a' & Hin & Ha').
    exists a'. auto.
  - intro H. inversion H; subst. exists a. auto.
Qed.

Lemma SanitizerSection_init_Raised lines e :
  SanitizerSection_init lines = Raised e ->
  (e = IndexError /\ lines = [])
  \/ (e = AttributeError
      /\ exists (header : str) (rest : list str),
          lines = header :: rest
          /\ re_match _FIND_ERROR_NAME_REGEX header = None)
  \/ (e = AssertionError
      /\ exists (name : str) (part : list str),
          find_error_name lines = Returned name
          /\ In part (split_parts lines [])
          /\ SanitizerSectionPart_init name part = Raised AssertionError).
Proof.
  intros H. rewrite SanitizerSection_init_parts in H.
  destruct lines as [| header rest].
  - left. cbn in H. inversion H. auto.
  - right. cbn [find_error_name] in *.
    destruct (re_match _FIND_ERROR_NAME_REGEX header) as [m |] eqn:E;
      cbn [bind] in H.
    + right.
      destruct (mapM (SanitizerSectionPart_init (groupdict m "error_name"))
                     (split_parts (header :: rest) [])) as [ps | e'] eqn:Em;
        cbn [bind] in H; [discriminate |].
      inversion H; subst; clear H.
      destruct (mapM_Raised_In _ _ _ Em) as (part & Hin & Hp).
      pose proof (SanitizerSectionPart_init_exn _ _ _ Hp) as ->.
      split; [reflexivity |].
      exists (groupdict m "error_name"), part. auto.
    + left. inversion H; subst. split; [reflexivity |].
      exists header, rest. auto.
Qed.

(** X14. How the constructor of a section fails. Without lines it raises
    the index error of the missing header. With a header in which the text
    "Sanitizer: " does not occur it raises the attribute error of the failed
    match. These apart, it raises only when the header has no error name
    (the attribute error) or when the constructor of one of its parts raises
    (the assertion error). *)
Theorem section_failure_modes :
  SanitizerSection_init [] = Raised IndexError
  /\ (forall (header : str) (rest : list str),
         ~ occurs marker header ->
         SanitizerSection_init (header :: rest) = Raised AttributeError)
  /\ forall (lines : list str) (e : exn),
      SanitizerSection_init lines = Raised e ->
      (e = IndexError /\ lines = [])
      \/ (e = AttributeError
          /\ exists (header : str) (rest : list str),
              lines = header :: rest
              /\ re_match _FIND_ERROR_NAME_REGEX header = None)
      \/ (e = AssertionError
          /\ exists (name : str) (part : list str),
              find_error_name lines = Returned name
              /\ In part (split_parts lines [])
              /\ SanitizerSectionPart_init name part = Raised AssertionError).
Proof.
  split; [reflexivity |]. split.
  - intros header rest Hm. unfold SanitizerSection_init. cbn [find_error_name].
    destruct (re_match _FIND_ERROR_NAME_REGEX header) as [m |] eqn:E;
      [| reflexivity].
    exfalso. apply Hm. exact (error_name_marker header m E).
  - exact SanitizerSection_init_Raised.
Qed.
(** ** Calls of [add_line] *)

Lemma matches_false r w : matches r w = false <-> re_match r w = None.
Proof.
  unfold matches. destruct (re_match r w); split; congruence.
Qed.

(** The two ways of a call: no pending pattern matches the line, or the
    first one that does takes it. *)
Lemma add_line_cases self line :
  (Forall (no_match (rstrip line))
          (_lines_by_find_line_regex (register_start self (rstrip line)))
   /\ add_line self line = Done (register_start self (rstrip line)))
  \/ exists seen r lines m rest,
      _lines_by_find_line_regex (register_start self (rstrip line))
      = seen ++ (r, lines) :: rest
      /\ Forall (no_match (rstrip line)) seen
      /\ re_match r (rstrip line) = Some m
      /\ add_line self line
         = absorb (register_start self (rstrip line)) (rstrip line)
                  seen r lines m rest.
Proof.
  rewrite add_line_unfold.
  destruct (first_match_split (rstrip line)
              (_lines_by_find_line_regex (register_start self (rstrip line))))
    as [Hno | (seen & r & lines & m & rest & Heq & Hseen & Hm)].
  - left. split; [exact Hno | apply route_no_match; exact Hno].
  - right. exists seen, r, lines, m, rest. repeat split; auto.
    rewrite Heq. apply (route_first_match _ _ [] seen r lines m rest Hseen Hm).
Qed.

Lemma register_start_not_start self s :
  matches _FIND_SECTION_START_LINE_REGEX s = false -> register_start self s = self.
Proof.
  intro H. apply matches_false in H. unfold register_start. rewrite H. reflexivity.
Qed.

(** X15. Lines outside of sections are ignored. While no section is
    pending, lines that are no section start lines leave the parser as it
    is: its report does not change. A log without a start line leaves a
    fresh parser with the report of the header row alone. *)
Theorem lines_outside_sections_are_ignored :
  forall (self : SanitizerLogParser) (lines : list str),
    _lines_by_find_line_regex self = [] ->
    Forall (fun l => matches _FIND_SECTION_START_LINE_REGEX (rstrip l) = false)
           lines ->
    add_lines self lines = Done self.
Proof.
  intros self lines Hp Hl. induction Hl as [| l lines Hl _ IH]; [reflexivity |].
  cbn [add_lines]. rewrite add_line_unfold.
  rewrite (register_start_not_start self _ Hl). rewrite Hp. cbn [route].
  exact IH.
Qed.

Lemma lines_outside_sections_are_ignored_witness :
  add_lines SanitizerLogParser_init quiet_log = Done SanitizerLogParser_init
  /\ fst (csv SanitizerLogParser_init)
     = $"package,error_name,stack_trace_key,count" ++ [cr; newline].
Proof.
  split; [| reflexivity].
  apply (lines_outside_sections_are_ignored SanitizerLogParser_init quiet_log).
  - reflexivity.
  - repeat constructor.
Defined.

Lemma count_of_fold_le ks d k :
  count_of d k <= count_of (fold_left counter_incr ks d) k.
Proof. rewrite count_of_fold. lia. Qed.

(** X16. A call of [add_line] never takes a row from the report and never
    lowers a count, and it leaves the package as it is. Where it raises, the
    counts are those of before. *)
Theorem add_line_never_lowers_a_count :
  forall (self : SanitizerLogParser) (line : str),
    (forall self' : SanitizerLogParser,
        add_line self line = Done self' ->
        _package self' = _package self
        /\ incl (dict_keys (_count_by_output_primary_key self))
                (dict_keys (_count_by_output_primary_key self'))
        /\ forall k : OutputKey,
            count_of (_count_by_output_primary_key self) k
            <= count_of (_count_by_output_primary_key self') k)
    /\ (forall (e : exn) (self' : SanitizerLogParser),
           add_line self line = Failed e self' ->
           _package self' = _package self
           /\ _count_by_output_primary_key self'
              = _count_by_output_primary_key self).
Proof.
  intros self line. split.
  - intros self' H.
    destruct (add_line_Done_counts _ _ _ H) as (ks & _ & Hp & Hc & _).
    rewrite Hc. repeat split; auto.
    + apply keys_incl_fold.
    + intro k. apply count_of_fold_le.
  - intros e self' H. destruct (add_line_Failed_frame _ _ _ _ H). auto.
Qed.

(** X17. Only the end line of a section counts. A call of [add_line] with
    a line that is no section end line returns, and leaves the counts and
    the package as they are. *)
Theorem only_end_lines_count :
  forall (self : SanitizerLogParser) (line : str),
    matches _FIND_SECTION_END_LINE_REGEX (rstrip line) = false ->
    exists self' : SanitizerLogParser,
      add_line self line = Done self'
      /\ _count_by_output_primary_key self' = _count_by_output_primary_key self
      /\ _package self' = _package self.
Proof.
  intros self line He.
  destruct (register_start_frame self (rstrip line)) as [Hc Hp].
  destruct (add_line_cases self line)
    as [[_ H] | (seen & r & lines & m & rest & _ & _ & _ & H)];
    rewrite H.
  - eexists. split; [reflexivity |]. auto.
  - unfold absorb. rewrite He. eexists. split; [reflexivity |]. simpl. auto.
Qed.

Lemma only_end_lines_count_witness :
  exists self' : SanitizerLogParser,
    add_line leak_pending $"1: Direct leak of 64 byte(s) in 1 object(s) allocated from:"
    = Done self'
    /\ _count_by_output_primary_key self' = _count_by_output_primary_key leak_pending
    /\ _package self' = _package leak_pending.
Proof.
  apply (only_end_lines_count leak_pending
           $"1: Direct leak of 64 byte(s) in 1 object(s) allocated from:").
  vm_compute. reflexivity.
Defined.

Lemma SanitizerSection_init_exn lines l e :
  SanitizerSection_init (lines ++ [l]) = Raised e ->
  e = AssertionError \/ e = AttributeError.
Proof.
  intro H.
  destruct (SanitizerSection_init_Raised _ _ H) as [[_ Hnil] | [[-> _] | [-> _]]];
    auto.
  destruct lines; discriminate.
Qed.

(** X18. How a call of [add_line] fails. It raises only for a section end
    line, and only the assertion error of a stack trace without key or the
    attribute error of a header without error name: never the index error
    of a section without lines, since the end line is among the lines of the
    section. *)
Theorem add_line_failure_modes :
  forall (self : SanitizerLogParser) (line : str) (e : exn)
         (self' : SanitizerLogParser),
    add_line self line = Failed e self' ->
    matches _FIND_SECTION_END_LINE_REGEX (rstrip line) = true
    /\ (e = AssertionError \/ e = AttributeError).
Proof.
  intros self line e self' H.
  destruct (add_line_cases self line)
    as [[_ H1] | (seen & r & lines & m & rest & _ & _ & _ & H1)];
    rewrite H1 in H; [discriminate |].
  unfold absorb in H.
  destruct (matches _FIND_SECTION_END_LINE_REGEX (rstrip line));
    [| discriminate].
  split; [reflexivity |].
  destruct (SanitizerSection_init (lines ++ [groupdict m "line"])) as [sec | e0] eqn:E;
    [discriminate |].
  inversion H; subst. exact (SanitizerSection_init_exn _ _ _ E).
Qed.

Lemma add_line_failure_modes_witness :
  (exists self', add_line race_parser race_log_summary = Failed AssertionError self')
  /\ (exists self',
         add_line nameless_pending $"SUMMARY: ThreadSanitizer: data race in foo()"
         = Failed AttributeError self')
  /\ matches _FIND_SECTION_END_LINE_REGEX (rstrip race_log_summary) = true
  /\ (AssertionError = AssertionError \/ AssertionError = AttributeError).
Proof.
  split; [eexists; vm_compute; reflexivity |].
  split; [eexists; vm_compute; reflexivity |].
  apply (add_line_failure_modes race_parser race_log_summary AssertionError
           (parser_after (add_line race_parser race_log_summary))).
  vm_compute. reflexivity.
Defined.

Lemma forallb_rev (p : ascii -> bool) (s : str) :
  forallb p (rev s) = forallb p s.
Proof.
  induction s as [| c s IH]; [reflexivity |].
  simpl. rewrite forallb_app, IH. simpl. rewrite andb_true_r. apply andb_comm.
Qed.

Lemma rstrip_app_space line ws :
  forallb is_space ws = true -> rstrip (line ++ ws) = rstrip line.
Proof.
  intro H. unfold rstrip. rewrite rev_app_distr.
  rewrite dropwhile_app_all; [reflexivity |].
  rewrite forallb_rev. exact H.
Qed.

(** X19. White space at the end of a line does not count: a line with or
    without its line terminator, or with blanks after its text, is the same
    line to [add_line]. *)
Theorem add_line_ignores_trailing_space :
  forall (self : SanitizerLogParser) (line ws : str),
    forallb is_space ws = true ->
    add_line self (line ++ ws) = add_line self line.
Proof.
  intros self line ws H. rewrite !add_line_unfold.
  rewrite (rstrip_app_space line ws H). reflexivity.
Qed.

Lemma add_line_ignores_trailing_space_witness :
  add_line leak_pending
    ($"1: SUMMARY: AddressSanitizer: 72 byte(s) leaked in 2 allocation(s)."
     ++ [" "%char; cr; newline])
  = add_line leak_pending
      $"1: SUMMARY: AddressSanitizer: 72 byte(s) leaked in 2 allocation(s).".
Proof.
  apply (add_line_ignores_trailing_space leak_pending
           $"1: SUMMARY: AddressSanitizer: 72 byte(s) leaked in 2 allocation(s)."
           [" "%char; cr; newline]).
  reflexivity.
Defined.

(** ** Dictionaries *)

Section DictFacts.

Variables K V : Type.
Variable K_eq_dec : forall a b : K, {a = b} + {a <> b}.

Lemma dict_set_set (d : dict K V) k a b :
  dict_set K_eq_dec (dict_set K_eq_dec d k a) k b = dict_set K_eq_dec d k b.
Proof.
  induction d as [| [k' v'] d IH]; simpl.
  - destruct (K_eq_dec k k); congruence.
  - destruct (K_eq_dec k' k) as [E | E]; simpl.
    + destruct (K_eq_dec k' k); congruence.
    + destruct (K_eq_dec k' k); congruence.
Qed.

Lemma dict_set_Forall (P : K * V -> Prop) (d : dict K V) k v :
  Forall P d -> (forall k', k' = k -> P (k', v)) -> Forall P (dict_set K_eq_dec d k v).
Proof.
  intros Hd Hv. induction Hd as [| [k' v'] d Hx Hd IH]; simpl.
  - constructor; auto.
  - destruct (K_eq_dec k' k) as [E | E]; constructor; auto.
Qed.

(** [d[k] = v] has [v] under [k] behind the items it had before [k], none of
    them under [k], and before those it had after [k]. *)
Lemma dict_set_split (d : dict K V) k :
  exists seen rest,
    (forall v, dict_set K_eq_dec d k v = seen ++ (k, v) :: rest)
    /\ ~ In k (dict_keys seen)
    /\ incl seen d
    /\ incl rest d
    /\ (~ In k (dict_keys d) -> seen = d /\ rest = []).
Proof.
  induction d as [| [k' v'] d (seen & rest & Hset & Hk & Hs & Hr & Hn)].
  - exists [], []. repeat split; auto using incl_nil_l.
  - destruct (K_eq_dec k' k) as [E | E].
    + exists [], d. repeat split.
      * intro v. simpl. destruct (K_eq_dec k' k); [subst; reflexivity | contradiction].
      * simpl. tauto.
      * apply incl_nil_l.
      * apply incl_tl, incl_refl.
      * exfalso. apply H. simpl. auto.
      * exfalso. apply H. simpl. auto.
    + exists ((k', v') :: seen), rest. repeat split.
      * intro v. simpl. destruct (K_eq_dec k' k); [contradiction |].
        rewrite Hset. reflexivity.
      * simpl. intros [H | H]; auto.
      * intros x [<- | Hx]; [left; reflexivity | right; auto].
      * apply incl_tl. exact Hr.
      * f_equal. apply Hn. intro H0. apply H. simpl. auto.
      * apply Hn. intro H0. apply H. simpl. auto.
Qed.

Lemma dict_set_keys (d : dict K V) k v :
  dict_keys (dict_set K_eq_dec d k v)
  = if in_dec K_eq_dec k (dict_keys d) then dict_keys d else dict_keys d ++ [k].
Proof.
  induction d as [| [k' v'] d IH]; simpl; [reflexivity |].
  destruct (K_eq_dec k' k) as [E | E]; simpl.
  - reflexivity.
  - rewrite IH. destruct (in_dec K_eq_dec k (dict_keys d)); reflexivity.
Qed.

Lemma dict_set_NoDup (d : dict K V) k v :
  NoDup (dict_keys d) -> NoDup (dict_keys (dict_set K_eq_dec d k v)).
Proof.
  intro H. rewrite dict_set_keys.
  destruct (in_dec K_eq_dec k (dict_keys d)) as [Hin | Hin]; [exact H |].
  apply NoDup_app; auto.
  - repeat constructor. simpl. tauto.
  - intros x Hx [<- | []]. contradiction.
Qed.

End DictFacts.
(** ** What every parser keeps *)

Lemma counter_incr_set d k :
  counter_incr d k = dict_set OutputKey_eq_dec d k (count_of d k + 1).
Proof.
  unfold counter_incr, counter_getitem, count_of.
  destruct (dict_get OutputKey_eq_dec d k); [reflexivity |].
  apply dict_set_set.
Qed.

Lemma counter_incr_positive d k :
  Forall (fun row : OutputKey * nat => 1 <= snd row) d ->
  Forall (fun row : OutputKey * nat => 1 <= snd row) (counter_incr d k).
Proof.
  intro H. rewrite counter_incr_set. apply dict_set_Forall; [exact H |].
  intros k' _. simpl. lia.
Qed.

Lemma fold_incr_positive ks : forall d,
  Forall (fun row : OutputKey * nat => 1 <= snd row) d ->
  Forall (fun row : OutputKey * nat => 1 <= snd row) (fold_left counter_incr ks d).
Proof.
  induction ks as [| k ks IH]; intros d H; simpl; auto.
  apply IH. apply counter_incr_positive. exact H.
Qed.

Lemma NoDup_keys_remove (seen rest : dict regex (list str)) r lines :
  NoDup (dict_keys (seen ++ (r, lines) :: rest)) ->
  NoDup (dict_keys (seen ++ rest)).
Proof.
  unfold dict_keys. rewrite !map_app. simpl. apply NoDup_remove_1.
Qed.

Lemma keys_replace (seen rest : dict regex (list str)) r lines lines' :
  dict_keys (seen ++ (r, lines') :: rest) = dict_keys (seen ++ (r, lines) :: rest).
Proof. unfold dict_keys. rewrite !map_app. reflexivity. Qed.

Lemma register_start_well_formed self s :
  well_formed self -> well_formed (register_start self s).
Proof.
  intros (H1 & H2 & H3 & H4). unfold register_start.
  destruct (re_match _FIND_SECTION_START_LINE_REGEX s) as [m |];
    [| repeat split; assumption].
  repeat split; cbn [_count_by_output_primary_key _lines_by_find_line_regex];
    auto.
  - apply dict_set_NoDup. exact H3.
  - apply dict_set_Forall; [exact H4 |].
    intros k' ->. eexists. reflexivity.
Qed.

Lemma add_line_well_formed self line :
  well_formed self -> well_formed (parser_after (add_line self line)).
Proof.
  intro H. apply (register_start_well_formed self (rstrip line)) in H.
  destruct (add_line_cases self line)
    as [[_ H1] | (seen & r & lines & m & rest & Heq & _ & _ & H1)];
    rewrite H1; [exact H |].
  destruct H as (Hc1 & Hc2 & Hp1 & Hp2).
  rewrite Heq in Hp1, Hp2.
  assert (Hkeep : NoDup (dict_keys (seen ++ (r, lines ++ [groupdict m "line"]) :: rest))
                  /\ Forall (fun item => exists prefix : str,
                                 fst item = find_line_regex_of prefix)
                            (seen ++ (r, lines ++ [groupdict m "line"]) :: rest)).
  { split.
    - rewrite (keys_replace seen rest r lines). exact Hp1.
    - apply Forall_app in Hp2. destruct Hp2 as [Ha Hb].
      apply Forall_app. split; [exact Ha |].
      inversion Hb; subst. constructor; auto. }
  destruct Hkeep as [Hk1 Hk2].
  unfold absorb.
  destruct (matches _FIND_SECTION_END_LINE_REGEX (rstrip line)).
  - destruct (SanitizerSection_init (lines ++ [groupdict m "line"])) as [sec | e];
      cbn [parser_after]; repeat split;
      cbn [_count_by_output_primary_key _lines_by_find_line_regex report_rows
           counter_items fst]; auto.
    + apply NoDup_keys_fold. exact Hc1.
    + apply fold_incr_positive. exact Hc2.
    + exact (NoDup_keys_remove seen rest r lines Hp1).
    + apply Forall_app in Hp2. destruct Hp2 as [Ha Hb].
      apply Forall_app. split; [exact Ha |]. inversion Hb; auto.
  - cbn [parser_after]. repeat split;
      cbn [_count_by_output_primary_key _lines_by_find_line_regex report_rows
           counter_items fst]; auto.
Qed.

Lemma add_lines_reachable lines : forall self self',
  reachable self -> add_lines self lines = Done self' -> reachable self'.
Proof.
  induction lines as [| line lines IH]; intros self self' Hr H; cbn [add_lines] in H.
  - inversion H; subst. exact Hr.
  - destruct (add_line self line) as [self1 | e self1] eqn:E; [| discriminate].
    apply (IH self1); [| exact H].
    exact (reachable_add_line self line self1 Hr E).
Qed.

Lemma reachable_well_formed self : reachable self -> well_formed self.
Proof.
  induction 1 as [| self package _ IH | self _ IH
                  | self line self' _ IH E | self line e self' _ IH E].
  - repeat split; constructor.
  - exact IH.
  - destruct self. exact IH.
  - pose proof (add_line_well_formed self line IH) as Hw.
    rewrite E in Hw. exact Hw.
  - pose proof (add_line_well_formed self line IH) as Hw.
    rewrite E in Hw. exact Hw.
Qed.

(** X20. What every parser keeps, whatever methods were called on it, and
    whether or not calls of [add_line] raised: the report has one row for
    one primary key, and no row with the count 0; one section is pending
    for one pattern, and every pattern is the find-line pattern of a
    prefix. *)
Theorem reachable_parser_invariants :
  forall self : SanitizerLogParser,
    reachable self ->
    NoDup (dict_keys (_count_by_output_primary_key self))
    /\ Forall (fun row => 1 <= snd row) (report_rows self)
    /\ NoDup (dict_keys (_lines_by_find_line_regex self))
    /\ Forall (fun item => exists prefix : str, fst item = find_line_regex_of prefix)
              (_lines_by_find_line_regex self).
Proof. exact reachable_well_formed. Qed.

Lemma reachable_parser_invariants_witness :
  reachable leak_parser
  /\ NoDup (dict_keys (_count_by_output_primary_key leak_parser))
  /\ Forall (fun row => 1 <= snd row) (report_rows leak_parser)
  /\ NoDup (dict_keys (_lines_by_find_line_regex leak_parser))
  /\ Forall (fun item => exists prefix : str, fst item = find_line_regex_of prefix)
            (_lines_by_find_line_regex leak_parser).
Proof.
  assert (H : reachable leak_parser).
  { apply (add_lines_reachable leak_log
             (set_package SanitizerLogParser_init (Some $"test_communication"))).
    - apply reachable_set_package. apply reachable_init.
    - vm_compute. reflexivity. }
  split; [exact H |].
  apply (reachable_parser_invariants leak_parser H).
Defined.
(** ** A section, from its start line to its end line *)

Lemma find_line_regex_matches prefix x :
  forallb is_dot x = true ->
  re_match (find_line_regex_of prefix) (prefix ++ x) = Some [("line"%string, x)].
Proof.
  intro H. unfold re_match, find_line_regex_of.
  rewrite run_Seq, run_Bol_start, run_Seq, run_Lit_app.
  rewrite run_Seq, run_Group, run_Star_skip.
  - change (cmatch CDot) with is_dot.
    assert (Ed : dropwhile is_dot x = []).
    { rewrite <- (app_nil_r x). apply (dropwhile_app_all is_dot x [] H). }
    assert (Eb : between x [] = x).
    { rewrite <- (app_nil_r x) at 1. apply between_app. }
    rewrite Ed, Eb. reflexivity.
  - intros a s' Ha. rewrite run_Eol. destruct s' as [| ? ?]; [| reflexivity].
    destruct (ascii_dec a newline) as [-> | _]; [discriminate | reflexivity].
Qed.

Lemma digits_are_dots d : forallb is_digit d = true -> forallb is_dot d = true.
Proof. apply forallb_impl. exact is_digit_is_dot. Qed.

(** A start line that does not end with white space: the prefix, and text
    without line feed behind it. *)
Lemma start_line_match w m :
  (forall a c, w = a ++ [c] -> is_space c = false) ->
  re_match _FIND_SECTION_START_LINE_REGEX w = Some m ->
  forallb is_dot w = true
  /\ exists x, w = groupdict m "prefix" ++ x.
Proof.
  intros Hlast H. apply re_match_sound in H. destruct H as (s' & D).
  unfold _FIND_SECTION_START_LINE_REGEX in D. invert_derive;
    change (cmatch CDot) with is_dot in *;
    change (cmatch CDigit) with is_digit in *;
    cbn [bind_group groupdict];
    (destruct (string_dec "prefix" "prefix"); [| congruence]);
    rewrite between_app;
    (split; [| eexists; reflexivity]);
    match goal with
    | H : _ = [] \/ _ = [newline] |- _ => destruct H as [-> | ->]
    end;
    try (exfalso;
         assert (Hn : is_space newline = false)
           by (eapply Hlast; rewrite !app_assoc; reflexivity);
         discriminate);
    rewrite ?forallb_app;
    repeat match goal with
           | H : forallb is_dot _ = true |- _ => rewrite H; clear H
           | H : forallb is_digit _ = true |- _ =>
               rewrite (digits_are_dots _ H); clear H
           end;
    reflexivity.
Qed.

Lemma rstrip_start_line line m :
  re_match _FIND_SECTION_START_LINE_REGEX (rstrip line) = Some m ->
  forallb is_dot (rstrip line) = true
  /\ exists x, rstrip line = groupdict m "prefix" ++ x.
Proof.
  apply start_line_match. intros a c. apply rstrip_last.
Qed.

Lemma register_start_start self s m :
  re_match _FIND_SECTION_START_LINE_REGEX s = Some m ->
  register_start self s
  = {| _count_by_output_primary_key := _count_by_output_primary_key self;
       _package := _package self;
       _lines_by_find_line_regex :=
         dict_set regex_eq_dec (_lines_by_find_line_regex self)
                  (find_line_regex_of (groupdict m "prefix")) [] |}.
Proof. intro H. unfold register_start. rewrite H. reflexivity. Qed.

(** X21. A start line opens its section. When no pending section of
    another prefix takes the line, a start line that is no end line leaves
    the section of its prefix pending with the line, without the prefix, as
    its only line: a section of the same prefix that was pending loses the
    lines it had gathered. *)
Theorem start_line_opens_its_section :
  forall (self : SanitizerLogParser) (line : str) (m : groups),
    let stripped := rstrip line in
    let prefix := groupdict m "prefix" in
    re_match _FIND_SECTION_START_LINE_REGEX stripped = Some m ->
    matches _FIND_SECTION_END_LINE_REGEX stripped = false ->
    (forall (r : regex) (lines : list str),
        In (r, lines) (_lines_by_find_line_regex self) ->
        r <> find_line_regex_of prefix ->
        re_match r stripped = None) ->
    exists header : str,
      stripped = prefix ++ header
      /\ add_line self line
         = Done {| _count_by_output_primary_key := _count_by_output_primary_key self;
                   _package := _package self;
                   _lines_by_find_line_regex :=
                     dict_set regex_eq_dec (_lines_by_find_line_regex self)
                              (find_line_regex_of prefix) [header] |}.
Proof.
  intros self line m stripped prefix Hm He Hother.
  destruct (rstrip_start_line line m Hm) as (Hdot & x & Hx).
  fold stripped prefix in Hdot, Hx.
  exists x. split; [exact Hx |].
  assert (Hxd : forallb is_dot x = true).
  { rewrite Hx in Hdot. rewrite forallb_app in Hdot.
    apply andb_true_iff in Hdot. tauto. }
  rewrite add_line_unfold. fold stripped.
  rewrite (register_start_start self stripped m Hm). fold prefix.
  cbn [_lines_by_find_line_regex].
  destruct (dict_set_split _ _ regex_eq_dec (_lines_by_find_line_regex self)
              (find_line_regex_of prefix))
    as (seen & rest & Hset & Hk & Hs & _ & _).
  rewrite !Hset.
  assert (Hseen : Forall (no_match stripped) seen).
  { apply Forall_forall. intros [r ls] Hin. unfold no_match. cbn [fst].
    apply (Hother r ls); [apply Hs; exact Hin |].
    intros ->. apply Hk. unfold dict_keys.
    change (find_line_regex_of prefix) with (fst (find_line_regex_of prefix, ls)).
    apply in_map. exact Hin. }
  rewrite (route_first_match _ stripped [] seen (find_line_regex_of prefix) []
             [("line"%string, x)] rest Hseen)
    by (rewrite Hx; apply find_line_regex_matches; exact Hxd).
  unfold absorb. rewrite He. cbn [app groupdict].
  destruct (string_dec "line" "line"); [| congruence].
  reflexivity.
Qed.

Lemma start_line_opens_its_section_witness :
  exists header : str,
    rstrip $"1: ==5504==ERROR: LeakSanitizer: detected memory leaks  "
    = $"1: " ++ header
    /\ add_line leak_pending
         $"1: ==5504==ERROR: LeakSanitizer: detected memory leaks  "
       = Done {| _count_by_output_primary_key :=
                   _count_by_output_primary_key leak_pending;
                 _package := _package leak_pending;
                 _lines_by_find_line_regex :=
                   dict_set regex_eq_dec (_lines_by_find_line_regex leak_pending)
                            (find_line_regex_of $"1: ") [header] |}.
Proof.
  apply (start_line_opens_its_section leak_pending
           $"1: ==5504==ERROR: LeakSanitizer: detected memory leaks  "
           [("prefix"%string, $"1: ")]).
  - vm_compute. reflexivity.
  - vm_compute. reflexivity.
  - intros r ls Hin Hne. vm_compute in Hin. destruct Hin as [Hin | []].
    inversion Hin; subst. exfalso. apply Hne. reflexivity.
Defined.

Section OneSection.

Variable self : SanitizerLogParser.
Variable p : str.

Lemma pending_takes_own_line line x acc :
  ignores self line ->
  rstrip line = p ++ x ->
  forallb is_dot x = true ->
  matches _FIND_SECTION_START_LINE_REGEX (rstrip line) = false ->
  add_line (with_pending self p acc) line
  = absorb (with_pending self p acc) (rstrip line) (_lines_by_find_line_regex self)
           (find_line_regex_of p) acc [("line"%string, x)] [].
Proof.
  intros Hi Hx Hd Hs. rewrite add_line_unfold.
  rewrite (register_start_not_start _ _ Hs).
  cbn [with_pending _lines_by_find_line_regex].
  apply (route_first_match _ (rstrip line) []
           (_lines_by_find_line_regex self) (find_line_regex_of p) acc
           [("line"%string, x)] [] Hi).
  rewrite Hx. apply find_line_regex_matches. exact Hd.
Qed.

Lemma pending_gathers_own_line line x acc :
  ignores self line ->
  rstrip line = p ++ x ->
  forallb is_dot x = true ->
  matches _FIND_SECTION_START_LINE_REGEX (rstrip line) = false ->
  matches _FIND_SECTION_END_LINE_REGEX (rstrip line) = false ->
  add_line (with_pending self p acc) line = Done (with_pending self p (acc ++ [x])).
Proof.
  intros Hi Hx Hd Hs He.
  rewrite (pending_takes_own_line line x acc Hi Hx Hd Hs).
  unfold absorb. rewrite He. cbn [groupdict].
  destruct (string_dec "line" "line"); [| congruence].
  reflexivity.
Qed.

Lemma pending_gathers log body : forall acc tail,
  gathers p log body ->
  Forall (ignores self) log ->
  add_lines (with_pending self p acc) (log ++ tail)
  = add_lines (with_pending self p (acc ++ body)) tail.
Proof.
  intros acc tail Hg. revert acc.
  induction Hg as [| line x log body Hx Hd Hs He _ IH | line log body Hn Hs _ IH];
    intros acc Hi.
  - rewrite app_nil_r. reflexivity.
  - inversion Hi as [| ? ? Hi1 Hi2]; subst.
    cbn [app add_lines].
    rewrite (pending_gathers_own_line line x acc Hi1 Hx Hd Hs He).
    rewrite (IH (acc ++ [x]) Hi2). rewrite <- app_assoc. reflexivity.
  - inversion Hi as [| ? ? Hi1 Hi2]; subst.
    cbn [app add_lines]. rewrite add_line_unfold.
    rewrite (register_start_not_start _ _ Hs).
    rewrite route_no_match.
    + apply IH. exact Hi2.
    + cbn [with_pending _lines_by_find_line_regex].
      apply Forall_app. split; [exact Hi1 |].
      repeat constructor. exact Hn.
Qed.

End OneSection.

(** The start line of a section that no pending section takes: the
    section is pending behind the others, with its header. *)
Lemma start_line_pending self start m (header : str) :
  ignores self start ->
  re_match _FIND_SECTION_START_LINE_REGEX (rstrip start) = Some m ->
  rstrip start = groupdict m "prefix" ++ header ->
  matches _FIND_SECTION_END_LINE_REGEX (rstrip start) = false ->
  forallb is_dot header = true
  /\ add_line self start = Done (with_pending self (groupdict m "prefix") [header]).
Proof.
  intros Hi0 Hm Hh He.
  destruct (rstrip_start_line start m Hm) as (Hdot & x & Hx).
  assert (x = header) by (rewrite Hh in Hx; apply app_inv_head in Hx; auto).
  subst x.
  assert (Hhd : forallb is_dot header = true).
  { rewrite Hx in Hdot. rewrite forallb_app in Hdot.
    apply andb_true_iff in Hdot. tauto. }
  split; [exact Hhd |].
  assert (Hnew : ~ In (find_line_regex_of (groupdict m "prefix"))
                      (dict_keys (_lines_by_find_line_regex self))).
  { intro Hin. unfold dict_keys in Hin. apply in_map_iff in Hin.
    destruct Hin as ([r ls] & Hr & Hin). cbn [fst] in Hr. subst r.
    unfold ignores in Hi0. rewrite Forall_forall in Hi0.
    specialize (Hi0 _ Hin). unfold no_match in Hi0. cbn [fst] in Hi0.
    rewrite Hx in Hi0.
    rewrite (find_line_regex_matches (groupdict m "prefix") header Hhd) in Hi0.
    discriminate. }
  rewrite add_line_unfold. rewrite (register_start_start self _ m Hm).
  cbn [_lines_by_find_line_regex].
  destruct (dict_set_split _ _ regex_eq_dec (_lines_by_find_line_regex self)
              (find_line_regex_of (groupdict m "prefix")))
    as (seen & rest & Hset & _ & _ & _ & Hn).
  destruct (Hn Hnew) as [-> ->]. rewrite Hset.
  rewrite (route_first_match _ (rstrip start) []
             (_lines_by_find_line_regex self)
             (find_line_regex_of (groupdict m "prefix")) []
             [("line"%string, header)] [] Hi0)
    by (rewrite Hx; apply find_line_regex_matches; exact Hhd).
  unfold absorb. rewrite He. cbn [app groupdict].
  destruct (string_dec "line" "line"); [| congruence]. reflexivity.
Qed.

(** X22. A section, fed line by line. A start line that is no end line,
    then lines behind its prefix (none of them a start or an end line)
    among lines the pattern of the prefix does not match, then an end line
    behind the prefix: when the sections pending before take none of these
    lines, the calls of [add_line] do what the constructor of the section
    does with the gathered lines, the prefix taken off. If it returns, the
    keys of the section are counted once for each of its relevant stack
    traces, under the package of the parser, and nothing new is pending; if
    it raises, the last call raises the same, and the section stays
    pending. *)
Theorem section_fed_line_by_line :
  forall (self : SanitizerLogParser) (start : str) (log : list str)
         (end_line : str) (m : groups) (header : str) (body : list str)
         (summary : str),
    let prefix := groupdict m "prefix" in
    Forall (ignores self) (start :: log ++ [end_line]) ->
    re_match _FIND_SECTION_START_LINE_REGEX (rstrip start) = Some m ->
    rstrip start = prefix ++ header ->
    matches _FIND_SECTION_END_LINE_REGEX (rstrip start) = false ->
    gathers prefix log body ->
    rstrip end_line = prefix ++ summary ->
    forallb is_dot summary = true ->
    matches _FIND_SECTION_START_LINE_REGEX (rstrip end_line) = false ->
    matches _FIND_SECTION_END_LINE_REGEX (rstrip end_line) = true ->
    add_lines self (start :: log ++ [end_line])
    = match SanitizerSection_init (header :: body ++ [summary]) with
      | Returned section =>
          Done (with_counts self
                  (fold_left counter_incr
                     (section_keys (_package self) section)
                     (_count_by_output_primary_key self)))
      | Raised e =>
          Failed e
            {| _count_by_output_primary_key := _count_by_output_primary_key self;
               _package := _package self;
               _lines_by_find_line_regex :=
                 _lines_by_find_line_regex self
                 ++ [(find_line_regex_of prefix, header :: body ++ [summary])] |}
      end.
Proof.
  intros self start log end_line m header body summary prefix
         Hi Hm Hh He Hg Hsum Hsd Hes Hee.
  inversion Hi as [| ? ? Hi0 Hi1]; subst.
  apply Forall_app in Hi1. destruct Hi1 as [Hi1 Hi2].
  inversion Hi2 as [| ? ? Hi2' _]; subst. clear Hi2.
  (* the start line *)
  destruct (start_line_pending self start m header Hi0 Hm Hh He) as [_ Hstart].
  change (add_lines self (start :: log ++ [end_line]))
    with (match add_line self start with
          | Done self' => add_lines self' (log ++ [end_line])
          | Failed e self' => Failed e self'
          end).
  rewrite Hstart. fold prefix.
  (* the lines between *)
  rewrite (pending_gathers self prefix log body [header] [end_line] Hg Hi1).
  (* the end line *)
  cbn [add_lines app].
  rewrite (pending_takes_own_line self prefix end_line summary (header :: body)
             Hi2' Hsum Hsd Hes).
  unfold absorb. rewrite Hee. cbn [groupdict].
  destruct (string_dec "line" "line"); [| congruence].
  cbn [_count_by_output_primary_key _package _lines_by_find_line_regex].
  rewrite <- app_comm_cons.
  destruct (SanitizerSection_init (header :: body ++ [summary])) as [sec | ex];
    [| reflexivity].
  unfold with_counts. rewrite app_nil_r. reflexivity.
Qed.

Lemma section_fed_line_by_line_witness :
  add_lines (set_package SanitizerLogParser_init (Some $"test_communication"))
            leak_log
  = Done leak_parser
  /\ SanitizerSection_init
       ($"==5504==ERROR: LeakSanitizer: detected memory leaks"
        :: leak_body
        ++ [ $"SUMMARY: AddressSanitizer: 72 byte(s) leaked in 2 allocation(s)." ])
     = Returned
         {| error_name := $"detected memory leaks";
            parts := [ {| relevant_stack_traces := [] |};
                       {| relevant_stack_traces :=
                            [ {| key := $"rclcpp::NodeOptions::get_rcl_node_options() const (/ros2/rclcpp/lib/librclcpp.so+0xX)" |} ] |};
                       {| relevant_stack_traces := [] |};
                       {| relevant_stack_traces := [] |} ] |}.
Proof.
  split; [| vm_compute; reflexivity].
  assert (Hg : gathers $"1: " (removelast (tl leak_log)) leak_body).
  { cbv [removelast tl leak_log leak_body leak_frames app].
    repeat first
      [ apply gathers_nil
      | apply gathers_own;
        [ vm_compute; reflexivity | vm_compute; reflexivity
        | vm_compute; reflexivity | vm_compute; reflexivity | ]
      | apply gathers_other;
        [ vm_compute; reflexivity | vm_compute; reflexivity | ] ]. }
  pose proof (section_fed_line_by_line
                (set_package SanitizerLogParser_init (Some $"test_communication"))
                $"1: ==5504==ERROR: LeakSanitizer: detected memory leaks"
                (removelast (tl leak_log))
                $"1: SUMMARY: AddressSanitizer: 72 byte(s) leaked in 2 allocation(s)."
                [("prefix"%string, $"1: ")]
                $"==5504==ERROR: LeakSanitizer: detected memory leaks"
                leak_body
                $"SUMMARY: AddressSanitizer: 72 byte(s) leaked in 2 allocation(s).")
    as W.
  cbv zeta in W.
  specialize (W ltac:(repeat constructor)
                ltac:(vm_compute; reflexivity) ltac:(vm_compute; reflexivity)
                ltac:(vm_compute; reflexivity) Hg
                ltac:(vm_compute; reflexivity) ltac:(vm_compute; reflexivity)
                ltac:(vm_compute; reflexivity) ltac:(vm_compute; reflexivity)).
  vm_compute in W. vm_compute. exact W.
Defined.
(** ** The event handler *)

Lemma fold_incr_keys (P : OutputKey -> Prop) ks : forall d : counter,
  Forall (fun row => P (fst row)) d ->
  Forall P ks ->
  Forall (fun row => P (fst row)) (fold_left counter_incr ks d).
Proof.
  induction ks as [| k ks IH]; intros d Hd Hks; simpl; auto.
  inversion Hks; subst. apply IH; auto.
  rewrite counter_incr_set. apply dict_set_Forall; auto.
  intros k' ->. assumption.
Qed.

(** Calls of [add_line], returned or raised, keep the rows whose packages
    are among those the parser has had. *)
Lemma add_line_rows_package (P : option str -> Prop) self line :
  P (_package self) ->
  Forall (fun row => P (fst (fst (fst row)))) (_count_by_output_primary_key self) ->
  Forall (fun row => P (fst (fst (fst row))))
         (_count_by_output_primary_key (parser_after (add_line self line)))
  /\ _package (parser_after (add_line self line)) = _package self.
Proof.
  intros Hp Hrows. destruct (add_line self line) as [self' | e self'] eqn:E;
    cbn [parser_after].
  - destruct (add_line_Done_counts _ _ _ E) as (ks & Hks & Hp' & Hc & _).
    split; [| exact Hp']. rewrite Hc.
    apply (fold_incr_keys (fun k => P (fst (fst k)))); [exact Hrows |].
    apply Forall_forall. intros k Hk. rewrite (Hks k Hk). exact Hp.
  - destruct (add_line_Failed_frame _ _ _ _ E) as [Hc Hp'].
    rewrite Hc. auto.
Qed.

Lemma add_lines_rows_package (P : option str -> Prop) lines : forall self,
  P (_package self) ->
  Forall (fun row => P (fst (fst (fst row)))) (_count_by_output_primary_key self) ->
  Forall (fun row => P (fst (fst (fst row))))
         (_count_by_output_primary_key (parser_after (add_lines self lines)))
  /\ _package (parser_after (add_lines self lines)) = _package self.
Proof.
  induction lines as [| line lines IH]; intros self Hp Hrows; cbn [add_lines].
  - auto.
  - destruct (add_line_rows_package P self line Hp Hrows) as [H1 H2].
    destruct (add_line self line) as [self' | e self'] eqn:E;
      cbn [parser_after] in *.
    + destruct (IH self') as [H3 H4]; auto.
      * rewrite H2. exact Hp.
      * split; [exact H3 | congruence].
    + auto.
Qed.

Lemma add_lines_reachable_after lines : forall self,
  reachable self -> reachable (parser_after (add_lines self lines)).
Proof.
  induction lines as [| line lines IH]; intros self Hr; cbn [add_lines].
  - exact Hr.
  - destruct (add_line self line) as [self' | e self'] eqn:E.
    + apply IH. exact (reachable_add_line self line self' Hr E).
    + cbn [parser_after]. exact (reachable_add_line_raised self line e self' Hr E).
Qed.


Lemma csv_parser (self : SanitizerLogParser) : snd (csv self) = self.
Proof. destruct self. reflexivity. Qed.

Lemma write_report_parser self fs :
  _log_parser (handler_after (write_report self fs)) = _log_parser self.
Proof.
  unfold write_report. pose proof (csv_parser (_log_parser self)) as H.
  destruct (csv (_log_parser self)) as [text parser]. cbn [snd] in H.
  destruct (report_access_of fs); cbn [handler_after _log_parser]; auto.
Qed.

(** The parser a call of [_handle] leaves, returned or raised: the one that
    has been given the lines the log yielded, as far as [add_line] returned. *)
Lemma _handle_parser self identifier fs :
  _log_parser (handler_after (_handle self identifier fs))
  = if log_path fs
    then parser_after
           (add_lines (set_package (_log_parser self) (Some identifier))
                      (yielded (log_of fs identifier)))
    else set_package (_log_parser self) (Some identifier).
Proof.
  unfold _handle. destruct (log_path fs); [| reflexivity].
  destruct (add_lines (set_package (_log_parser self) (Some identifier))
                      (yielded (log_of fs identifier))) as [p | e p];
    cbn [parser_after]; [| reflexivity].
  destruct (ending (log_of fs identifier));
    try (rewrite write_report_parser); reflexivity.
Qed.

Lemma handler_state_parser evs self report :
  handler_state evs self report ->
  reachable (_log_parser self)
  /\ Forall (package_of_job evs) (report_rows (_log_parser self))
  /\ (report_rows (_log_parser self) <> [] ->
      exists identifier,
        In (JobEnded identifier) evs
        /\ _package (_log_parser self) = Some identifier).
Proof.
  assert (Hjob : forall evs self identifier fs,
    reachable (_log_parser self) ->
    Forall (package_of_job evs) (report_rows (_log_parser self)) ->
    let parser :=
      _log_parser (handler_after (_handle self identifier fs)) in
    reachable parser
    /\ Forall (package_of_job (evs ++ [JobEnded identifier])) (report_rows parser)
    /\ (report_rows parser <> [] ->
        exists identifier0,
          In (JobEnded identifier0) (evs ++ [JobEnded identifier])
          /\ _package parser = Some identifier0)).
  { intros evs0 self0 identifier fs Hr Hrows parser.
    set (P := fun package : option str =>
                exists identifier0 : str,
                  In (JobEnded identifier0) (evs0 ++ [JobEnded identifier])
                  /\ package = Some identifier0).
    assert (Hp0 : P (_package (set_package (_log_parser self0) (Some identifier)))).
    { exists identifier. split; [| reflexivity].
      apply in_or_app. right. left. reflexivity. }
    assert (Hrows0 : Forall (fun row => P (fst (fst (fst row))))
                            (_count_by_output_primary_key
                               (set_package (_log_parser self0) (Some identifier)))).
    { cbn [set_package _count_by_output_primary_key].
      eapply Forall_impl; [| exact Hrows].
      intros row (identifier0 & Hin & Hpk). exists identifier0.
      split; [apply in_or_app; left; exact Hin | exact Hpk]. }
    assert (Hr0 : reachable (set_package (_log_parser self0) (Some identifier)))
      by (apply reachable_set_package; exact Hr).
    unfold parser. rewrite _handle_parser. destruct (log_path fs).
    - destruct (add_lines_rows_package P (yielded (log_of fs identifier)) _ Hp0 Hrows0)
        as [H1 H2].
      repeat split.
      + apply add_lines_reachable_after. exact Hr0.
      + exact H1.
      + intros _. rewrite H2. exact Hp0.
    - split; [exact Hr0 |]. split; [exact Hrows0 |].
      intros _. exact Hp0. }
  assert (Hcall : forall evs self ev fs,
    reachable (_log_parser self)
    /\ Forall (package_of_job evs) (report_rows (_log_parser self))
    /\ (report_rows (_log_parser self) <> [] ->
        exists identifier,
          In (JobEnded identifier) evs
          /\ _package (_log_parser self) = Some identifier) ->
    let self' := handler_after (__call__ self ev fs) in
    reachable (_log_parser self')
    /\ Forall (package_of_job (evs ++ [ev])) (report_rows (_log_parser self'))
    /\ (report_rows (_log_parser self') <> [] ->
        exists identifier,
          In (JobEnded identifier) (evs ++ [ev])
          /\ _package (_log_parser self') = Some identifier)).
  { intros evs0 self0 ev fs (Hr & Hrows & Hpk). destruct ev as [identifier |].
    - cbn [__call__]. apply Hjob; assumption.
    - cbn [__call__ handler_after]. repeat split; auto.
      + eapply Forall_impl; [| exact Hrows].
        intros row (identifier0 & Hin & Hp). exists identifier0.
        split; [apply in_or_app; left; exact Hin | exact Hp].
      + intro Hne. destruct (Hpk Hne) as (identifier0 & Hin & Hp).
        exists identifier0. split; [apply in_or_app; left; exact Hin | exact Hp]. }
  induction 1 as [| evs self report ev fs self' fs' _ IH _ E
                  | evs self report ev fs e self' fs' _ IH _ E].
  - repeat split; [apply reachable_init | constructor |].
    intro H. exfalso. apply H. reflexivity.
  - pose proof (Hcall evs self ev fs IH) as H. rewrite E in H. exact H.
  - pose proof (Hcall evs self ev fs IH) as H. rewrite E in H. exact H.
Qed.

(** X23. The report of a build. After the events of a build, whatever the
    logs of the jobs held and whether or not calls of the handler raised,
    every row of the handler's parser has for its package the identifier of
    a job that ended: no row is without package. The rows have distinct
    primary keys and counts of at least 1. *)
Theorem handler_rows_name_jobs :
  forall (evs : list event) (self : SanitizerReportEventHandler)
         (report : option str),
    handler_state evs self report ->
    Forall (package_of_job evs) (report_rows (_log_parser self))
    /\ NoDup (dict_keys (_count_by_output_primary_key (_log_parser self)))
    /\ Forall (fun row => 1 <= snd row) (report_rows (_log_parser self)).
Proof.
  intros evs self report H.
  destruct (handler_state_parser evs self report H) as (Hr & Hrows & _).
  destruct (reachable_well_formed _ Hr) as (H1 & H2 & _).
  auto.
Qed.

Lemma handler_rows_name_jobs_witness :
  let world path report :=
    {| log_path := path;
       log_of := fun _ : str => {| yielded := leak_log; ending := EndOfFile |};
       report_access_of := ReportWritten;
       sanitizer_report_csv := report |} in
  let self := {| enabled := false; _log_parser := leak_parser |} in
  let evs := [OtherEvent; JobEnded $"rcl"; JobEnded $"test_communication"] in
  handler_state evs self (Some (fst (csv leak_parser)))
  /\ Forall (package_of_job evs) (report_rows leak_parser)
  /\ NoDup (dict_keys (_count_by_output_primary_key leak_parser))
  /\ Forall (fun row => 1 <= snd row) (report_rows leak_parser).
Proof.
  intros world self evs.
  assert (H : handler_state evs self (Some (fst (csv leak_parser)))).
  { apply (handler_returned [OtherEvent; JobEnded $"rcl"]
             {| enabled := false;
                _log_parser := set_package SanitizerLogParser_init (Some $"rcl") |}
             None
             (JobEnded $"test_communication") (world true None) self
             (world true (Some (fst (csv leak_parser))))).
    - apply (handler_raised [OtherEvent] SanitizerReportEventHandler_init None
               (JobEnded $"rcl") (world false None) TypeError
               {| enabled := false;
                  _log_parser := set_package SanitizerLogParser_init (Some $"rcl") |}
               (world false None)).
      + apply (handler_returned [] SanitizerReportEventHandler_init None
                 OtherEvent (world true None) SanitizerReportEventHandler_init
                 (world true None)).
        * apply handler_fresh.
        * reflexivity.
        * reflexivity.
      + reflexivity.
      + vm_compute. reflexivity.
    - reflexivity.
    - vm_compute. reflexivity. }
  split; [exact H |].
  apply (handler_rows_name_jobs evs self (Some (fst (csv leak_parser))) H).
Defined.

(** ** Lines with a key, and start lines *)

(** The lines the stack trace line pattern matches, among the lines without
    line feed. *)
Lemma frame_shape ws d sp rest :
  forallb is_space ws = true ->
  d <> [] -> forallb is_digit d = true ->
  sp <> [] -> forallb is_space sp = true ->
  forallb is_dot rest = true ->
  is_frame (ws ++ $"#" ++ d ++ sp ++ rest) = true.
Proof.
  intros Hws Hd0 Hd Hsp0 Hsp Hrest. unfold is_frame.
  apply matches_iff_derive. exists [], [].
  unfold _FIND_STACK_TRACE_LINE_REGEX.
  eapply derive_Seq; [apply derive_Bol; reflexivity |].
  eapply derive_Seq; [apply derive_Star; exact Hws |].
  eapply derive_Seq; [apply derive_Lit |].
  eapply derive_Seq; [apply derive_Plus; assumption |].
  eapply derive_Seq; [apply derive_Plus; assumption |].
  eapply derive_Seq; [| apply derive_Eol; left; reflexivity].
  rewrite <- (app_nil_r rest). apply derive_Star. exact Hrest.
Qed.

Lemma forallb_app_r (p : ascii -> bool) (x y : str) :
  forallb p (x ++ y) = true -> forallb p y = true.
Proof.
  rewrite forallb_app. intro H. apply andb_true_iff in H. tauto.
Qed.

(** X25. A line with a key is a stack trace line. Every line without line
    feed that the key pattern matches is matched by the stack trace line
    pattern too: within a part, the lines that can give a key are among
    those the part gathers as stack trace lines, and none of them closes a
    stack trace. *)
Theorem key_line_is_frame :
  forall l : str,
    forallb is_dot l = true ->
    matches _FIND_KEY_REGEX l = true ->
    is_frame l = true.
Proof.
  intros l Hdot H. apply matches_iff_derive in H. destruct H as (s' & m & D).
  unfold _FIND_KEY_REGEX in D. invert_derive;
    change (cmatch CDot) with is_dot in *;
    change (cmatch CSpace) with is_space in *;
    change (cmatch CDigit) with is_digit in *;
    change (cmatch CHex) with is_hex in *.
  all: match goal with
       | |- is_frame (?ws ++ _ ++ ?d ++ _ ++ ?rest) = true =>
           apply (frame_shape ws d [" "%char] rest)
       end; try assumption; try discriminate; try reflexivity.
  all: do 4 apply forallb_app_r in Hdot; exact Hdot.
Qed.

Lemma key_line_is_frame_witness :
  matches _FIND_KEY_REGEX $"    #1 0x7e1b in rcl_init (/ros2/rcl/lib/librcl.so+0x77)" = true
  /\ is_frame $"    #1 0x7e1b in rcl_init (/ros2/rcl/lib/librcl.so+0x77)" = true.
Proof.
  split; [reflexivity |].
  apply (key_line_is_frame $"    #1 0x7e1b in rcl_init (/ros2/rcl/lib/librcl.so+0x77)");
    reflexivity.
Defined.

Lemma run_StarLazy (R : Type) (w : str) (k : str -> groups -> option R) c s g :
  run w (StarLazy c) k s g = star_lazy (cmatch c) (fun s' => k s' g) s.
Proof. reflexivity. Qed.

(** What follows the prefix in a start line binds no group. *)
Lemma start_rest_groups (w s : str) (g x : groups) :
  run w (Group None ((Lit $"==" +> Plus CDigit +> Lit $"==") <|> Eps) +>
         Group None (Lit $"WARNING" <|> Lit $"ERROR") +> Lit $":" +>
         Star CDot +> Lit $"Sanitizer:" +> Star CDot +> Eol)%re
      (fun _ g' => Some g') s g = Some x ->
  x = g.
Proof.
  intro H. apply run_sound in H. destruct H as (s' & g' & D & E).
  inversion E; subst. invert_derive; reflexivity.
Qed.

Lemma start_rest_matches (w pid level a b : str) (g : groups) :
  pid = [] \/ (exists d, d <> [] /\ forallb is_digit d = true
                         /\ pid = $"==" ++ d ++ $"==") ->
  level = $"WARNING" \/ level = $"ERROR" ->
  forallb is_dot a = true ->
  forallb is_dot b = true ->
  run w (Group None ((Lit $"==" +> Plus CDigit +> Lit $"==") <|> Eps) +>
         Group None (Lit $"WARNING" <|> Lit $"ERROR") +> Lit $":" +>
         Star CDot +> Lit $"Sanitizer:" +> Star CDot +> Eol)%re
      (fun _ g' => Some g')
      (pid ++ level ++ $":" ++ a ++ $"Sanitizer:" ++ b) g
  = Some g.
Proof.
  intros Hpid Hlevel Ha Hb.
  match goal with
  | |- ?lhs = _ => destruct lhs as [x |] eqn:E
  end.
  - f_equal. exact (start_rest_groups _ _ _ _ E).
  - exfalso. revert E.
    assert (Htail : forall g0,
      derive w (Lit $":" +> Star CDot +> Lit $"Sanitizer:" +> Star CDot +> Eol)%re
             ($":" ++ a ++ $"Sanitizer:" ++ b) g0 [] g0).
    { intro g0.
      eapply derive_Seq; [apply derive_Lit |].
      eapply derive_Seq; [apply derive_Star; exact Ha |].
      eapply derive_Seq; [apply derive_Lit |].
      eapply derive_Seq; [| apply derive_Eol; left; reflexivity].
      rewrite <- (app_nil_r b). apply derive_Star. exact Hb. }
    assert (Hlev : forall g0, exists g1,
      derive w (Group None (Lit $"WARNING" <|> Lit $"ERROR"))
             (level ++ $":" ++ a ++ $"Sanitizer:" ++ b) g0
             ($":" ++ a ++ $"Sanitizer:" ++ b) g1).
    { intro g0. eexists. apply derive_Group.
      destruct Hlevel as [-> | ->];
        [apply derive_Alt_l | apply derive_Alt_r]; apply derive_Lit. }
    assert (Hp : forall g0, exists g1,
      derive w (Group None ((Lit $"==" +> Plus CDigit +> Lit $"==") <|> Eps))
             (pid ++ level ++ $":" ++ a ++ $"Sanitizer:" ++ b) g0
             (level ++ $":" ++ a ++ $"Sanitizer:" ++ b) g1).
    { intro g0. eexists. apply derive_Group.
      destruct Hpid as [-> | (d & Hd0 & Hd & ->)].
      - apply derive_Alt_r. apply derive_Eps.
      - apply derive_Alt_l. rewrite <- !app_assoc.
        eapply derive_Seq; [apply derive_Lit |].
        eapply derive_Seq; [apply derive_Plus; assumption |].
        apply derive_Lit. }
    destruct (Hp g) as (g1 & D1). destruct (Hlev g1) as (g2 & D2).
    apply (run_complete _ w _ _ _ [] g2).
    + eapply derive_Seq; [exact D1 |]. eapply derive_Seq; [exact D2 |].
      apply Htail.
    + discriminate.
Qed.

Lemma start_rest_rejects (w : str) (c : ascii) (s : str) (g : groups) :
  c <> "="%char -> c <> "W"%char -> c <> "E"%char ->
  run w (Group None ((Lit $"==" +> Plus CDigit +> Lit $"==") <|> Eps) +>
         Group None (Lit $"WARNING" <|> Lit $"ERROR") +> Lit $":" +>
         Star CDot +> Lit $"Sanitizer:" +> Star CDot +> Eol)%re
      (fun _ g' => Some g') (c :: s) g
  = None.
Proof.
  intros H1 H2 H3.
  match goal with
  | |- ?lhs = _ => destruct lhs as [x |] eqn:E; [| reflexivity]
  end.
  exfalso. apply run_sound in E. destruct E as (s' & g' & D & _).
  invert_derive; congruence.
Qed.

(** X26. The prefix of a start line. In a line made of the text [p], an
    optional "==", digits, "==", then "WARNING" or "ERROR", ":", and text
    around "Sanitizer:", all without line feed, where [p] has none of the
    characters "=", "W" and "E", the start line pattern finds the prefix
    [p]: the lines of the section are those behind [p], and the process
    mark "==...==" is not part of it. *)
Theorem start_line_prefix :
  forall (p pid level a b : str),
    forallb is_dot p = true ->
    (forall c : ascii,
        In c p -> c <> "="%char /\ c <> "W"%char /\ c <> "E"%char) ->
    pid = [] \/ (exists d, d <> [] /\ forallb is_digit d = true
                           /\ pid = $"==" ++ d ++ $"==") ->
    level = $"WARNING" \/ level = $"ERROR" ->
    forallb is_dot a = true ->
    forallb is_dot b = true ->
    re_match _FIND_SECTION_START_LINE_REGEX
             (p ++ pid ++ level ++ $":" ++ a ++ $"Sanitizer:" ++ b)
    = Some [("prefix"%string, p)].
Proof.
  intros p pid level a b Hp Hchars Hpid Hlevel Ha Hb.
  unfold re_match, _FIND_SECTION_START_LINE_REGEX.
  rewrite run_Seq, run_Bol_start, run_Seq, run_Group, run_StarLazy.
  change (cmatch CDot) with is_dot.
  apply star_lazy_first.
  - exact Hp.
  - intros a1 a2 -> Hne. destruct a2 as [| c a2]; [congruence |].
    cbn [app].
    destruct (Hchars c) as (H1 & H2 & H3);
      [apply in_or_app; right; left; reflexivity |].
    apply start_rest_rejects; assumption.
  - rewrite between_app. cbn [bind_group].
    apply start_rest_matches; assumption.
Qed.

Lemma start_line_prefix_witness :
  re_match _FIND_SECTION_START_LINE_REGEX
           $"1: ==5504==ERROR: LeakSanitizer: detected memory leaks"
  = Some [("prefix"%string, $"1: ")].
Proof.
  apply (start_line_prefix $"1: " $"==5504==" $"ERROR" $" Leak"
           $" detected memory leaks").
  - reflexivity.
  - intros c [<- | [<- | [<- | []]]]; repeat split; discriminate.
  - right. exists $"5504". repeat split. discriminate.
  - right. reflexivity.
  - reflexivity.
  - reflexivity.
Defined.
(** ** Sections side by side *)

Section DictApp.

Variables K V : Type.
Variable K_eq_dec : forall a b : K, {a = b} + {a <> b}.

Lemma dict_set_app_l (d1 d2 : dict K V) k v :
  In k (dict_keys d1) ->
  dict_set K_eq_dec (d1 ++ d2) k v = dict_set K_eq_dec d1 k v ++ d2.
Proof.
  induction d1 as [| [k' v'] d1 IH]; simpl; [tauto |].
  intros H. destruct (K_eq_dec k' k) as [E | E]; [reflexivity |].
  simpl. f_equal. apply IH. destruct H; congruence.
Qed.

Lemma dict_set_app_r (d1 d2 : dict K V) k v :
  ~ In k (dict_keys d1) ->
  dict_set K_eq_dec (d1 ++ d2) k v = d1 ++ dict_set K_eq_dec d2 k v.
Proof.
  induction d1 as [| [k' v'] d1 IH]; simpl; [reflexivity |].
  intros H. destruct (K_eq_dec k' k) as [E | E]; [tauto |].
  f_equal. apply IH. tauto.
Qed.

Lemma dict_set_cons_other (d : dict K V) k' v' k v :
  k' <> k ->
  dict_set K_eq_dec ((k', v') :: d) k v = (k', v') :: dict_set K_eq_dec d k v.
Proof.
  intro H. simpl. destruct (K_eq_dec k' k); [contradiction | reflexivity].
Qed.

Lemma dict_set_keys_present (d : dict K V) k v :
  In k (dict_keys d) -> dict_keys (dict_set K_eq_dec d k v) = dict_keys d.
Proof.
  intro H. rewrite dict_set_keys.
  destruct (in_dec K_eq_dec k (dict_keys d)); [reflexivity | contradiction].
Qed.

End DictApp.

Section Lifted.

Variable self : SanitizerLogParser.
Variable p : str.

(** The sections before that of [p] take no line that [self] ignores. *)
Lemma ignores_pre (pre : dict regex (list str)) line :
  incl (dict_keys pre) (dict_keys (_lines_by_find_line_regex self)) ->
  ignores self line ->
  Forall (no_match (rstrip line)) pre.
Proof.
  intros Hincl Hi. apply Forall_forall. intros [r ls] Hin.
  assert (Hk : In r (dict_keys (_lines_by_find_line_regex self))).
  { apply Hincl. unfold dict_keys.
    change r with (fst (r, ls)). apply in_map. exact Hin. }
  unfold dict_keys in Hk. apply in_map_iff in Hk.
  destruct Hk as ([r0 ls0] & Hr & Hin0). cbn [fst] in Hr. subst r0.
  unfold ignores in Hi. rewrite Forall_forall in Hi.
  exact (Hi _ Hin0).
Qed.

Lemma lifted_register acc s t line :
  lifted self p acc s t ->
  re_match (find_line_regex_of p) (rstrip line) = None ->
  lifted self p acc (register_start s (rstrip line))
         (register_start t (rstrip line)).
Proof.
  intros (Hc & Hp & pre & post & Hs & Ht & Hincl) Hno.
  unfold register_start.
  destruct (re_match _FIND_SECTION_START_LINE_REGEX (rstrip line)) as [m |] eqn:Em.
  - destruct (rstrip_start_line line m Em) as (Hdot & x & Hx).
    assert (Hne : find_line_regex_of p <> find_line_regex_of (groupdict m "prefix")).
    { intro E. rewrite E in Hno. rewrite Hx in Hno.
      rewrite find_line_regex_matches in Hno; [discriminate |].
      rewrite Hx in Hdot. exact (forallb_app_r _ _ _ Hdot). }
    repeat split; cbn [_count_by_output_primary_key _package]; auto.
    cbn [_lines_by_find_line_regex]. rewrite Hs, Ht.
    destruct (in_dec regex_eq_dec (find_line_regex_of (groupdict m "prefix"))
                     (dict_keys pre)) as [Hin | Hout].
    + exists (dict_set regex_eq_dec pre (find_line_regex_of (groupdict m "prefix")) []),
             post.
      rewrite !dict_set_app_l by exact Hin. repeat split; auto.
      rewrite dict_set_keys_present by exact Hin. exact Hincl.
    + exists pre,
             (dict_set regex_eq_dec post (find_line_regex_of (groupdict m "prefix")) []).
      rewrite !dict_set_app_r by exact Hout.
      rewrite dict_set_cons_other by exact Hne. repeat split; auto.
  - repeat split; auto. exists pre, post. auto.
Qed.

(** The first section to take a line does with it what it does without the
    section of [p] among the others. *)
Lemma lifted_absorb acc s t line seenS seenT r lines m restS restT :
  _count_by_output_primary_key t = _count_by_output_primary_key s ->
  _package t = _package s ->
  (forall ls : list str,
      exists pre post : dict regex (list str),
        seenS ++ (r, ls) :: restS = pre ++ post
        /\ seenT ++ (r, ls) :: restT = pre ++ (find_line_regex_of p, acc) :: post
        /\ incl (dict_keys pre) (dict_keys (_lines_by_find_line_regex self))) ->
  (exists pre post : dict regex (list str),
      seenS ++ restS = pre ++ post
      /\ seenT ++ restT = pre ++ (find_line_regex_of p, acc) :: post
      /\ incl (dict_keys pre) (dict_keys (_lines_by_find_line_regex self))) ->
  lifted_outcome self p acc
    (absorb s line seenS r lines m restS)
    (absorb t line seenT r lines m restT).
Proof.
  intros Hc Hp Hkeep Hdrop. unfold absorb. rewrite Hc, Hp.
  destruct (matches _FIND_SECTION_END_LINE_REGEX line).
  - destruct (SanitizerSection_init (lines ++ [groupdict m "line"])) as [sec | e];
      cbn [lifted_outcome].
    + repeat split; auto.
    + split; [reflexivity |]. repeat split; auto. apply Hkeep.
  - cbn [lifted_outcome]. repeat split; auto. apply Hkeep.
Qed.

Lemma keys_app_cons (seen rest : dict regex (list str)) r ls :
  dict_keys (seen ++ (r, ls) :: rest) = dict_keys seen ++ r :: dict_keys rest.
Proof. unfold dict_keys. rewrite map_app. reflexivity. Qed.

Lemma lifted_route acc s t line :
  lifted self p acc s t ->
  re_match (find_line_regex_of p) line = None ->
  lifted_outcome self p acc
    (route s line [] (_lines_by_find_line_regex s))
    (route t line [] (_lines_by_find_line_regex t)).
Proof.
  intros (Hc & Hp & pre & post & Hs & Ht & Hincl) Hno.
  rewrite Hs, Ht.
  destruct (first_match_split line pre)
    as [Hpre | (seen & r & ls & m & rest1 & -> & Hseen & Hm)].
  - destruct (first_match_split line post)
      as [Hpost | (seenp & r & ls & m & restp & -> & Hseenp & Hm)].
    + rewrite !route_no_match.
      * cbn [lifted_outcome]. repeat split; auto. exists pre, post. auto.
      * apply Forall_app. split; [exact Hpre |]. constructor; [exact Hno | exact Hpost].
      * apply Forall_app. split; assumption.
    + replace (pre ++ seenp ++ (r, ls) :: restp)
        with ((pre ++ seenp) ++ (r, ls) :: restp)
        by (rewrite <- app_assoc; reflexivity).
      replace (pre ++ (find_line_regex_of p, acc) :: seenp ++ (r, ls) :: restp)
        with ((pre ++ (find_line_regex_of p, acc) :: seenp) ++ (r, ls) :: restp)
        by (rewrite <- app_assoc; reflexivity).
      rewrite (route_first_match s line [] (pre ++ seenp) r ls m restp)
        by (first [assumption | apply Forall_app; split; assumption]).
      rewrite (route_first_match t line []
                 (pre ++ (find_line_regex_of p, acc) :: seenp) r ls m restp)
        by (first [assumption
                  | apply Forall_app; split;
                    [exact Hpre | constructor; [exact Hno | exact Hseenp]]]).
      cbn [app]. apply lifted_absorb; auto.
      * intro ls'. exists pre, (seenp ++ (r, ls') :: restp).
        rewrite <- !app_assoc. repeat split; auto.
      * exists pre, (seenp ++ restp). rewrite <- !app_assoc. repeat split; auto.
  - rewrite <- !app_assoc. cbn [app].
    rewrite (route_first_match s line [] seen r ls m (rest1 ++ post)) by auto.
    rewrite (route_first_match t line [] seen r ls m
               (rest1 ++ (find_line_regex_of p, acc) :: post)) by auto.
    cbn [app]. apply lifted_absorb; auto.
    + intro ls'. exists (seen ++ (r, ls') :: rest1), post.
      rewrite <- !app_assoc. repeat split; auto.
      rewrite keys_app_cons. rewrite keys_app_cons in Hincl. exact Hincl.
    + exists (seen ++ rest1), post. rewrite <- !app_assoc. repeat split; auto.
      rewrite keys_app_cons in Hincl. unfold dict_keys in *. rewrite map_app.
      intros k Hk. apply Hincl. apply in_app_or in Hk. apply in_or_app.
      destruct Hk as [Hk | Hk]; [left; exact Hk | right; right; exact Hk].
Qed.

(** A line the pattern of [p] does not match. *)
Lemma lifted_other acc s t line :
  lifted self p acc s t ->
  re_match (find_line_regex_of p) (rstrip line) = None ->
  lifted_outcome self p acc (add_line s line) (add_line t line).
Proof.
  intros H Hno. rewrite !add_line_unfold.
  apply lifted_route; [| exact Hno].
  apply lifted_register; assumption.
Qed.

(** A line behind the prefix [p]. *)
Lemma lifted_own acc s t line x :
  lifted self p acc s t ->
  ignores self line ->
  rstrip line = p ++ x ->
  forallb is_dot x = true ->
  matches _FIND_SECTION_START_LINE_REGEX (rstrip line) = false ->
  exists pre post,
    _lines_by_find_line_regex s = pre ++ post
    /\ incl (dict_keys pre) (dict_keys (_lines_by_find_line_regex self))
    /\ add_line t line
       = absorb t (rstrip line) pre (find_line_regex_of p) acc
                [("line"%string, x)] post.
Proof.
  intros (Hc & Hp & pre & post & Hs & Ht & Hincl) Hi Hx Hd Hstart.
  exists pre, post. repeat split; auto.
  rewrite add_line_unfold. rewrite (register_start_not_start _ _ Hstart).
  rewrite Ht.
  apply (route_first_match t (rstrip line) [] pre (find_line_regex_of p) acc
           [("line"%string, x)] post).
  - apply ignores_pre; assumption.
  - rewrite Hx. apply find_line_regex_matches. exact Hd.
Qed.

Lemma lifted_passes log body others : forall acc s t tail s',
  passes self p log body others ->
  lifted self p acc s t ->
  add_lines s others = Done s' ->
  exists t',
    lifted self p (acc ++ body) s' t'
    /\ add_lines t (log ++ tail) = add_lines t' tail.
Proof.
  intros acc s t tail s' Hpass. revert acc s t.
  induction Hpass as [| line x log body others Hi Hx Hd Hst He _ IH
                      | line log body others Hno _ IH];
    intros acc s t Hl Hs.
  - cbn [add_lines] in Hs. inversion Hs; subst.
    exists t. rewrite app_nil_r. auto.
  - destruct (lifted_own acc s t line x Hl Hi Hx Hd Hst)
      as (pre & post & Hspre & Hincl & Hadd).
    destruct Hl as (Hc & Hp & _).
    cbn [app add_lines]. rewrite Hadd. unfold absorb. rewrite He.
    cbn [groupdict]. destruct (string_dec "line" "line"); [| congruence].
    destruct (IH (acc ++ [x]) s
                {| _count_by_output_primary_key := _count_by_output_primary_key t;
                   _package := _package t;
                   _lines_by_find_line_regex :=
                     pre ++ (find_line_regex_of p, acc ++ [x]) :: post |})
      as (t' & Hl' & Heq); auto.
    + repeat split; auto. exists pre, post. auto.
    + exists t'. rewrite <- app_assoc in Hl'. auto.
  - cbn [add_lines] in Hs. cbn [app add_lines].
    pose proof (lifted_other acc s t line Hl Hno) as Ho.
    destruct (add_line s line) as [s1 | e s1]; [| discriminate].
    destruct (add_line t line) as [t1 | e t1]; cbn [lifted_outcome] in Ho;
      [| contradiction].
    exact (IH acc s1 t1 Ho Hs).
Qed.

End Lifted.

(** X27. Sections side by side. A section is counted as if the lines of
    the others were not between its own. Let a start line, taken by no
    section pending before, be followed by lines behind its prefix (none a
    start or an end line, none taken by a section pending before) among
    lines that the pattern of the prefix does not match, whatever they are:
    lines, start lines and end lines of other sections; and then by an end
    line behind the prefix. When the lines passed over, fed alone, leave
    the parser [self'], and the constructor of the section returns for the
    gathered lines, feeding all the lines leaves [self'] with the keys of
    the section counted once for each of its relevant stack traces. *)
Theorem section_among_others_is_counted :
  forall (self : SanitizerLogParser) (start : str) (log : list str)
         (end_line : str) (m : groups) (header : str)
         (body others : list str) (summary : str)
         (self' : SanitizerLogParser) (section : SanitizerSection),
    let prefix := groupdict m "prefix" in
    ignores self start ->
    re_match _FIND_SECTION_START_LINE_REGEX (rstrip start) = Some m ->
    rstrip start = prefix ++ header ->
    matches _FIND_SECTION_END_LINE_REGEX (rstrip start) = false ->
    passes self prefix log body others ->
    ignores self end_line ->
    rstrip end_line = prefix ++ summary ->
    forallb is_dot summary = true ->
    matches _FIND_SECTION_START_LINE_REGEX (rstrip end_line) = false ->
    matches _FIND_SECTION_END_LINE_REGEX (rstrip end_line) = true ->
    add_lines self others = Done self' ->
    SanitizerSection_init (header :: body ++ [summary]) = Returned section ->
    add_lines self (start :: log ++ [end_line])
    = Done (with_counts self'
              (fold_left counter_incr
                 (section_keys (_package self) section)
                 (_count_by_output_primary_key self'))).
Proof.
  intros self start log end_line m header body others summary self' section
         prefix Hi0 Hm Hh He Hpass Hi2 Hsum Hsd Hes Hee Hothers Hsec.
  destruct (start_line_pending self start m header Hi0 Hm Hh He) as [_ Hstart].
  fold prefix in Hstart.
  change (add_lines self (start :: log ++ [end_line]))
    with (match add_line self start with
          | Done self1 => add_lines self1 (log ++ [end_line])
          | Failed e self1 => Failed e self1
          end).
  rewrite Hstart.
  assert (Hl : lifted self prefix [header] self (with_pending self prefix [header])).
  { repeat split. exists (_lines_by_find_line_regex self), [].
    rewrite app_nil_r. repeat split. apply incl_refl. }
  destruct (lifted_passes self prefix log body others [header] self
              (with_pending self prefix [header]) [end_line] self'
              Hpass Hl Hothers) as (t' & Hl' & ->).
  destruct (lifted_own self prefix ([header] ++ body) self' t' end_line summary
              Hl' Hi2 Hsum Hsd Hes) as (pre & post & Hpend & _ & Hadd).
  destruct Hl' as (Hc & Hp & _).
  destruct (add_lines_Done_counts _ _ _ Hothers) as (_ & _ & Hpkg & _).
  cbn [add_lines]. rewrite Hadd. unfold absorb. rewrite Hee.
  cbn [groupdict]. destruct (string_dec "line" "line"); [| congruence].
  cbn [app]. rewrite Hsec. rewrite Hc, Hp, Hpkg, <- Hpend.
  unfold with_counts. rewrite Hpkg. reflexivity.
Qed.

Lemma section_among_others_is_counted_witness :
  add_lines (set_package SanitizerLogParser_init (Some $"demo")) interleaved_log
  = Done interleaved_parser.
Proof.
  set (self := set_package SanitizerLogParser_init (Some $"demo")).
  assert (Hi : forall l, ignores self l) by (intro l; constructor).
  assert (Hpass : passes self $"1: " (removelast (tl interleaved_log))
                         interleaved_race_body interleaved_others).
  { cbv [removelast tl interleaved_log interleaved_race_body interleaved_others].
    repeat first
      [ apply passes_nil
      | apply passes_own;
        [ apply Hi | vm_compute; reflexivity | vm_compute; reflexivity
        | vm_compute; reflexivity | vm_compute; reflexivity | ]
      | apply passes_other; [ vm_compute; reflexivity | ] ]. }
  pose proof (section_among_others_is_counted
                self
                $"1: WARNING: ThreadSanitizer: data race (pid=7)"
                (removelast (tl interleaved_log))
                $"1: SUMMARY: ThreadSanitizer: data race (/ros2/lib/libfoo.so+0x2) in foo()"
                [("prefix"%string, $"1: ")]
                $"WARNING: ThreadSanitizer: data race (pid=7)"
                interleaved_race_body interleaved_others
                $"SUMMARY: ThreadSanitizer: data race (/ros2/lib/libfoo.so+0x2) in foo()"
                (parser_after (add_lines self interleaved_others))
                {| error_name := $"data race";
                   parts := [ {| relevant_stack_traces :=
                                   [ {| key := $"foo() (/ros2/lib/libfoo.so+0xX)" |};
                                     {| key := $"bar() (/ros2/lib/libbar.so+0xX)" |} ] |};
                              {| relevant_stack_traces := [] |} ] |})
    as W.
  cbv zeta in W.
  specialize (W (Hi _)
                ltac:(vm_compute; reflexivity) ltac:(vm_compute; reflexivity)
                ltac:(vm_compute; reflexivity) Hpass (Hi _)
                ltac:(vm_compute; reflexivity) ltac:(vm_compute; reflexivity)
                ltac:(vm_compute; reflexivity) ltac:(vm_compute; reflexivity)
                ltac:(vm_compute; reflexivity) ltac:(vm_compute; reflexivity)).
  vm_compute in W. vm_compute. exact W.
Defined.
